(** * Capacity-aware case assignment engine (frontend/src/data/api.ts)

    A shallow embedding of the allocation and derivation logic of
    [frontend/src/data/api.ts] and [frontend/src/lib/geo.ts].

    Conventions of the embedding:
    - a JavaScript [number] that counts something (beds, victims, slots,
      severity ranks) is a [Z]; a [number] that is a coordinate or a
      distance is a [Q], its arithmetic being carried by the runtime
      primitives below;
    - the occupancy blend is computed as the program computes it, in IEEE
      754 binary64 with rounding to nearest even ([Float64], on the
      [SpecFloat] operations of the Standard Library);
    - [Map<string, number>] and [Map<string, string>] that are only read and
      written by key are [gmap]s; the [Map] whose iteration order is used
      ([byPlace]) is an association list in insertion order;
    - [Array.prototype.sort] is the stable sort of the language standard: a
      stable insertion sort driven by the sign of the comparator;
    - the runtime primitives the source calls but does not define
      ([Math.sin], [Math.cos], [Math.sqrt], [Math.atan2], [Math.PI],
      [RegExp.prototype.test], [String.prototype.toLowerCase]) are variables
      of the section that holds the engine. *)

From Stdlib Require Import ZArith QArith Qround Qminmax Lia Lqa List Permutation Sorted.
From Stdlib Require Import Qpower SpecFloat.
From stdpp Require Import gmap strings list fin_maps.

Open Scope Z_scope.

Set Warnings "-clear-no-such-hyp".

(** ** Types *)

Inductive SeverityLevel := critical | severe | moderate | mild.

Inductive AmbulanceStatus := dispatched | en_route | on_scene | pending.

Module Patient.
Record t := mk {
  patientAge : Z;
  signsAndSymptoms : list string;
  severity : SeverityLevel;
  levelOfConsciousness : string;
  breathingStatus : string;
  traumaHistory : string;
  knownChronicDiseases : list string;
  painScore : Z
}.
End Patient.

Module EmergencyCase.
Record t := mk {
  id : string;
  timeOfReport : string;
  latitude : Q;
  longitude : Q;
  placeName : string;
  callerPhone : string;
  victimName : option string;
  patients : list Patient.t;
  severity : SeverityLevel;
  numberOfPatients : Z;
  patientAge : Z;
  signsAndSymptoms : list string;
  levelOfConsciousness : string;
  breathingStatus : string;
  traumaHistory : string;
  knownChronicDiseases : list string;
  painScore : Z;
  ambulanceStatus : AmbulanceStatus;
  assignedHospital : option string
}.

(** [{ ...c, assignedHospital: a }] *)
Definition with_assignedHospital (c : t) (a : option string) : t :=
  mk (id c) (timeOfReport c) (latitude c) (longitude c) (placeName c)
     (callerPhone c) (victimName c) (patients c) (severity c)
     (numberOfPatients c) (patientAge c) (signsAndSymptoms c)
     (levelOfConsciousness c) (breathingStatus c) (traumaHistory c)
     (knownChronicDiseases c) (painScore c) (ambulanceStatus c) a.
End EmergencyCase.

Module BedPool.
Record t := mk { available : Z; total : Z }.
End BedPool.

Module Hospital.
Record t := mk {
  id : string;
  name : string;
  latitude : Q;
  longitude : Q;
  emergencyBeds : BedPool.t;
  icuBeds : BedPool.t;
  pediatricsBeds : BedPool.t;
  labAvailable : Z;
  pharmacyAvailable : Z;
  traumaUnit : bool;
  cardiology : bool;
  pediatrics : bool;
  neurosurgery : bool;
  radiology : bool;
  laboratory : bool;
  pharmacy : bool;
  burnUnit : bool;
  orthopedics : bool;
  ophthalmology : bool
}.
End Hospital.

(** Keys of Hospital that represent medical services. *)
Inductive HospitalServiceKey :=
  | traumaUnit | cardiology | pediatrics | neurosurgery | radiology
  | laboratory | pharmacy | burnUnit | orthopedics | ophthalmology.

#[global] Instance HospitalServiceKey_eq_dec : EqDecision HospitalServiceKey.
Proof. solve_decision. Defined.

Definition key_index (k : HospitalServiceKey) : nat :=
  match k with
  | traumaUnit => 0 | cardiology => 1 | pediatrics => 2 | neurosurgery => 3
  | radiology => 4 | laboratory => 5 | pharmacy => 6 | burnUnit => 7
  | orthopedics => 8 | ophthalmology => 9
  end%nat.

Definition index_key (n : nat) : option HospitalServiceKey :=
  match n with
  | 0 => Some traumaUnit | 1 => Some cardiology | 2 => Some pediatrics
  | 3 => Some neurosurgery | 4 => Some radiology | 5 => Some laboratory
  | 6 => Some pharmacy | 7 => Some burnUnit | 8 => Some orthopedics
  | 9 => Some ophthalmology | _ => None
  end%nat.

#[global] Instance HospitalServiceKey_countable : Countable HospitalServiceKey.
Proof.
  apply (inj_countable key_index index_key). intros k. destruct k; reflexivity.
Defined.

(** [h[k]] for a service key [k]. *)
Definition service (h : Hospital.t) (k : HospitalServiceKey) : bool :=
  match k with
  | traumaUnit => Hospital.traumaUnit h
  | cardiology => Hospital.cardiology h
  | pediatrics => Hospital.pediatrics h
  | neurosurgery => Hospital.neurosurgery h
  | radiology => Hospital.radiology h
  | laboratory => Hospital.laboratory h
  | pharmacy => Hospital.pharmacy h
  | burnUnit => Hospital.burnUnit h
  | orthopedics => Hospital.orthopedics h
  | ophthalmology => Hospital.ophthalmology h
  end.

(** ** [Array.prototype.sort]

    [le0 a b] is the test [compareFn(a, b) <= 0].  The sort is stable: an
    element is placed in front of the first element it does not follow. *)

Section ArraySort.
Context {A : Type} (le0 : A -> A -> bool).

Fixpoint sort_insert (x : A) (l : list A) : list A :=
  match l with
  | [] => [x]
  | y :: l' => if le0 x y then x :: y :: l' else y :: sort_insert x l'
  end.

Fixpoint Array_sort (l : list A) : list A :=
  match l with
  | [] => []
  | x :: l' => sort_insert x (Array_sort l')
  end.

(** [x] and [y] are not told apart by the comparator. *)
Definition tied (x y : A) : bool := le0 x y && le0 y x.

(** The first element satisfying [P] in the sorted list, told from the
    input list alone. *)
Definition first_best (P : A -> bool) (l : list A) (h : A) : Prop :=
  exists l1 l2,
    l = l1 ++ h :: l2 /\ P h = true /\
    (forall x, In x l1 -> P x = true -> le0 x h = false) /\
    (forall x, In x l2 -> P x = true -> le0 h x = true).
End ArraySort.

(** ** JavaScript numbers *)

(** IEEE 754 binary64.  The four operations are those of [SpecFloat] at
    precision 53 and maximal exponent 1024; they round to nearest, ties to
    even.  Comparison is by value: NaN is unordered and the two zeros are
    equal. *)
Module Float64.
Definition t : Type := spec_float.
Definition prec : Z := 53.
Definition emax : Z := 1024.

Definition NaN : t := S754_nan.

(** The number written as the integer [n]. *)
Definition of_Z (n : Z) : t := binary_normalize prec emax n 0 false.

Definition add : t -> t -> t := SFadd prec emax.
Definition sub : t -> t -> t := SFsub prec emax.
Definition mul : t -> t -> t := SFmul prec emax.
Definition div : t -> t -> t := SFdiv prec emax.

(** The number written as the decimal literal [n / d], [d] a power of
    ten: the double nearest to the quotient, which is what the division of
    the two integers returns. *)
Definition literal (n d : Z) : t := div (of_Z n) (of_Z d).

Definition isNaN (x : t) : bool :=
  match x with
  | S754_nan => true
  | _ => false
  end.

(** The rational a finite number stands for. *)
Definition finite_value (x : t) : Q :=
  match x with
  | S754_finite s m e =>
      (if s then inject_Z (Z.neg m) else inject_Z (Z.pos m)) * Qpower 2 e
  | _ => 0
  end.

(** [x < y] *)
Definition ltb (x y : t) : bool :=
  match x, y with
  | S754_nan, _ | _, S754_nan => false
  | S754_infinity sx, S754_infinity sy => sx && negb sy
  | S754_infinity sx, _ => sx
  | _, S754_infinity sy => negb sy
  | _, _ => negb (Qle_bool (finite_value y) (finite_value x))
  end.

(** [x <= y] *)
Definition leb (x y : t) : bool :=
  match x, y with
  | S754_nan, _ | _, S754_nan => false
  | S754_infinity sx, S754_infinity sy => sx || negb sy
  | S754_infinity sx, _ => sx
  | _, S754_infinity sy => negb sy
  | _, _ => Qle_bool (finite_value x) (finite_value y)
  end.

(** [Math.min(a, b)]: NaN if either is NaN; [-0] is less than [+0]. *)
Definition Math_min (a b : t) : t :=
  if isNaN a || isNaN b then NaN
  else if ltb a b then a
  else if ltb b a then b
  else match a with
       | S754_zero true => a
       | _ => b
       end.

(** [Math.max(a, b)]: NaN if either is NaN; [+0] is greater than [-0]. *)
Definition Math_max (a b : t) : t :=
  if isNaN a || isNaN b then NaN
  else if ltb a b then b
  else if ltb b a then a
  else match a with
       | S754_zero false => a
       | _ => b
       end.

(** [Math.round(x)]: the integer nearest to [x], halves towards plus
    infinity; NaN, the infinities and the zeros are returned as they are,
    and a result of zero keeps the sign of [x]. *)
Definition Math_round (x : t) : t :=
  match x with
  | S754_finite s _ _ =>
      let n := Qfloor (finite_value x + (1 # 2)) in
      if n =? 0 then S754_zero s else of_Z n
  | _ => x
  end.
End Float64.

(** ** Occupancy *)

(** Max slots for lab/pharmacy when we only have "available". *)
Definition LAB_PHARMACY_MAX : Float64.t := Float64.of_Z 10.

Definition pool_used (p : BedPool.t) : Float64.t :=
  if 0 <? BedPool.total p
  then Float64.div
         (Float64.sub (Float64.of_Z (BedPool.total p))
                      (Float64.of_Z (BedPool.available p)))
         (Float64.of_Z (BedPool.total p))
  else Float64.of_Z 0.

Definition labUsed (h : Hospital.t) : Float64.t :=
  Float64.Math_min (Float64.of_Z 1)
    (Float64.sub (Float64.of_Z 1)
       (Float64.div (Float64.of_Z (Hospital.labAvailable h)) LAB_PHARMACY_MAX)).

Definition pharmacyUsed (h : Hospital.t) : Float64.t :=
  Float64.Math_min (Float64.of_Z 1)
    (Float64.sub (Float64.of_Z 1)
       (Float64.div (Float64.of_Z (Hospital.pharmacyAvailable h))
                    LAB_PHARMACY_MAX)).

(** [Math.round] on the distances of the engine: nearest integer, halves
    up. *)
Definition Math_round (x : Q) : Z := Qfloor (x + (1 # 2)).

(** The sum is taken from left to right, as the expression is parsed. *)
Definition weighted (h : Hospital.t) : Float64.t :=
  Float64.add
    (Float64.add
       (Float64.add
          (Float64.add
             (Float64.mul (pool_used (Hospital.emergencyBeds h))
                          (Float64.literal 35 100))
             (Float64.mul (pool_used (Hospital.icuBeds h))
                          (Float64.literal 25 100)))
          (Float64.mul (pool_used (Hospital.pediatricsBeds h))
                       (Float64.literal 2 10)))
       (Float64.mul (labUsed h) (Float64.literal 1 10)))
    (Float64.mul (pharmacyUsed h) (Float64.literal 1 10)).

Definition computeOccupancyPercentage (h : Hospital.t) : Float64.t :=
  Float64.Math_round
    (Float64.Math_min (Float64.of_Z 100)
       (Float64.Math_max (Float64.of_Z 0)
          (Float64.mul (weighted h) (Float64.of_Z 100)))).

(** ** Effective service availability *)

(** Fixed order for services (used to decide which become "overloaded" first). *)
Definition SERVICE_KEYS_ORDER : list HospitalServiceKey :=
  [traumaUnit; cardiology; pediatrics; neurosurgery; radiology;
   laboratory; pharmacy; burnUnit; orthopedics; ophthalmology].

Definition offeredCount (h : Hospital.t) : Z :=
  Z.of_nat (length (filter (fun k => service h k = true) SERVICE_KEYS_ORDER)).

Definition numOverloaded (h : Hospital.t) (occupancyPct : Q) : Z :=
  Z.min (offeredCount h)
        (Qfloor (inject_Z (offeredCount h) * occupancyPct / 100)).

Definition isIbnTofail (h : Hospital.t) : bool :=
  String.eqb (Hospital.id h) "h2" || String.eqb (Hospital.name h) "Hôpital Ibn Tofail".

(** One iteration of the loop over [SERVICE_KEYS_ORDER]; the state is
    [(result, overloadedSoFar)]. *)
Definition availability_step (h : Hospital.t) (numOver : Z)
    (st : gmap HospitalServiceKey bool * Z) (k : HospitalServiceKey)
    : gmap HospitalServiceKey bool * Z :=
  let '(result, overloadedSoFar) := st in
  if negb (service h k) then (<[k := false]> result, overloadedSoFar)
  else
    let normallyAvailable := numOver <=? overloadedSoFar in
    let v :=
      if isIbnTofail h &&
         (bool_decide (k = traumaUnit) || bool_decide (k = cardiology))
      then true else normallyAvailable in
    (<[k := v]> result, overloadedSoFar + 1).

Definition getEffectiveServiceAvailability (h : Hospital.t) (occupancyPct : Q)
    : gmap HospitalServiceKey bool :=
  fst (fold_left (availability_step h (numOverloaded h occupancyPct))
                 SERVICE_KEYS_ORDER (∅, 0)).

(** ** The engine *)

Definition severityOrder (s : SeverityLevel) : Z :=
  match s with critical => 0 | severe => 1 | moderate => 2 | mild => 3 end.

(** [Map.prototype.get] and [Map.prototype.set] on a [Map] kept in insertion
    order: setting an existing key keeps its position, a new key goes last. *)
Fixpoint Map_get {V : Type} (m : list (string * V)) (k : string) : option V :=
  match m with
  | [] => None
  | (k', v) :: m' => if String.eqb k' k then Some v else Map_get m' k
  end.

Fixpoint Map_set {V : Type} (m : list (string * V)) (k : string) (v : V)
    : list (string * V) :=
  match m with
  | [] => [(k, v)]
  | (k', v') :: m' =>
      if String.eqb k' k then (k', v) :: m' else (k', v') :: Map_set m' k v
  end.

(** [Set.prototype.add] on a [Set] kept in insertion order. *)
Definition Set_add (out : list HospitalServiceKey) (k : HospitalServiceKey)
    : list HospitalServiceKey :=
  if bool_decide (k ∈ out) then out else out ++ [k].

(** [Math.min(...xs)]; [None] stands for [Infinity], its value on no
    argument. *)
Definition Math_min (xs : list Z) : option Z :=
  match xs with
  | [] => None
  | x :: xs' => Some (fold_left Z.min xs' x)
  end.

Module PlaceGroup.
Record t := mk {
  placeName : string;
  lat : Q;
  lng : Q;
  caseList : list EmergencyCase.t;
  totalVictims : Z;
  requiredServices : list HospitalServiceKey
}.
End PlaceGroup.

Definition byPlace_step (byPlace : list (string * list EmergencyCase.t))
    (c : EmergencyCase.t) : list (string * list EmergencyCase.t) :=
  let list := default [] (Map_get byPlace (EmergencyCase.placeName c)) in
  Map_set byPlace (EmergencyCase.placeName c) (list ++ [c]).

Definition byPlace (cases : list EmergencyCase.t)
    : list (string * list EmergencyCase.t) :=
  fold_left byPlace_step cases [].

(** The comparator of [[...caseList].sort(...)], as the test [<= 0]. *)
Definition severity_le0 (a b : EmergencyCase.t) : bool :=
  severityOrder (EmergencyCase.severity a)
  - severityOrder (EmergencyCase.severity b) <=? 0.

Definition worst (g : PlaceGroup.t) : option Z :=
  Math_min (map (fun c => severityOrder (EmergencyCase.severity c))
                (PlaceGroup.caseList g)).

(** The comparator of [placeGroups.sort(...)].  [Infinity] only meets a
    finite rank in [worstA - worstB], whose sign is then that of the
    infinite side. *)
Definition placeGroups_cmp (a b : PlaceGroup.t) : Z :=
  match worst a, worst b with
  | Some worstA, Some worstB =>
      if negb (worstA =? worstB) then worstA - worstB
      else PlaceGroup.totalVictims b - PlaceGroup.totalVictims a
  | None, Some _ => 1
  | Some _, None => -1
  | None, None => PlaceGroup.totalVictims b - PlaceGroup.totalVictims a
  end.

Definition placeGroups_le0 (a b : PlaceGroup.t) : bool :=
  placeGroups_cmp a b <=? 0.

(** [usedCapacity.get(name) ?? 0] *)
Definition used_of (usedCapacity : gmap string Z) (name : string) : Z :=
  default 0 (usedCapacity !! name).

Definition hasServices (requiredServices : list HospitalServiceKey)
    (h : Hospital.t) : bool :=
  forallb (fun key => service h key) requiredServices.

(** [Math.max(0, h.emergencyBeds.available - used)] *)
Definition available_in (usedCapacity : gmap string Z) (h : Hospital.t) : Z :=
  Z.max 0 (BedPool.available (Hospital.emergencyBeds h)
           - used_of usedCapacity (Hospital.name h)).

(** ** Vocabulary of the specification *)

(** Ledger-adjusted available beds cover [n] victims. *)
Definition has_capacity (usedCapacity : gmap string Z) (n : Z)
    (h : Hospital.t) : Prop :=
  n <= Z.max 0 (BedPool.available (Hospital.emergencyBeds h)
                - used_of usedCapacity (Hospital.name h)).

(** Every required capability is offered. *)
Definition offers_all (required : list HospitalServiceKey)
    (h : Hospital.t) : Prop :=
  forall k, In k required -> service h k = true.

Definition Zsum (l : list Z) : Z := fold_right Z.add 0 l.

(** The cases reported at place [p], in input order. *)
Definition members (p : string) (cases : list EmergencyCase.t)
    : list EmergencyCase.t :=
  List.filter (fun c => String.eqb (EmergencyCase.placeName c) p) cases.

(** The distinct elements of a list, each at its first occurrence. *)
Definition first_occurrences (ks : list string) : list string :=
  fold_left (fun acc k => if bool_decide (k ∈ acc) then acc else acc ++ [k])
            ks [].

(** The sort key of a group: its minimum severity rank and its victims. *)
Definition has_key (m v : Z) (g : PlaceGroup.t) : bool :=
  bool_decide (worst g = Some m) && (PlaceGroup.totalVictims g =? v).

(** [a] may be processed before [b]: lower minimum severity rank, or the
    same rank and at least as many victims. *)
Definition processed_before (a b : PlaceGroup.t) : Prop :=
  exists ma mb, worst a = Some ma /\ worst b = Some mb /\
    (ma < mb \/ (ma = mb /\ PlaceGroup.totalVictims b <= PlaceGroup.totalVictims a)).

(** Victims of the groups among [groups] that [placeToHospital] sends to
    the hospital called [name]. *)
Definition committed (placeToHospital : gmap string string) (name : string)
    (groups : list PlaceGroup.t) : Z :=
  Zsum (map PlaceGroup.totalVictims
          (List.filter
             (fun g => bool_decide
                         (placeToHospital !! PlaceGroup.placeName g = Some name))
             groups)).

(** Two hospital records that differ at most in the total of emergency
    beds, the ICU beds, the pediatric beds, the lab slots and the pharmacy
    slots. *)
Definition same_but_other_pools (h h' : Hospital.t) : Prop :=
  Hospital.id h = Hospital.id h' /\
  Hospital.name h = Hospital.name h' /\
  Hospital.latitude h = Hospital.latitude h' /\
  Hospital.longitude h = Hospital.longitude h' /\
  BedPool.available (Hospital.emergencyBeds h)
    = BedPool.available (Hospital.emergencyBeds h') /\
  (forall k, service h k = service h' k).

(** The rule for effective availability: a capability that is not offered
    is unavailable, and of the offered capabilities, taken in the order of
    [SERVICE_KEYS_ORDER], the first
    [floor(offeredCount * occupancyPct / 100)] are unavailable and the
    others available, but for the [exempt] ones, which are available. *)
Definition overload_rule_but (exempt : HospitalServiceKey -> bool)
    (h : Hospital.t) (occupancyPct : Q) : Prop :=
  let offered := filter (fun k => service h k = true) SERVICE_KEYS_ORDER in
  let overloadedCount :=
    Qfloor (inject_Z (Z.of_nat (length offered)) * occupancyPct / 100) in
  let result := getEffectiveServiceAvailability h occupancyPct in
  (forall k, service h k = false -> result !! k = Some false) /\
  (forall i k, offered !! i = Some k ->
     result !! k =
       Some (exempt k || bool_decide (overloadedCount <= Z.of_nat i))).

(** The rule of the specification: no capability is exempt. *)
Definition overload_rule (h : Hospital.t) (occupancyPct : Q) : Prop :=
  overload_rule_but (fun _ => false) h occupancyPct.

(** The capabilities the code exempts: the trauma unit and cardiology of
    the hospital with id [h2] or named Hôpital Ibn Tofail. *)
Definition always_available (h : Hospital.t) (k : HospitalServiceKey) : bool :=
  isIbnTofail h && (bool_decide (k = traumaUnit) || bool_decide (k = cardiology)).

(** A member list in ascending severity rank with, among equal severities,
    ascending report time.  Report times are ISO-8601 UTC timestamps of one
    format, which the order of strings orders by time. *)
Definition severity_then_time_sorted (l : list EmergencyCase.t) : Prop :=
  StronglySorted
    (fun a b =>
       severityOrder (EmergencyCase.severity a)
         < severityOrder (EmergencyCase.severity b)
       \/ (severityOrder (EmergencyCase.severity a)
             = severityOrder (EmergencyCase.severity b)
           /\ String.leb (EmergencyCase.timeOfReport a)
                         (EmergencyCase.timeOfReport b) = true))
    l.

(** ** Levels, totals and colours *)

Module EmergencyOccupiedLevel.
Inductive t := critical | high | moderate | low.
End EmergencyOccupiedLevel.

(** Derive emergency level from available emergency beds: 0–1 = critical,
    2–3 = high, 4–6 = moderate, 7+ = low. *)
Definition getEmergencyOccupiedLevel (h : Hospital.t)
    : EmergencyOccupiedLevel.t :=
  let n := BedPool.available (Hospital.emergencyBeds h) in
  if n <=? 1 then EmergencyOccupiedLevel.critical
  else if n <=? 3 then EmergencyOccupiedLevel.high
  else if n <=? 6 then EmergencyOccupiedLevel.moderate
  else EmergencyOccupiedLevel.low.

(** Total available capacity (emergency + ICU + pediatrics + lab + pharmacy). *)
Definition getTotalAvailableBeds (h : Hospital.t) : Z :=
  BedPool.available (Hospital.emergencyBeds h) +
  BedPool.available (Hospital.icuBeds h) +
  BedPool.available (Hospital.pediatricsBeds h) +
  Hospital.labAvailable h +
  Hospital.pharmacyAvailable h.

(** Occupied level from occupancy percentage. *)
Definition getOccupiedLevelFromPercentage (occupancyPct : Q)
    : EmergencyOccupiedLevel.t :=
  if Qle_bool 75 occupancyPct then EmergencyOccupiedLevel.critical
  else if Qle_bool 50 occupancyPct then EmergencyOccupiedLevel.high
  else if Qle_bool 25 occupancyPct then EmergencyOccupiedLevel.moderate
  else EmergencyOccupiedLevel.low.

Section Preparedness.
(** [localeCompare a b] is [a.localeCompare(b)]. *)
Variable localeCompare : string -> string -> Z.

(** The comparator of [sortHospitalsByPreparedness]. *)
Definition preparedness_cmp (a b : Hospital.t) : Z :=
  let totalA := getTotalAvailableBeds a in
  let totalB := getTotalAvailableBeds b in
  if negb (totalB =? totalA) then totalB - totalA
  else localeCompare (Hospital.name a) (Hospital.name b).

(** Sort hospitals by most prepared first (most available beds), then by
    name. *)
Definition sortHospitalsByPreparedness (hospitalsList : list Hospital.t)
    : list Hospital.t :=
  Array_sort (fun a b => preparedness_cmp a b <=? 0) hospitalsList.
End Preparedness.

(** lib/dangerColors.ts *)
Inductive DangerColorKey := red | orange | yellow | green.

Definition getDangerColor (totalVictims : Z) : DangerColorKey :=
  if 9 <=? totalVictims then red
  else if 6 <=? totalVictims then orange
  else if 3 <=? totalVictims then yellow
  else green.

Definition sortCasesBySeverity (cases : list EmergencyCase.t)
    : list EmergencyCase.t :=
  Array_sort severity_le0 cases.

(** ** Severity by place *)

#[global] Instance SeverityLevel_eq_dec : EqDecision SeverityLevel.
Proof. solve_decision. Defined.

Module PlaceSeverity.
Record t := mk {
  placeName : string;
  latitude : Q;
  longitude : Q;
  totalActiveCases : Z;
  critical : Z;
  severe : Z;
  moderate : Z;
  mild : Z;
  avgResponseTimeMinutes : Z;
  isAlertZone : bool
}.
End PlaceSeverity.

(** [caseList.filter(c => c.severity === s).length] *)
Definition count_severity (s : SeverityLevel) (caseList : list EmergencyCase.t)
    : Z :=
  Z.of_nat (length (List.filter
                      (fun c => bool_decide (EmergencyCase.severity c = s))
                      caseList)).

(** One entry of [computePlaceSeverities]; [random] is the value
    [Math.random()] returns for it. *)
Definition makePlaceSeverity (random : Q)
    (entry : string * list EmergencyCase.t) : PlaceSeverity.t :=
  let '(placeName, caseList) := entry in
  let critical := count_severity critical caseList in
  let severe := count_severity severe caseList in
  let moderate := count_severity moderate caseList in
  let mild := count_severity mild caseList in
  let total := Z.of_nat (length caseList) in
  let avgResponse := 4 + Qfloor (random * 15) in
  let isAlert :=
    negb (Qle_bool (inject_Z critical / inject_Z (Z.max total 1)) (3 # 10))
    || negb (total <=? 4) in
  let lat :=
    (fold_left (fun s c => s + EmergencyCase.latitude c) caseList 0
     / inject_Z total)%Q in
  let lng :=
    (fold_left (fun s c => s + EmergencyCase.longitude c) caseList 0
     / inject_Z total)%Q in
  PlaceSeverity.mk placeName lat lng total critical severe moderate mild
    avgResponse isAlert.

(** [Math_random i] is the value of the call of [Math.random()] made for
    the entry of index [i]. *)
Definition computePlaceSeverities (Math_random : nat -> Q)
    (cases : list EmergencyCase.t) : list PlaceSeverity.t :=
  imap (fun i entry => makePlaceSeverity (Math_random i) entry) (byPlace cases).

(** The comparator of the sort of the severity page
    (pages/SeverityDistribution.tsx); [a || b] on numbers is [a] unless it
    is zero. *)
Definition placeSeverity_cmp (a b : PlaceSeverity.t) : Z :=
  if PlaceSeverity.isAlertZone a && negb (PlaceSeverity.isAlertZone b) then -1
  else if negb (PlaceSeverity.isAlertZone a) && PlaceSeverity.isAlertZone b then 1
  else
    let d1 := PlaceSeverity.critical b - PlaceSeverity.critical a in
    if negb (d1 =? 0) then d1
    else
      let d2 := PlaceSeverity.severe b - PlaceSeverity.severe a in
      if negb (d2 =? 0) then d2
      else PlaceSeverity.totalActiveCases b - PlaceSeverity.totalActiveCases a.

Definition sortPlaceSeverities (placeSeverities : list PlaceSeverity.t)
    : list PlaceSeverity.t :=
  Array_sort (fun a b => placeSeverity_cmp a b <=? 0) placeSeverities.

(** ** Merging cases by id (hooks/useLiveCases) *)

(** [new Map(cases.map(c => [c.id, c]))], then [byId.set(c.id, c)] for the
    further cases. *)
Definition byId (cases : list EmergencyCase.t)
    : list (string * EmergencyCase.t) :=
  fold_left (fun m c => Map_set m (EmergencyCase.id c) c) cases [].

(** Merge demo cases with API cases by id; real cases override or get
    added. *)
Definition mergeWithDemoCases (DEMO_CASES apiCases : list EmergencyCase.t)
    : list EmergencyCase.t :=
  sortCasesBySeverity (map snd (byId (DEMO_CASES ++ apiCases))).

(** The state update of the event subscription: add or update a case. *)
Definition upsertCase (prev : list EmergencyCase.t) (newCase : EmergencyCase.t)
    : list EmergencyCase.t :=
  sortCasesBySeverity (map snd (byId (prev ++ [newCase]))).

(** ** Vocabulary for the levels *)

(** How urgent a level is. *)
Definition urgency (l : EmergencyOccupiedLevel.t) : Z :=
  match l with
  | EmergencyOccupiedLevel.low => 0
  | EmergencyOccupiedLevel.moderate => 1
  | EmergencyOccupiedLevel.high => 2
  | EmergencyOccupiedLevel.critical => 3
  end.

Definition danger (c : DangerColorKey) : Z :=
  match c with green => 0 | yellow => 1 | orange => 2 | red => 3 end.

(** ** The map view and the case card *)

(** [a < b] on numbers. *)
Definition Qlt_bool (a b : Q) : bool := negb (Qle_bool b a).

(** The pattern that makes a case require a service; radiology, laboratory
    and pharmacy have none. *)
Definition service_pattern (k : HospitalServiceKey) : option string :=
  match k with
  | cardiology => Some "\b(cardiac|heart|pulse|arrest|chest)\b"
  | traumaUnit =>
      Some "\b(bleeding|trauma|unconscious|severe\s+injury|hemorrhage)\b"
  | orthopedics => Some "\b(fracture|bone|ortho|broken)\b"
  | pediatrics => Some "\b(child|pediatric|baby|infant)\b"
  | neurosurgery => Some "\b(brain|neuro|stroke|head\s+injury|coma)\b"
  | burnUnit => Some "\b(burn)\b"
  | ophthalmology => Some "\b(eye|ophthal|vision)\b"
  | radiology | laboratory | pharmacy => None
  end%string.

(** The place groups of the map view: the cases of a place in input order,
    without required services. *)
Module MapPlaceGroup.
Record t := mk {
  placeName : string;
  lat : Q;
  lng : Q;
  cases : list EmergencyCase.t;
  totalVictims : Z
}.
End MapPlaceGroup.

Definition makeMapPlaceGroup (entry : string * list EmergencyCase.t)
    : MapPlaceGroup.t :=
  let '(placeName, caseList) := entry in
  let totalVictims :=
    fold_left (fun sum c => sum + EmergencyCase.numberOfPatients c) caseList 0 in
  let lat :=
    (fold_left (fun s c => s + EmergencyCase.latitude c) caseList 0
     / inject_Z (Z.of_nat (length caseList)))%Q in
  let lng :=
    (fold_left (fun s c => s + EmergencyCase.longitude c) caseList 0
     / inject_Z (Z.of_nat (length caseList)))%Q in
  MapPlaceGroup.mk placeName lat lng caseList totalVictims.

Definition groupCasesByPlace (cases : list EmergencyCase.t)
    : list MapPlaceGroup.t :=
  map makeMapPlaceGroup (byPlace cases).

(** [group.cases.reduce((worst, c) => severityOrder[c.severity] <
    severityOrder[worst] ? c.severity : worst, "mild")] *)
Definition worstSeverity (cases : list EmergencyCase.t) : SeverityLevel :=
  fold_left
    (fun worst c =>
       if severityOrder (EmergencyCase.severity c) <? severityOrder worst
       then EmergencyCase.severity c else worst)
    cases mild.

(** [g.cases.some(c => c.assignedHospital === hospital.name)] *)
Definition assignsTo (hospital : Hospital.t) (g : MapPlaceGroup.t) : bool :=
  existsb (fun c => bool_decide (EmergencyCase.assignedHospital c
                                 = Some (Hospital.name hospital)))
          (MapPlaceGroup.cases g).

(** The first loop of [getHospitalColor]. *)
Definition maxVictims_loop (hospital : Hospital.t)
    (placeGroups : list MapPlaceGroup.t) : Z :=
  fold_left
    (fun maxVictims g =>
       if assignsTo hospital g && (maxVictims <? MapPlaceGroup.totalVictims g)
       then MapPlaceGroup.totalVictims g else maxVictims)
    placeGroups 0.

(** The hospital of a case as the case card and the map look it up:
    [c.assignedHospital ? hospitals.find(h => h.name === c.assignedHospital)
    : null]; the empty string is falsy. *)
Definition lookupAssignedHospital (hospitals : list Hospital.t)
    (c : EmergencyCase.t) : option Hospital.t :=
  match EmergencyCase.assignedHospital c with
  | Some name =>
      if String.eqb name "" then None
      else find (fun h => String.eqb (Hospital.name h) name) hospitals
  | None => None
  end.

(** The victims committed in a ledger, over all hospitals. *)
Definition ledger_total (usedCapacity : gmap string Z) : Z :=
  Zsum (map snd (map_to_list usedCapacity)).

(** No hospital of the list is committed beyond its available emergency
    beds. *)
Definition within_capacity (hospitals : list Hospital.t)
    (usedCapacity : gmap string Z) : Prop :=
  forall h, In h hospitals ->
    used_of usedCapacity (Hospital.name h)
    <= Z.max 0 (BedPool.available (Hospital.emergencyBeds h)).

(** ** The box of the most critical hospitals (components/CriticalCasesBox) *)

Module HospitalCriticalSummary.
Record t := mk {
  hospital : Hospital.t;
  criticalCount : Z;
  totalVictims : Z;
  dangerVictims : Z;
  worstCase : EmergencyCase.t;
  grade : SeverityLevel
}.
End HospitalCriticalSummary.

(** One iteration of the loop that fills [byHospital]; a null or empty
    [assignedHospital] is skipped. *)
Definition byHospital_step (byHospital : list (string * list EmergencyCase.t))
    (c : EmergencyCase.t) : list (string * list EmergencyCase.t) :=
  match EmergencyCase.assignedHospital c with
  | Some name =>
      if String.eqb name "" then byHospital
      else
        let list := default [] (Map_get byHospital name) in
        Map_set byHospital name (list ++ [c])
  | None => byHospital
  end.

Definition byHospital (cases : list EmergencyCase.t)
    : list (string * list EmergencyCase.t) :=
  fold_left byHospital_step cases [].

(** Region victim counts. *)
Definition victimsByPlace (cases : list EmergencyCase.t) : gmap string Z :=
  fold_left
    (fun (m : gmap string Z) c =>
       let v := default 0 (m !! EmergencyCase.placeName c) in
       <[EmergencyCase.placeName c := v + EmergencyCase.numberOfPatients c]> m)
    cases ∅.

Section CriticalCases.
(** [Date_getTime iso] is [new Date(iso).getTime()]. *)
Variable Date_getTime : string -> Z.

(** The comparator that picks the worst case of a hospital; [a || b] on
    numbers is [a] unless it is zero. *)
Definition worstCase_cmp (a b : EmergencyCase.t) : Z :=
  let d := severityOrder (EmergencyCase.severity a)
           - severityOrder (EmergencyCase.severity b) in
  if negb (d =? 0) then d
  else Date_getTime (EmergencyCase.timeOfReport a)
       - Date_getTime (EmergencyCase.timeOfReport b).

(** The summary of one hospital, [null] when no case is assigned to it.
    The sorted list has the length of [hospitalCases], so its first element
    exists where the code reads it. *)
Definition summarize (cases : list EmergencyCase.t) (hospital : Hospital.t)
    : option HospitalCriticalSummary.t :=
  let hospitalCases :=
    default [] (Map_get (byHospital cases) (Hospital.name hospital)) in
  let criticalCases :=
    List.filter (fun c => bool_decide (EmergencyCase.severity c = critical))
                hospitalCases in
  let totalVictims :=
    fold_left (fun sum c => sum + EmergencyCase.numberOfPatients c)
              hospitalCases 0 in
  let maxRegionVictims :=
    fold_left Z.max
      (map (fun c => default 0 (victimsByPlace cases !! EmergencyCase.placeName c))
           hospitalCases) 0 in
  let dangerVictims :=
    if 0 <? maxRegionVictims then maxRegionVictims else totalVictims in
  if Z.of_nat (length hospitalCases) =? 0 then None
  else
    match Array_sort (fun a b => worstCase_cmp a b <=? 0) hospitalCases with
    | worstCase :: _ =>
        Some (HospitalCriticalSummary.mk hospital
                (Z.of_nat (length criticalCases)) totalVictims dangerVictims
                worstCase (EmergencyCase.severity worstCase))
    | [] => None
    end.

(** The comparator of [summaries.sort(...)]. *)
Definition summaries_cmp (a b : HospitalCriticalSummary.t) : Z :=
  let d1 := HospitalCriticalSummary.criticalCount b
            - HospitalCriticalSummary.criticalCount a in
  if negb (d1 =? 0) then d1
  else
    let d2 := HospitalCriticalSummary.dangerVictims b
              - HospitalCriticalSummary.dangerVictims a in
    if negb (d2 =? 0) then d2
    else
      let d3 := severityOrder (HospitalCriticalSummary.grade a)
                - severityOrder (HospitalCriticalSummary.grade b) in
      if negb (d3 =? 0) then d3
      else
        Date_getTime (EmergencyCase.timeOfReport
                        (HospitalCriticalSummary.worstCase a))
        - Date_getTime (EmergencyCase.timeOfReport
                          (HospitalCriticalSummary.worstCase b)).

(** [summaries.slice(0, 5)] after the sort. *)
Definition topHospitals (cases : list EmergencyCase.t)
    (hospitals : list Hospital.t) : list HospitalCriticalSummary.t :=
  let summaries :=
    omap (fun hospital => summarize cases hospital) hospitals in
  take 5 (Array_sort (fun a b => summaries_cmp a b <=? 0) summaries).
End CriticalCases.

(** The cases assigned to the hospital called [name], in input order. *)
Definition assigned_to (name : string) (cases : list EmergencyCase.t)
    : list EmergencyCase.t :=
  List.filter
    (fun c => bool_decide (EmergencyCase.assignedHospital c = Some name)) cases.

(** ** Data of the source and inputs for the examples *)

Module Data.
(** Hospitals (static — real Morocco hospitals). *)
Definition h1 : Hospital.t :=
  Hospital.mk "h1" "CHU Mohammed VI" 31.6340 (-8.0150)
    (BedPool.mk 3 30) (BedPool.mk 1 12) (BedPool.mk 2 8) 4 2
    true true true true true true true true true true.
Definition h2 : Hospital.t :=
  Hospital.mk "h2" "Hôpital Ibn Tofail" 31.6280 (-7.9920)
    (BedPool.mk 8 25) (BedPool.mk 3 8) (BedPool.mk 4 10) 3 2
    true true true false true true true false true false.
Definition h3 : Hospital.t :=
  Hospital.mk "h3" "Clinique Al Farabi" 31.6400 (-8.0050)
    (BedPool.mk 5 15) (BedPool.mk 2 5) (BedPool.mk 0 0) 2 1
    false true false false true true true false false true.
Definition h4 : Hospital.t :=
  Hospital.mk "h4" "Hôpital Régional Essaouira" 31.5100 (-9.7600)
    (BedPool.mk 10 20) (BedPool.mk 4 6) (BedPool.mk 6 12) 5 3
    true false true false true true true false true false.
Definition h5 : Hospital.t :=
  Hospital.mk "h5" "Hôpital Provincial Chichaoua" 31.5340 (-8.7660)
    (BedPool.mk 12 18) (BedPool.mk 5 5) (BedPool.mk 5 8) 4 2
    false false true false false true true false false false.
Definition h6 : Hospital.t :=
  Hospital.mk "h6" "Clinique Yasmine" 31.6380 (-7.9950)
    (BedPool.mk 1 10) (BedPool.mk 0 3) (BedPool.mk 0 0) 0 1
    false true false false true false true false false false.

Definition hospitals : list Hospital.t := [h1; h2; h3; h4; h5; h6].
End Data.

Module Examples.
(** Rational stand-ins for the runtime primitives, to run the engine on
    examples.  With them [haversineKm] is proportional to the squared
    planar distance between the two points. *)
Definition PI : Q := 3.
Definition sin (x : Q) : Q := x.
Definition cos (x : Q) : Q := 1.
Definition sqrt (x : Q) : Q := x.
Definition atan2 (y x : Q) : Q := y.

(** ASCII letters to lower case. *)
Definition lower_ascii (c : Ascii.ascii) : Ascii.ascii :=
  let n := Ascii.nat_of_ascii c in
  if (65 <=? n)%nat && (n <=? 90)%nat then Ascii.ascii_of_nat (n + 32) else c.

Fixpoint toLowerCase (s : string) : string :=
  match s with
  | EmptyString => EmptyString
  | String c s' => String (lower_ascii c) (toLowerCase s')
  end.

(** The alternatives between the parentheses of a pattern
    [\b(w1|w2|...)\b]; 40, 41 and 124 are the codes of the two
    parentheses and of the bar. *)
Fixpoint alternatives (s : string) (cur : string) (inside : bool)
    : list string :=
  match s with
  | EmptyString => []
  | String c s' =>
      if Ascii.eqb c (Ascii.ascii_of_nat 40) then alternatives s' EmptyString true
      else if Ascii.eqb c (Ascii.ascii_of_nat 41) then [cur]
      else if Ascii.eqb c (Ascii.ascii_of_nat 124) then cur :: alternatives s' EmptyString inside
      else if inside then alternatives s' (cur ++ String c EmptyString) inside
      else alternatives s' cur inside
  end.

Fixpoint occurs_in (w : string) (text : string) : bool :=
  String.prefix w text ||
  match text with
  | EmptyString => false
  | String _ text' => occurs_in w text'
  end.

(** Stand-in for the regular-expression test: one of the alternatives
    occurs in the text. *)
Definition RegExp_test (source text : string) : bool :=
  existsb (fun w => occurs_in w text) (alternatives source EmptyString false).

Definition patient (severity : SeverityLevel) (symptoms : list string)
    : Patient.t :=
  Patient.mk 34 symptoms severity "Alert" "Normal" "Trauma" [] 5.

Definition report (id timeOfReport placeName : string) (lat lng : Q)
    (severity : SeverityLevel) (numberOfPatients : Z)
    (symptoms : list string) : EmergencyCase.t :=
  EmergencyCase.mk id timeOfReport lat lng placeName "+212 6XX XXX XXX" None
    [patient severity symptoms] severity numberOfPatients 34 symptoms
    "Alert" "Normal" "Trauma" [] 5 pending None.

(** Two reports from the same place with the same severity; the second
    in the list was reported thirty minutes before the first. *)
Definition late : EmergencyCase.t :=
  report "CASE-LATE" "2024-05-01T10:30:00.000Z" "Hivernage"
    31.6295 (-7.9811) mild 1 ["Minor cut"].
Definition early : EmergencyCase.t :=
  report "CASE-EARLY" "2024-05-01T10:00:00.000Z" "Hivernage"
    31.6295 (-7.9811) mild 1 ["Stable"].

Definition cases : list EmergencyCase.t :=
  [ report "CASE-1" "2024-05-01T09:00:00.000Z" "Rue Mohammed V, Marrakech"
      31.6300 (-8.0000) critical 2 ["Cardiac arrest"; "No pulse"];
    late;
    report "CASE-2" "2024-05-01T09:20:00.000Z" "Place Jemaa el-Fna"
      31.6258 (-7.9891) critical 9 ["Severe bleeding"; "Unconscious"];
    early;
    report "CASE-3" "2024-05-01T09:40:00.000Z" "Rue Mohammed V, Marrakech"
      31.6310 (-8.0010) severe 1 ["Fracture"] ].

(** A hospital whose lab reports more free slots than the assumed
    maximum. *)
Definition lab15 : Hospital.t :=
  Hospital.mk "h7" "Clinique du Sud" 31.6000 (-8.0000)
    (BedPool.mk 0 10) (BedPool.mk 0 4) (BedPool.mk 0 4) 15 0
    false true false false true true true false false false.

(** A hospital with other numbers in the pools that are not emergency
    beds available. *)
Definition with_other_pools (h : Hospital.t) : Hospital.t :=
  Hospital.mk (Hospital.id h) (Hospital.name h)
    (Hospital.latitude h) (Hospital.longitude h)
    (BedPool.mk (BedPool.available (Hospital.emergencyBeds h)) 99)
    (BedPool.mk 40 40) (BedPool.mk 0 1) 0 25
    (Hospital.traumaUnit h) (Hospital.cardiology h) (Hospital.pediatrics h)
    (Hospital.neurosurgery h) (Hospital.radiology h) (Hospital.laboratory h)
    (Hospital.pharmacy h) (Hospital.burnUnit h) (Hospital.orthopedics h)
    (Hospital.ophthalmology h).

Definition hospitals_other_pools : list Hospital.t :=
  map with_other_pools Data.hospitals.

(** The hospitals of the source with eight instead of ten free emergency
    beds in Essaouira. *)
Definition hospitals_fewer_beds : list Hospital.t :=
  [ Data.h1; Data.h2; Data.h3;
    Hospital.mk "h4" "Hôpital Régional Essaouira" 31.5100 (-9.7600)
      (BedPool.mk 8 20) (BedPool.mk 4 6) (BedPool.mk 6 12) 5 3
      true false true false true true true false true false;
    Data.h5; Data.h6 ].

(** The two scenarios of the specification: [A] is nearer to the group than
    [B]; [A] has two free emergency beds and no cardiology, [A_full] none
    at all; [B] has ten (five for [B_five]) and cardiology. *)
Definition A : Hospital.t :=
  Hospital.mk "a" "A" 31.6400 (-8.0000)
    (BedPool.mk 2 10) (BedPool.mk 1 4) (BedPool.mk 1 4) 5 5
    true false true false true true true false true false.
Definition A_full : Hospital.t :=
  Hospital.mk "a" "A" 31.6400 (-8.0000)
    (BedPool.mk 0 10) (BedPool.mk 1 4) (BedPool.mk 1 4) 5 5
    true false true false true true true false true false.
Definition B : Hospital.t :=
  Hospital.mk "b" "B" 31.7000 (-8.0000)
    (BedPool.mk 10 20) (BedPool.mk 1 4) (BedPool.mk 1 4) 5 5
    true true true false true true true false true false.
Definition B_five : Hospital.t :=
  Hospital.mk "b" "B" 31.7000 (-8.0000)
    (BedPool.mk 5 20) (BedPool.mk 1 4) (BedPool.mk 1 4) 5 5
    true true true false true true true false true false.
Definition cardiac_group : PlaceGroup.t :=
  PlaceGroup.mk "Hivernage" 31.6300 (-8.0000) [] 3 [cardiology].
Definition single_victim : PlaceGroup.t :=
  PlaceGroup.mk "Hivernage" 31.6300 (-8.0000) [] 1 [].

(** Stand-in for [String.prototype.localeCompare]: the order of the
    character codes. *)
Definition localeCompare (a b : string) : Z :=
  match String.compare a b with
  | Lt => -1
  | Eq => 0
  | Gt => 1
  end.

(** Stand-in for [Math.random]. *)
Definition Math_random (_ : nat) : Q := 1 # 2.

(** Five victims in three places. *)
Definition small_wave : list EmergencyCase.t :=
  [ report "CASE-1" "2024-05-01T09:00:00.000Z" "Rue Mohammed V, Marrakech"
      31.6300 (-8.0000) critical 2 ["Cardiac arrest"; "No pulse"];
    late;
    report "CASE-4" "2024-05-01T09:25:00.000Z" "Place Jemaa el-Fna"
      31.6258 (-7.9891) severe 1 ["Fracture"];
    early ].
End Examples.

Section Engine.
(** Runtime primitives. *)
Variable Math_PI : Q.
Variables Math_sin Math_cos Math_sqrt : Q -> Q.
Variable Math_atan2 : Q -> Q -> Q.
(** [RegExp_test source text] is [new RegExp(source).test(text)]. *)
Variable RegExp_test : string -> string -> bool.
Variable toLowerCase : string -> string.

Local Set Default Proof Using "Type".

(** Forget the runtime primitives a goal does not mention, so that
    automation does not make a proof depend on them. *)
Ltac forget_runtime :=
  try clear toLowerCase; try clear RegExp_test; try clear Math_atan2;
  try clear Math_sqrt; try clear Math_cos; try clear Math_sin;
  try clear Math_PI.

(** Haversine distance in km between two lat/lng points (lib/geo.ts). *)
Definition haversineKm (lat1 lng1 lat2 lng2 : Q) : Q :=
  (let R := 6371 in
   let dLat := ((lat2 - lat1) * Math_PI) / 180 in
   let dLng := ((lng2 - lng1) * Math_PI) / 180 in
   let a :=
     Math_sin (dLat / 2) * Math_sin (dLat / 2) +
     Math_cos ((lat1 * Math_PI) / 180) *
       Math_cos ((lat2 * Math_PI) / 180) *
       Math_sin (dLng / 2) *
       Math_sin (dLng / 2) in
   let c := 2 * Math_atan2 (Math_sqrt a) (Math_sqrt (1 - a)) in
   R * c)%Q.

(** Infer required hospital services from case symptoms. *)
Definition getRequiredServicesForCase (c : EmergencyCase.t)
    : list HospitalServiceKey :=
  let text :=
    toLowerCase
      (String.concat " "
         (EmergencyCase.signsAndSymptoms c
          ++ [EmergencyCase.traumaHistory c]
          ++ EmergencyCase.knownChronicDiseases c
          ++ flat_map (fun p => Patient.signsAndSymptoms p
                                ++ [Patient.traumaHistory p])
                      (EmergencyCase.patients c))) in
  let add (source : string) (k : HospitalServiceKey) out :=
    if RegExp_test source text then Set_add out k else out in
  add "\b(eye|ophthal|vision)\b" ophthalmology
  (add "\b(burn)\b" burnUnit
  (add "\b(brain|neuro|stroke|head\s+injury|coma)\b" neurosurgery
  (add "\b(child|pediatric|baby|infant)\b" pediatrics
  (add "\b(fracture|bone|ortho|broken)\b" orthopedics
  (add "\b(bleeding|trauma|unconscious|severe\s+injury|hemorrhage)\b" traumaUnit
  (add "\b(cardiac|heart|pulse|arrest|chest)\b" cardiology []))))))%string.

(** The comparator of [[...hospitals].sort(...)], as the test [<= 0]. *)
Definition byDist_le0 (lat lng : Q) (a b : Hospital.t) : bool :=
  Qle_bool
    (haversineKm lat lng (Hospital.latitude a) (Hospital.longitude a)
     - haversineKm lat lng (Hospital.latitude b) (Hospital.longitude b))%Q 0.

Definition byDist (lat lng : Q) (hospitals : list Hospital.t)
    : list Hospital.t :=
  Array_sort (byDist_le0 lat lng) hospitals.

(** Nearest hospital that has required beds and required service keys. *)
Definition findNearestHospitalWithCapacityAndServices (lat lng : Q)
    (hospitals : list Hospital.t) (usedCapacity : gmap string Z)
    (requiredBeds : Z) (requiredServices : list HospitalServiceKey)
    : option Hospital.t :=
  let byDist := byDist lat lng hospitals in
  match find (fun h => (requiredBeds <=? available_in usedCapacity h)
                       && hasServices requiredServices h) byDist with
  | Some h => Some h
  | None =>
  match find (fun h => requiredBeds <=? available_in usedCapacity h) byDist with
  | Some h => Some h
  | None =>
  match find (fun h => hasServices requiredServices h) byDist with
  | Some h => Some h
  | None => head byDist
  end end end.

(** Next-best hospital when the assigned one is full. *)
Definition findBackupHospital (lat lng : Q) (hospitals : list Hospital.t)
    (excludeHospitalName : option string) (requiredBeds : Z)
    (requiredServices : list HospitalServiceKey) : option Hospital.t :=
  let byDist := byDist lat lng hospitals in
  find (fun h =>
          negb (bool_decide (Some (Hospital.name h) = excludeHospitalName))
          && ((requiredBeds <=? BedPool.available (Hospital.emergencyBeds h))
              && hasServices requiredServices h)) byDist.

Definition makePlaceGroup (entry : string * list EmergencyCase.t)
    : PlaceGroup.t :=
  let '(placeName, caseList) := entry in
  let lat :=
    (fold_left (fun s c => s + EmergencyCase.latitude c) caseList 0
     / inject_Z (Z.of_nat (length caseList)))%Q in
  let lng :=
    (fold_left (fun s c => s + EmergencyCase.longitude c) caseList 0
     / inject_Z (Z.of_nat (length caseList)))%Q in
  let totalVictims :=
    fold_left (fun s c => s + EmergencyCase.numberOfPatients c) caseList 0 in
  let allServices :=
    fold_left (fun out c => fold_left Set_add (getRequiredServicesForCase c) out)
              caseList [] in
  let sorted := Array_sort severity_le0 caseList in
  PlaceGroup.mk placeName lat lng sorted totalVictims allServices.

(** [placeGroups] after [placeGroups.sort(...)]: the order in which the
    pass processes the groups. *)
Definition placeGroups (cases : list EmergencyCase.t) : list PlaceGroup.t :=
  Array_sort placeGroups_le0 (map makePlaceGroup (byPlace cases)).

(** One iteration of [for (const g of placeGroups)]; the state is
    [(usedCapacity, placeToHospital)]. *)
Definition assign_step (hospitals : list Hospital.t)
    (st : gmap string Z * gmap string string) (g : PlaceGroup.t)
    : gmap string Z * gmap string string :=
  let '(usedCapacity, placeToHospital) := st in
  match findNearestHospitalWithCapacityAndServices
          (PlaceGroup.lat g) (PlaceGroup.lng g) hospitals usedCapacity
          (PlaceGroup.totalVictims g) (PlaceGroup.requiredServices g) with
  | Some assigned =>
      let used := used_of usedCapacity (Hospital.name assigned) in
      (<[Hospital.name assigned := used + PlaceGroup.totalVictims g]> usedCapacity,
       <[PlaceGroup.placeName g := Hospital.name assigned]> placeToHospital)
  | None => st
  end.

(** The loop of the pass from the fresh maps. *)
Definition assign_loop (hospitals : list Hospital.t) (groups : list PlaceGroup.t)
    : gmap string Z * gmap string string :=
  fold_left (assign_step hospitals) groups (∅, ∅).

(** Group cases by place and assign each group to nearest hospital with
    capacity and required services. *)
Definition assignCasesToHospitals (cases : list EmergencyCase.t)
    (hospitals : list Hospital.t) : list EmergencyCase.t :=
  if (Z.of_nat (length hospitals) =? 0)
  then map (fun c => EmergencyCase.with_assignedHospital c None) cases
  else
    let '(usedCapacity, placeToHospital) :=
      assign_loop hospitals (placeGroups cases) in
    map (fun c => EmergencyCase.with_assignedHospital c
                    (placeToHospital !! EmergencyCase.placeName c)) cases.

(** *** The ledger as an object of the heap

    [heap] holds the [Map<string, number>] objects that are alive when the
    pass is invoked (the ledgers of earlier or interrupted passes among
    them); [new Map()] allocates at an address that is not in use. *)

Definition new_Map (heap : gmap nat (gmap string Z)) : nat :=
  fresh (dom heap).

Definition assign_step_in (hospitals : list Hospital.t) (usedCapacity : nat)
    (st : gmap nat (gmap string Z) * gmap string string) (g : PlaceGroup.t)
    : gmap nat (gmap string Z) * gmap string string :=
  let '(heap, placeToHospital) := st in
  let ledger := default ∅ (heap !! usedCapacity) in
  match findNearestHospitalWithCapacityAndServices
          (PlaceGroup.lat g) (PlaceGroup.lng g) hospitals ledger
          (PlaceGroup.totalVictims g) (PlaceGroup.requiredServices g) with
  | Some assigned =>
      let used := used_of ledger (Hospital.name assigned) in
      (<[usedCapacity :=
           <[Hospital.name assigned := used + PlaceGroup.totalVictims g]> ledger]> heap,
       <[PlaceGroup.placeName g := Hospital.name assigned]> placeToHospital)
  | None => st
  end.

Definition assignCasesToHospitals_in (heap : gmap nat (gmap string Z))
    (cases : list EmergencyCase.t) (hospitals : list Hospital.t)
    : list EmergencyCase.t * gmap nat (gmap string Z) :=
  if (Z.of_nat (length hospitals) =? 0)
  then (map (fun c => EmergencyCase.with_assignedHospital c None) cases, heap)
  else
    let usedCapacity := new_Map heap in
    let '(heap', placeToHospital) :=
      fold_left (assign_step_in hospitals usedCapacity) (placeGroups cases)
                (<[usedCapacity := ∅]> heap, ∅) in
    (map (fun c => EmergencyCase.with_assignedHospital c
                     (placeToHospital !! EmergencyCase.placeName c)) cases,
     heap').

(** *** Vocabulary of the specification *)

(** Distance of a hospital from a point. *)
Definition dist (lat lng : Q) (h : Hospital.t) : Q :=
  haversineKm lat lng (Hospital.latitude h) (Hospital.longitude h).

(** [h] is the first hospital satisfying [P] in the ranking of [hospitals]
    by distance from [(lat, lng)] ascending, ties in input order: [h]
    satisfies [P], every hospital satisfying [P] that comes earlier in the
    input is strictly farther, and none that comes later is nearer. *)
Definition nearest_satisfying (lat lng : Q) (P : Hospital.t -> Prop)
    (hospitals : list Hospital.t) (h : Hospital.t) : Prop :=
  ∃ l1 l2,
    hospitals = l1 ++ h :: l2 ∧ P h ∧
    (∀ x, In x l1 → P x → (dist lat lng h < dist lat lng x)%Q) ∧
    (∀ x, In x l2 → P x → (dist lat lng h <= dist lat lng x)%Q).

Definition none_satisfying (P : Hospital.t -> Prop)
    (hospitals : list Hospital.t) : Prop :=
  forall x, In x hospitals -> ~ P x.

(** *** The map view and the arrival estimate *)

(** Average ambulance speed (km/h) for urban/suburban roads. *)
Definition AMBULANCE_SPEED_KMH : Q := 45.

(** Estimated minutes for ambulance to travel from victim to hospital. *)
Definition estimateAmbulanceEtaMinutes
    (victimLat victimLng hospitalLat hospitalLng : Q) : Z :=
  let km := haversineKm victimLat victimLng hospitalLat hospitalLng in
  let hours := (km / AMBULANCE_SPEED_KMH)%Q in
  Z.max 1 (Math_round (hours * 60)).

(** The loop of [findNearestHospital] of the map view, whose copy of
    [haversineKm] is that of lib/geo.ts. *)
Fixpoint findNearestHospital_loop (lat lng : Q) (rest : list Hospital.t)
    (nearest : Hospital.t) (minDist : Q) : Hospital.t :=
  match rest with
  | [] => nearest
  | h :: rest' =>
      let d := haversineKm lat lng (Hospital.latitude h) (Hospital.longitude h) in
      if Qlt_bool d minDist then findNearestHospital_loop lat lng rest' h d
      else findNearestHospital_loop lat lng rest' nearest minDist
  end.

Definition findNearestHospital (lat lng : Q) (hospitals : list Hospital.t)
    : option Hospital.t :=
  match hospitals with
  | [] => None
  | nearest :: rest =>
      Some (findNearestHospital_loop lat lng rest nearest
              (haversineKm lat lng (Hospital.latitude nearest)
                 (Hospital.longitude nearest)))
  end.

(** The second loop of [getHospitalColor]; [None] is [null] for the group
    and [Infinity] for the distance. *)
Definition nearestGroup_loop (hospital : Hospital.t)
    (placeGroups : list MapPlaceGroup.t)
    : option MapPlaceGroup.t * option Q :=
  fold_left
    (fun '(nearestGroup, minDist) g =>
       let d := haversineKm (Hospital.latitude hospital)
                  (Hospital.longitude hospital)
                  (MapPlaceGroup.lat g) (MapPlaceGroup.lng g) in
       if match minDist with Some m => Qlt_bool d m | None => true end
       then (Some g, Some d) else (nearestGroup, minDist))
    placeGroups (None, None).

(** Hospital color = worst danger among regions that assign cases to it. *)
Definition getHospitalColor (hospital : Hospital.t)
    (placeGroups : list MapPlaceGroup.t) : DangerColorKey :=
  let maxVictims := maxVictims_loop hospital placeGroups in
  if 0 <? maxVictims then getDangerColor maxVictims
  else
    match (nearestGroup_loop hospital placeGroups).1 with
    | Some nearestGroup => getDangerColor (MapPlaceGroup.totalVictims nearestGroup)
    | None => green
    end.

(** The text in which the patterns are searched. *)
Definition case_text (c : EmergencyCase.t) : string :=
  toLowerCase
    (String.concat " "
       (EmergencyCase.signsAndSymptoms c
        ++ [EmergencyCase.traumaHistory c]
        ++ EmergencyCase.knownChronicDiseases c
        ++ flat_map (fun p => Patient.signsAndSymptoms p
                              ++ [Patient.traumaHistory p])
                    (EmergencyCase.patients c))).

(** Distance of a group of the map from a hospital. *)
Definition group_dist (hospital : Hospital.t) (g : MapPlaceGroup.t) : Q :=
  haversineKm (Hospital.latitude hospital) (Hospital.longitude hospital)
    (MapPlaceGroup.lat g) (MapPlaceGroup.lng g).

(** * Properties *)

(** ** The stable sort *)

Section ArraySortFacts.
Context {A : Type} (le0 : A -> A -> bool).
Hypothesis le0_total : forall a b, le0 a b = true \/ le0 b a = true.
Hypothesis le0_trans :
  forall a b c, le0 a b = true -> le0 b c = true -> le0 a c = true.

Let le (a b : A) : Prop := le0 a b = true.

Lemma sort_insert_perm x l : sort_insert le0 x l ≡ₚ x :: l.
Proof.
  induction l as [|y l IH]; simpl; [done|].
  destruct (le0 x y); [done|].
  rewrite IH. apply perm_swap.
Qed.

Lemma Array_sort_perm l : Array_sort le0 l ≡ₚ l.
Proof.
  induction l as [|x l IH]; simpl; [done|].
  rewrite sort_insert_perm. by rewrite IH.
Qed.

Lemma Array_sort_In x l : In x (Array_sort le0 l) <-> In x l.
Proof.
  split; apply Permutation_in; [|symmetry]; apply Array_sort_perm.
Qed.

Lemma sort_insert_sorted x l :
  StronglySorted le l -> StronglySorted le (sort_insert le0 x l).
Proof using le0_total le0_trans.
  induction 1 as [|y l Hs IH Hy]; simpl.
  - repeat constructor.
  - destruct (le0 x y) eqn:Hxy.
    + constructor; [by constructor|].
      constructor; [exact Hxy|].
      eapply Forall_impl; [exact Hy|].
      intros z Hz. by eapply le0_trans.
    + constructor; [exact IH|].
      rewrite sort_insert_perm. constructor; [|exact Hy].
      destruct (le0_total x y) as [H|H]; [congruence|exact H].
Qed.

Lemma Array_sort_sorted l : StronglySorted le (Array_sort le0 l).
Proof using le0_total le0_trans.
  induction l as [|x l IH]; simpl; [constructor|].
  by apply sort_insert_sorted.
Qed.

(** Stability: elements that the comparator does not tell apart keep
    their input order. *)
Lemma sort_insert_filter (P : A -> bool) x l :
  (forall a b, P a = true -> P b = true -> le0 a b = true) ->
  List.filter P (sort_insert le0 x l) = List.filter P (x :: l).
Proof.
  intros HP. induction l as [|y l IH]; [done|].
  cbn [sort_insert]. destruct (le0 x y) eqn:Hxy; [done|].
  cbn [List.filter] in *. rewrite IH.
  destruct (P x) eqn:Hx, (P y) eqn:Hy; try done.
  rewrite (HP x y Hx Hy) in Hxy. discriminate.
Qed.

Lemma Array_sort_stable (P : A -> bool) l :
  (forall a b, P a = true -> P b = true -> le0 a b = true) ->
  List.filter P (Array_sort le0 l) = List.filter P l.
Proof.
  intros HP. induction l as [|x l IH]; [done|].
  cbn [Array_sort]. rewrite sort_insert_filter by done.
  cbn [List.filter]. by rewrite IH.
Qed.

(** Any stable sort gives the list [Array_sort] gives: a permutation of the
    input that is sorted and keeps tied elements in input order is
    unique. *)
Lemma stable_sorted_unique l1 l2 :
  l1 ≡ₚ l2 -> StronglySorted le l1 -> StronglySorted le l2 ->
  (forall x, List.filter (tied le0 x) l1 = List.filter (tied le0 x) l2) ->
  l1 = l2.
Proof using le0_total.
  revert l2. induction l1 as [|a l1 IH]; intros l2 Hp Hs1 Hs2 Hf.
  { by apply Permutation_nil in Hp. }
  destruct l2 as [|b l2].
  { symmetry in Hp. by apply Permutation_nil in Hp. }
  apply StronglySorted_inv in Hs1 as [Hs1 Ha], Hs2 as [Hs2 Hb].
  rewrite Forall_forall in Ha, Hb.
  assert (Hrefl : forall x, le0 x x = true).
  { intros x. by destruct (le0_total x x). }
  assert (Hab : le0 a b = true).
  { assert (In b (a :: l1)) as [->|Hin].
    { eapply Permutation_in; [symmetry; exact Hp|by left]. }
    - apply Hrefl.
    - apply Ha. by apply list_elem_of_In. }
  assert (Hba : le0 b a = true).
  { assert (In a (b :: l2)) as [->|Hin].
    { eapply Permutation_in; [exact Hp|by left]. }
    - apply Hrefl.
    - apply Hb. by apply list_elem_of_In. }
  assert (Haa : tied le0 a a = true) by (unfold tied; by rewrite Hrefl).
  assert (Htie : tied le0 a b = true) by (unfold tied; by rewrite Hab, Hba).
  pose proof (Hf a) as Hfa. cbn [List.filter] in Hfa.
  rewrite Haa, Htie in Hfa. injection Hfa as <- _.
  f_equal. apply IH; [by eapply Permutation_cons_inv|done|done|].
  intros x. specialize (Hf x). cbn [List.filter] in Hf.
  destruct (tied le0 x a); [by injection Hf|done].
Qed.

Lemma Array_sort_unique l out :
  out ≡ₚ l -> StronglySorted le out ->
  (forall x, List.filter (tied le0 x) out = List.filter (tied le0 x) l) ->
  out = Array_sort le0 l.
Proof using le0_total le0_trans.
  intros Hp Hs Hf. apply stable_sorted_unique.
  - by rewrite Array_sort_perm.
  - done.
  - apply Array_sort_sorted.
  - intros x. rewrite Hf. symmetry. apply Array_sort_stable.
    intros a b Ha Hb. unfold tied in Ha, Hb.
    apply andb_true_iff in Ha as [_ Ha], Hb as [Hb _].
    by eapply le0_trans.
Qed.

(** The first element satisfying [P] after an insertion. *)
Lemma find_sort_insert (P : A -> bool) x l :
  StronglySorted le l ->
  find P (sort_insert le0 x l) =
    if P x then
      match find P l with
      | Some y => if le0 x y then Some x else Some y
      | None => Some x
      end
    else find P l.
Proof using le0_trans.
  induction 1 as [|z l Hs IH Hz]; simpl.
  - by destruct (P x).
  - destruct (le0 x z) eqn:Hxz; simpl.
    + destruct (P x) eqn:Hx; [|done].
      destruct (P z) eqn:Hpz; [by rewrite Hxz|].
      destruct (find P l) as [y|] eqn:Hf; [|done].
      apply find_some in Hf as [Hin _].
      rewrite Forall_forall in Hz.
      assert (le0 x y = true) as ->; [|done].
      eapply le0_trans; [exact Hxz|]. apply Hz. by apply list_elem_of_In.
    + destruct (P z) eqn:Hpz.
      * destruct (P x); [by rewrite Hxz|done].
      * exact IH.
Qed.

Lemma first_best_le (P : A -> bool) l h x :
  first_best le0 P l h -> In x l -> P x = true -> le0 h x = true.
Proof using le0_total.
  intros (l1 & l2 & -> & Hh & H1 & H2) Hin Hx.
  apply in_app_or in Hin as [Hin|[<-|Hin]].
  - destruct (le0_total h x) as [H|H]; [done|].
    rewrite (H1 x Hin Hx) in H. discriminate.
  - by destruct (le0_total h h).
  - by apply H2.
Qed.

Lemma find_Array_sort_none (P : A -> bool) l :
  find P (Array_sort le0 l) = None <-> (forall x, In x l -> P x = false).
Proof.
  split.
  - intros Hf x Hin. eapply find_none; [exact Hf|]. by apply Array_sort_In.
  - intros H. destruct (find P (Array_sort le0 l)) as [y|] eqn:Hf; [|done].
    apply find_some in Hf as [Hin Hy]. apply (proj1 (Array_sort_In _ _)) in Hin.
    rewrite (H y Hin) in Hy. discriminate.
Qed.

Lemma find_Array_sort_first (P : A -> bool) l h :
  find P (Array_sort le0 l) = Some h -> first_best le0 P l h.
Proof using le0_total le0_trans.
  revert h. induction l as [|x l IH]; intros h; [done|].
  cbn [Array_sort]. rewrite find_sort_insert by apply Array_sort_sorted.
  destruct (P x) eqn:Hx.
  - destruct (find P (Array_sort le0 l)) as [y|] eqn:Hf.
    + specialize (IH y eq_refl).
      destruct (le0 x y) eqn:Hxy; intros [= <-].
      * exists [], l. repeat split; [done|done|].
        intros z Hz Hpz. eapply le0_trans; [exact Hxy|].
        by eapply first_best_le.
      * destruct IH as (l1 & l2 & -> & Hy & H1 & H2).
        exists (x :: l1), l2. repeat split; [done| |done].
        intros z [<-|Hz] Hpz; [done|by apply H1].
    + intros [= <-]. exists [], l. repeat split; [done|done|].
      intros z Hz Hpz.
      rewrite find_Array_sort_none in Hf. rewrite (Hf z Hz) in Hpz. discriminate.
  - intros Hf. destruct (IH h Hf) as (l1 & l2 & -> & Hy & H1 & H2).
    exists (x :: l1), l2. repeat split; [done| |done].
    intros z [<-|Hz] Hpz; [congruence|by apply H1].
Qed.

Lemma head_Array_sort_find l : head (Array_sort le0 l) = find (fun _ => true) (Array_sort le0 l).
Proof. by destruct (Array_sort le0 l). Qed.
End ArraySortFacts.

(** ** Ranking by distance *)

Lemma byDist_le0_iff lat lng a b :
  byDist_le0 lat lng a b = true <-> (dist lat lng a <= dist lat lng b)%Q.
Proof.
  unfold byDist_le0, dist. rewrite Qle_bool_iff. split; intros H; lra.
Qed.

Lemma byDist_le0_false lat lng a b :
  byDist_le0 lat lng a b = false <-> (dist lat lng b < dist lat lng a)%Q.
Proof.
  rewrite <- not_true_iff_false, byDist_le0_iff. split; intros H; lra.
Qed.

Lemma byDist_le0_total lat lng a b :
  byDist_le0 lat lng a b = true \/ byDist_le0 lat lng b a = true.
Proof.
  rewrite !byDist_le0_iff.
  destruct (Qlt_le_dec (dist lat lng b) (dist lat lng a)); [right|left]; lra.
Qed.

Lemma byDist_le0_trans lat lng a b c :
  byDist_le0 lat lng a b = true -> byDist_le0 lat lng b c = true ->
  byDist_le0 lat lng a c = true.
Proof. rewrite !byDist_le0_iff. lra. Qed.

Lemma find_byDist_nearest lat lng (P : Hospital.t -> bool)
    (R : Hospital.t -> Prop) hospitals h :
  (forall x, P x = true <-> R x) ->
  find P (byDist lat lng hospitals) = Some h ->
  nearest_satisfying lat lng R hospitals h.
Proof.
  intros HPR Hf.
  apply find_Array_sort_first in Hf
    as (l1 & l2 & -> & Hh & H1 & H2);
    [|apply byDist_le0_total|apply byDist_le0_trans].
  exists l1, l2. repeat split; [by apply HPR| |].
  - intros x Hx HR. apply byDist_le0_false, H1; [done|by apply HPR].
  - intros x Hx HR. apply byDist_le0_iff, H2; [done|by apply HPR].
Qed.

Lemma find_byDist_none lat lng (P : Hospital.t -> bool)
    (R : Hospital.t -> Prop) hospitals :
  (forall x, P x = true <-> R x) ->
  find P (byDist lat lng hospitals) = None <-> none_satisfying R hospitals.
Proof.
  intros HPR. unfold byDist. rewrite find_Array_sort_none. unfold none_satisfying.
  split; intros H x Hx.
  - rewrite <- HPR. rewrite (H x Hx). discriminate.
  - apply not_true_iff_false. rewrite HPR. by apply H.
Qed.

Lemma has_capacity_iff usedCapacity n h :
  (n <=? available_in usedCapacity h) = true <-> has_capacity usedCapacity n h.
Proof. unfold has_capacity, available_in. apply Z.leb_le. Qed.

Lemma offers_all_iff required h :
  hasServices required h = true <-> offers_all required h.
Proof. unfold hasServices, offers_all. apply forallb_forall. Qed.

(** The hospital returned for a group, a ledger and a non-empty hospital
    list, told by the tier it comes from. *)
Lemma findNearest_tiers (g : PlaceGroup.t)
    (hospitals : list Hospital.t) (usedCapacity : gmap string Z) :
  hospitals <> [] ->
  let lat := PlaceGroup.lat g in
  let lng := PlaceGroup.lng g in
  let capacity := has_capacity usedCapacity (PlaceGroup.totalVictims g) in
  let capable := offers_all (PlaceGroup.requiredServices g) in
  let tier1 h := capacity h /\ capable h in
  exists h,
    findNearestHospitalWithCapacityAndServices lat lng hospitals usedCapacity
      (PlaceGroup.totalVictims g) (PlaceGroup.requiredServices g) = Some h /\
    (nearest_satisfying lat lng tier1 hospitals h
     \/ (none_satisfying tier1 hospitals /\
         nearest_satisfying lat lng capacity hospitals h)
     \/ (none_satisfying tier1 hospitals /\ none_satisfying capacity hospitals /\
         nearest_satisfying lat lng capable hospitals h)
     \/ (none_satisfying tier1 hospitals /\ none_satisfying capacity hospitals /\
         none_satisfying capable hospitals /\
         nearest_satisfying lat lng (fun _ => True) hospitals h)).
Proof.
  intros Hne lat lng capacity capable tier1.
  unfold findNearestHospitalWithCapacityAndServices.
  assert (H1 : forall x,
             (PlaceGroup.totalVictims g <=? available_in usedCapacity x)
             && hasServices (PlaceGroup.requiredServices g) x = true <-> tier1 x).
  { intros x. rewrite andb_true_iff, has_capacity_iff, offers_all_iff. done. }
  assert (H2 : forall x,
             (PlaceGroup.totalVictims g <=? available_in usedCapacity x) = true
             <-> capacity x) by (intros; apply has_capacity_iff).
  assert (H3 : forall x,
             hasServices (PlaceGroup.requiredServices g) x = true <-> capable x)
    by (intros; apply offers_all_iff).
  destruct (find _ (byDist lat lng hospitals)) as [h1|] eqn:E1.
  { exists h1. split; [done|]. left. exact (find_byDist_nearest _ _ _ _ _ _ H1 E1). }
  apply (find_byDist_none _ _ _ _ _ H1) in E1.
  destruct (find _ (byDist lat lng hospitals)) as [h2|] eqn:E2.
  { exists h2. split; [done|]. right; left.
    split; [done|]. exact (find_byDist_nearest _ _ _ _ _ _ H2 E2). }
  apply (find_byDist_none _ _ _ _ _ H2) in E2.
  destruct (find _ (byDist lat lng hospitals)) as [h3|] eqn:E3.
  { exists h3. split; [done|]. right; right; left.
    split; [done|]. split; [done|]. exact (find_byDist_nearest _ _ _ _ _ _ H3 E3). }
  apply (find_byDist_none _ _ _ _ _ H3) in E3.
  unfold byDist in *. rewrite head_Array_sort_find.
  destruct (find _ (Array_sort _ hospitals)) as [h4|] eqn:E4.
  - exists h4. split; [done|]. right; right; right.
    split; [done|]. split; [done|]. split; [done|].
    eapply (find_byDist_nearest _ _ (fun _ => true)); [|exact E4]. done.
  - rewrite find_Array_sort_none in E4.
    destruct hospitals as [|x l]; [done|].
    specialize (E4 x (or_introl eq_refl)). discriminate.
Qed.

(** C8: the backup finder returns the first hospital, in the ranking by
    distance (ascending, ties in input order), whose name is not the excluded
    one, whose raw available emergency beds cover the required beds and which
    offers every required capability; it returns null exactly when no
    hospital qualifies. *)
Theorem findBackupHospital_spec (lat lng : Q) (hospitals : list Hospital.t)
    (excludeHospitalName : option string) (requiredBeds : Z)
    (requiredServices : list HospitalServiceKey) :
  let qualifies h :=
    Some (Hospital.name h) <> excludeHospitalName /\
    requiredBeds <= BedPool.available (Hospital.emergencyBeds h) /\
    offers_all requiredServices h in
  let result :=
    findBackupHospital lat lng hospitals excludeHospitalName requiredBeds
      requiredServices in
  (forall h, result = Some h -> nearest_satisfying lat lng qualifies hospitals h)
  /\ (result = None <-> none_satisfying qualifies hospitals).
Proof.
  intros qualifies result. subst result. unfold findBackupHospital.
  set (P := fun h : Hospital.t => _ && _).
  assert (HP : forall x, P x = true <-> qualifies x).
  { intros x. unfold P, qualifies.
    rewrite !andb_true_iff, negb_true_iff, bool_decide_eq_false,
      Z.leb_le, offers_all_iff. done. }
  split.
  - intros h Hf. exact (find_byDist_nearest _ _ _ _ _ _ HP Hf).
  - exact (find_byDist_none _ _ _ _ _ HP).
Qed.

(** ** Grouping by place *)

Lemma Map_get_set {V} (m : list (string * V)) k v k' :
  Map_get (Map_set m k v) k' = if String.eqb k k' then Some v else Map_get m k'.
Proof.
  induction m as [|[k0 v0] m IH]; simpl.
  - done.
  - destruct (String.eqb_spec k0 k) as [->|Hne]; simpl.
    + by destruct (String.eqb k k').
    + rewrite IH. destruct (String.eqb_spec k0 k') as [->|Hne']; [|done].
      destruct (String.eqb_spec k k'); [congruence|done].
Qed.

Lemma Map_set_keys {V} (m : list (string * V)) k v x :
  In x (map fst (Map_set m k v)) <-> x = k \/ In x (map fst m).
Proof. forget_runtime.
  induction m as [|[k0 v0] m IH]; simpl.
  - naive_solver.
  - destruct (String.eqb_spec k0 k) as [->|Hne]; simpl; [naive_solver|].
    rewrite IH. naive_solver.
Qed.

Lemma Map_set_NoDup {V} (m : list (string * V)) k v :
  List.NoDup (map fst m) -> List.NoDup (map fst (Map_set m k v)).
Proof.
  induction m as [|[k0 v0] m IH]; simpl; intros Hnd.
  - constructor; [intros []|constructor].
  - inversion Hnd as [|? ? Hnotin Hnd']; subst.
    destruct (String.eqb_spec k0 k) as [->|Hne]; simpl.
    + by constructor.
    + constructor; [|by apply IH].
      rewrite Map_set_keys. intros [->|Hin]; done.
Qed.

Lemma Map_get_In {V} (m : list (string * V)) k v :
  List.NoDup (map fst m) -> In (k, v) m <-> Map_get m k = Some v.
Proof. forget_runtime.
  induction m as [|[k0 v0] m IH]; simpl; intros Hnd.
  - naive_solver.
  - inversion Hnd as [|? ? Hnotin Hnd']; subst.
    destruct (String.eqb_spec k0 k) as [->|Hne].
    + split; [|naive_solver].
      intros [[= ->]|Hin]; [done|].
      destruct Hnotin. apply in_map_iff. by exists (k, v).
    + rewrite <- IH by done. naive_solver.
Qed.

Lemma byPlace_snoc cases c :
  byPlace (cases ++ [c]) = byPlace_step (byPlace cases) c.
Proof. unfold byPlace. by rewrite fold_left_app. Qed.

Lemma members_snoc p cases c :
  members p (cases ++ [c]) =
    members p cases ++ (if String.eqb (EmergencyCase.placeName c) p then [c] else []).
Proof. unfold members. rewrite List.filter_app. simpl. by destruct (String.eqb _ p). Qed.

Lemma byPlace_NoDup cases : List.NoDup (map fst (byPlace cases)).
Proof.
  induction cases as [|c cases IH] using rev_ind; [constructor|].
  rewrite byPlace_snoc. by apply Map_set_NoDup.
Qed.

Lemma byPlace_get cases p :
  Map_get (byPlace cases) p =
    match members p cases with [] => None | l => Some l end.
Proof.
  induction cases as [|c cases IH] using rev_ind; [done|].
  rewrite byPlace_snoc, members_snoc. unfold byPlace_step.
  rewrite Map_get_set.
  destruct (String.eqb_spec (EmergencyCase.placeName c) p) as [->|Hne].
  - rewrite IH. by destruct (members _ cases).
  - by rewrite app_nil_r.
Qed.

Lemma byPlace_In cases p l :
  In (p, l) (byPlace cases) <-> l = members p cases /\ l <> [].
Proof. forget_runtime.
  rewrite Map_get_In by apply byPlace_NoDup. rewrite byPlace_get.
  destruct (members p cases) eqn:E; naive_solver.
Qed.

Lemma members_In c cases :
  In c cases -> In c (members (EmergencyCase.placeName c) cases).
Proof.
  intros Hin. apply filter_In. split; [done|]. apply String.eqb_refl.
Qed.

Lemma Map_set_fst {V} (m : list (string * V)) k v :
  map fst (Map_set m k v) =
    if bool_decide (k ∈ map fst m) then map fst m else map fst m ++ [k].
Proof.
  induction m as [|[k0 v0] m IH]; simpl.
  - done.
  - destruct (String.eqb_spec k0 k) as [->|Hne]; simpl.
    + by rewrite bool_decide_eq_true_2 by apply list_elem_of_here.
    + rewrite IH. case_bool_decide as Hk.
      * by rewrite bool_decide_eq_true_2 by by apply list_elem_of_further.
      * rewrite bool_decide_eq_false_2; [done|].
        intros [E|Hin]%elem_of_cons; [congruence|done].
Qed.

Lemma byPlace_keys cases :
  map fst (byPlace cases)
  = first_occurrences (map EmergencyCase.placeName cases).
Proof.
  unfold first_occurrences.
  induction cases as [|c cases IH] using rev_ind; [done|].
  rewrite byPlace_snoc, map_app, fold_left_app. simpl.
  unfold byPlace_step. by rewrite Map_set_fst, IH.
Qed.

Lemma placeGroups_perm cases :
  placeGroups cases ≡ₚ map makePlaceGroup (byPlace cases).
Proof. apply Array_sort_perm. Qed.

Lemma placeGroups_In cases g :
  In g (placeGroups cases) <->
  exists p, members p cases <> [] /\ g = makePlaceGroup (p, members p cases).
Proof.
  unfold placeGroups. rewrite Array_sort_In, in_map_iff. split.
  - intros ([p l] & <- & Hin). apply byPlace_In in Hin as [-> Hne]. by exists p.
  - intros (p & Hne & ->). exists (p, members p cases).
    split; [done|]. by apply byPlace_In.
Qed.

Lemma placeGroups_covers cases c :
  In c cases ->
  exists g, In g (placeGroups cases) /\
            PlaceGroup.placeName g = EmergencyCase.placeName c.
Proof.
  intros Hin. exists (makePlaceGroup (EmergencyCase.placeName c,
                                       members (EmergencyCase.placeName c) cases)).
  split; [|done]. apply placeGroups_In. eexists. split; [|done].
  intros E. apply members_In in Hin. rewrite E in Hin. destruct Hin.
Qed.

Lemma placeGroups_NoDup cases :
  List.NoDup (map PlaceGroup.placeName (placeGroups cases)).
Proof.
  eapply Permutation_NoDup.
  { symmetry. apply Permutation_map, placeGroups_perm. }
  rewrite map_map.
  erewrite map_ext; [apply byPlace_NoDup|]. by intros [p l].
Qed.

(** ** Order of the members of a group *)

Lemma severity_le0_iff a b :
  severity_le0 a b = true <->
  severityOrder (EmergencyCase.severity a) <= severityOrder (EmergencyCase.severity b).
Proof. unfold severity_le0. rewrite Z.leb_le. lia. Qed.

Lemma severity_le0_total a b :
  severity_le0 a b = true \/ severity_le0 b a = true.
Proof. rewrite !severity_le0_iff. lia. Qed.

Lemma severity_le0_trans a b c :
  severity_le0 a b = true -> severity_le0 b c = true -> severity_le0 a c = true.
Proof. rewrite !severity_le0_iff. lia. Qed.

Lemma StronglySorted_weaken {A} (R R' : A -> A -> Prop) l :
  (forall a b, In a l -> In b l -> R a b -> R' a b) ->
  StronglySorted R l -> StronglySorted R' l.
Proof.
  intros HR Hs. induction Hs as [|x l Hs IH Hx]; constructor.
  - apply IH. intros a b Ha Hb. apply HR; by right.
  - rewrite Forall_forall in *. intros y Hy.
    apply list_elem_of_In in Hy as Hy'.
    apply HR; [by left|by right|by apply Hx].
Qed.

(** C6, as the code has it: the members of a group are the cases of its
    place sorted by ascending severity rank, and members of equal severity
    keep the order they have in the input case list. *)
Theorem caseList_sorted_by_severity_stable (cases : list EmergencyCase.t)
    (g : PlaceGroup.t) :
  In g (placeGroups cases) ->
  let input := members (PlaceGroup.placeName g) cases in
  let rank c := severityOrder (EmergencyCase.severity c) in
  PlaceGroup.caseList g ≡ₚ input /\
  StronglySorted (fun a b => rank a <= rank b) (PlaceGroup.caseList g) /\
  forall r, List.filter (fun c => rank c =? r) (PlaceGroup.caseList g)
            = List.filter (fun c => rank c =? r) input.
Proof.
  intros Hin input rank. apply placeGroups_In in Hin as (p & Hne & ->).
  subst input. cbn [makePlaceGroup PlaceGroup.caseList PlaceGroup.placeName].
  split; [apply Array_sort_perm|]. split.
  - eapply StronglySorted_weaken;
      [|apply Array_sort_sorted;
        [apply severity_le0_total|apply severity_le0_trans]].
    intros a b _ _. apply severity_le0_iff.
  - intros r. apply Array_sort_stable. intros a b Ha Hb.
    apply severity_le0_iff. apply Z.eqb_eq in Ha, Hb. subst rank. simpl in *. lia.
Qed.

(** ** Order in which groups are processed *)

Lemma fold_left_min_le xs x :
  fold_left Z.min xs x <= x /\
  (forall y, In y xs -> fold_left Z.min xs x <= y) /\
  (fold_left Z.min xs x = x \/ In (fold_left Z.min xs x) xs).
Proof.
  revert x. induction xs as [|y xs IH]; intros x; simpl.
  - split; [lia|]. split; [intros _ []|by left].
  - destruct (IH (Z.min x y)) as (H1 & H2 & H3).
    split; [lia|]. split.
    + intros z [<-|Hz]; [lia|by apply H2].
    + destruct H3 as [H3|H3]; [|by right; right].
      destruct (Z.min_spec x y) as [[_ E]|[_ E]]; rewrite E in H3 |- *.
      * by left.
      * right; left. done.
Qed.

Lemma worst_spec g m :
  worst g = Some m ->
  (exists c, In c (PlaceGroup.caseList g) /\
             severityOrder (EmergencyCase.severity c) = m) /\
  (forall c, In c (PlaceGroup.caseList g) ->
             m <= severityOrder (EmergencyCase.severity c)).
Proof.
  unfold worst. destruct (PlaceGroup.caseList g) as [|c0 cs]; [done|].
  cbn [map Math_min]. intros [= <-].
  set (rank := fun c => severityOrder (EmergencyCase.severity c)).
  destruct (fold_left_min_le (map rank cs) (rank c0)) as (H1 & H2 & H3).
  split.
  - destruct H3 as [H3|H3].
    + exists c0. split; [by left|done].
    + apply in_map_iff in H3 as (c & Hc & Hin). exists c. split; [by right|done].
  - intros c [<-|Hin]; [done|]. apply H2. apply in_map_iff. by exists c.
Qed.

Lemma worst_Some cases g :
  In g (placeGroups cases) -> exists m, worst g = Some m.
Proof.
  intros Hin. apply placeGroups_In in Hin as (p & Hne & ->).
  unfold worst. cbn [makePlaceGroup PlaceGroup.caseList].
  destruct (Array_sort severity_le0 (members p cases)) as [|c l] eqn:E.
  - pose proof (Array_sort_perm severity_le0 (members p cases)) as Hp.
    rewrite E in Hp. apply Permutation_nil in Hp. done.
  - by eexists.
Qed.

Lemma placeGroups_le0_total a b :
  placeGroups_le0 a b = true \/ placeGroups_le0 b a = true.
Proof.
  unfold placeGroups_le0, placeGroups_cmp. rewrite !Z.leb_le.
  destruct (worst a) as [wa|], (worst b) as [wb|]; try lia.
  destruct (Z.eqb_spec wa wb), (Z.eqb_spec wb wa); simpl; lia.
Qed.

Lemma placeGroups_le0_trans a b c :
  placeGroups_le0 a b = true -> placeGroups_le0 b c = true ->
  placeGroups_le0 a c = true.
Proof.
  unfold placeGroups_le0, placeGroups_cmp. rewrite !Z.leb_le.
  destruct (worst a) as [wa|], (worst b) as [wb|], (worst c) as [wc|];
    try lia;
    repeat match goal with
           | |- context [Z.eqb ?x ?y] => destruct (Z.eqb_spec x y)
           end; simpl; lia.
Qed.

(** C5: the groups are processed in the order of a stable sort on the
    minimum severity rank among the members (ascending), then on the total
    victim count (descending): the processing order is a permutation of the
    groups in input order, every group comes before those with a larger
    key, and groups with the same key keep their input order.  The rank
    used is the minimum over the members of the group, and the input order
    of the groups is that of the first report of their places. *)
Theorem placeGroups_processing_order (cases : list EmergencyCase.t) :
  let input := map makePlaceGroup (byPlace cases) in
  let groups := placeGroups cases in
  (forall g, In g groups ->
     exists m, worst g = Some m /\
       (exists c, In c (PlaceGroup.caseList g) /\
                  severityOrder (EmergencyCase.severity c) = m) /\
       (forall c, In c (PlaceGroup.caseList g) ->
                  m <= severityOrder (EmergencyCase.severity c))) /\
  groups ≡ₚ input /\
  StronglySorted processed_before groups /\
  (forall m v, List.filter (has_key m v) groups = List.filter (has_key m v) input) /\
  map PlaceGroup.placeName input
  = first_occurrences (map EmergencyCase.placeName cases).
Proof.
  intros input groups. split; [|split; [|split; [|split]]].
  - intros g Hin. destruct (worst_Some _ _ Hin) as [m Hm].
    exists m. split; [done|]. by apply worst_spec.
  - apply placeGroups_perm.
  - eapply StronglySorted_weaken;
      [|apply Array_sort_sorted;
        [apply placeGroups_le0_total|apply placeGroups_le0_trans]].
    intros a b Ha Hb. fold (placeGroups cases) in Ha, Hb.
    destruct (worst_Some _ _ Ha) as [ma Hma], (worst_Some _ _ Hb) as [mb Hmb].
    unfold placeGroups_le0, placeGroups_cmp. rewrite Hma, Hmb, Z.leb_le.
    intros H. exists ma, mb. split; [done|]. split; [done|].
    destruct (Z.eqb_spec ma mb); simpl in H; lia.
  - intros m v. apply Array_sort_stable. intros a b Ha Hb.
    unfold has_key in Ha, Hb.
    apply andb_true_iff in Ha as [Ha Hva], Hb as [Hb Hvb].
    apply bool_decide_eq_true in Ha, Hb. apply Z.eqb_eq in Hva, Hvb.
    unfold placeGroups_le0, placeGroups_cmp. rewrite Ha, Hb, Z.eqb_refl. simpl.
    apply Z.leb_le. lia.
  - unfold input. rewrite map_map, <- byPlace_keys.
    apply map_ext. by intros [p l].
Qed.

(** ** The assignment pass *)

Lemma findNearest_nonempty lat lng hospitals usedCapacity n required :
  hospitals <> [] ->
  is_Some (findNearestHospitalWithCapacityAndServices lat lng hospitals
             usedCapacity n required).
Proof.
  intros Hne. unfold findNearestHospitalWithCapacityAndServices.
  repeat (destruct (find _ _); [by eexists|]).
  unfold byDist. destruct (Array_sort _ hospitals) as [|h l] eqn:E; [|by eexists].
  pose proof (Array_sort_perm (byDist_le0 lat lng) hospitals) as Hp.
  rewrite E in Hp. apply Permutation_nil in Hp. done.
Qed.

Lemma assign_step_unfold hospitals usedCapacity placeToHospital g :
  assign_step hospitals (usedCapacity, placeToHospital) g =
    match findNearestHospitalWithCapacityAndServices
            (PlaceGroup.lat g) (PlaceGroup.lng g) hospitals usedCapacity
            (PlaceGroup.totalVictims g) (PlaceGroup.requiredServices g) with
    | Some assigned =>
        (<[Hospital.name assigned :=
             used_of usedCapacity (Hospital.name assigned)
             + PlaceGroup.totalVictims g]> usedCapacity,
         <[PlaceGroup.placeName g := Hospital.name assigned]> placeToHospital)
    | None => (usedCapacity, placeToHospital)
    end.
Proof. done. Qed.

Lemma has_capacity_unclamped usedCapacity n h :
  0 < n ->
  has_capacity usedCapacity n h <->
  n <= BedPool.available (Hospital.emergencyBeds h)
       - used_of usedCapacity (Hospital.name h).
Proof. unfold has_capacity. lia. Qed.

(** C1: for every group [g] the pass processes, with the ledger as it is
    at that moment and a non-empty hospital list, a hospital is chosen,
    its ledger entry grows by the victims of [g] and its name is recorded
    for the place of [g]; and that hospital is the first, in the ranking of
    all hospitals by distance from the centroid of [g] (ascending, ties in
    input order), that has ledger-adjusted capacity for the victims of [g]
    and offers every required capability; if no hospital does, the first
    with capacity; if none has capacity, the first offering every required
    capability; otherwise the nearest hospital of all. *)
Theorem findNearest_tier_sequence (g : PlaceGroup.t)
    (hospitals : list Hospital.t) (st : gmap string Z * gmap string string) :
  hospitals <> [] ->
  let lat := PlaceGroup.lat g in
  let lng := PlaceGroup.lng g in
  let capacity := has_capacity st.1 (PlaceGroup.totalVictims g) in
  let capable := offers_all (PlaceGroup.requiredServices g) in
  let tier1 h := capacity h /\ capable h in
  exists h,
    findNearestHospitalWithCapacityAndServices lat lng hospitals st.1
      (PlaceGroup.totalVictims g) (PlaceGroup.requiredServices g) = Some h /\
    assign_step hospitals st g =
      (<[Hospital.name h :=
           used_of st.1 (Hospital.name h) + PlaceGroup.totalVictims g]> st.1,
       <[PlaceGroup.placeName g := Hospital.name h]> st.2) /\
    (nearest_satisfying lat lng tier1 hospitals h
     \/ (none_satisfying tier1 hospitals /\
         nearest_satisfying lat lng capacity hospitals h)
     \/ (none_satisfying tier1 hospitals /\ none_satisfying capacity hospitals /\
         nearest_satisfying lat lng capable hospitals h)
     \/ (none_satisfying tier1 hospitals /\ none_satisfying capacity hospitals /\
         none_satisfying capable hospitals /\
         nearest_satisfying lat lng (fun _ => True) hospitals h)).
Proof.
  intros Hne lat lng capacity capable tier1.
  destruct (findNearest_tiers g hospitals st.1 Hne) as (h & Hh & Htier).
  exists h. split; [exact Hh|]. split; [|exact Htier].
  destruct st as [usedCapacity placeToHospital].
  rewrite assign_step_unfold. simpl in Hh. by rewrite Hh.
Qed.

Lemma assign_step_recorded hospitals st g :
  hospitals <> [] ->
  is_Some ((assign_step hospitals st g).2 !! PlaceGroup.placeName g).
Proof.
  intros Hne. destruct st as [u p]. rewrite assign_step_unfold.
  destruct (findNearest_nonempty (PlaceGroup.lat g) (PlaceGroup.lng g) hospitals u
              (PlaceGroup.totalVictims g) (PlaceGroup.requiredServices g) Hne)
    as [h ->].
  simpl. rewrite lookup_insert_eq. by eexists.
Qed.

Lemma assign_step_keeps hospitals st g (p : string) :
  is_Some (st.2 !! p) -> is_Some ((assign_step hospitals st g).2 !! p).
Proof.
  destruct st as [u m]. rewrite assign_step_unfold.
  destruct (findNearestHospitalWithCapacityAndServices _ _ _ _ _ _); [|done].
  simpl. intros Hs. destruct (decide (PlaceGroup.placeName g = p)) as [->|Hne].
  - rewrite lookup_insert_eq. by eexists.
  - by rewrite lookup_insert_ne.
Qed.

Lemma assign_loop_records hospitals groups st (p : string) :
  hospitals <> [] ->
  is_Some (st.2 !! p) \/ In p (map PlaceGroup.placeName groups) ->
  is_Some ((fold_left (assign_step hospitals) groups st).2 !! p).
Proof.
  intros Hne. revert st. induction groups as [|g groups IH]; intros st; simpl.
  - by intros [H|[]].
  - intros [H|[<-|H]]; apply IH.
    + left. by apply assign_step_keeps.
    + left. by apply assign_step_recorded.
    + by right.
Qed.

Lemma Forall2_map_self {A B} (R : A -> B -> Prop) (f : A -> B) l :
  (forall x, In x l -> R x (f x)) -> Forall2 R l (map f l).
Proof.
  induction l as [|x l IH]; intros H; simpl; constructor.
  - apply H. by left.
  - apply IH. intros y Hy. apply H. by right.
Qed.

(** C2: the pass returns one case per input case, equal to it up to
    [assignedHospital], and the [assignedHospital] of a returned case is
    null if and only if the hospital list is empty. *)
Theorem assignedHospital_null_iff_no_hospital
    (cases : list EmergencyCase.t) (hospitals : list Hospital.t) :
  Forall2
    (fun c c' =>
       c' = EmergencyCase.with_assignedHospital c (EmergencyCase.assignedHospital c')
       /\ (EmergencyCase.assignedHospital c' = None <-> hospitals = []))
    cases (assignCasesToHospitals cases hospitals).
Proof.
  unfold assignCasesToHospitals.
  destruct hospitals as [|h0 hospitals]; cbn [length Z.of_nat Z.eqb].
  - apply Forall2_map_self. intros c _. done.
  - replace (Z.pos (Pos.of_succ_nat (length hospitals)) =? 0) with false by done.
    destruct (assign_loop _ _) as [u p2h] eqn:E.
    apply Forall2_map_self. intros c Hc. split; [done|]. simpl.
    split; [|done]. intros Hnone. exfalso.
    destruct (placeGroups_covers cases c Hc) as (g & Hg & Hpn).
    assert (Hs : is_Some ((assign_loop (h0 :: hospitals) (placeGroups cases)).2
                            !! EmergencyCase.placeName c)).
    { apply assign_loop_records; [done|]. right. rewrite <- Hpn. by apply in_map. }
    rewrite E in Hs. simpl in Hs. rewrite Hnone in Hs. by destruct Hs.
Qed.

(** *** The capacity ledger *)

Lemma totalVictims_nonneg cases g :
  (forall c, In c cases -> 0 <= EmergencyCase.numberOfPatients c) ->
  In g (placeGroups cases) -> 0 <= PlaceGroup.totalVictims g.
Proof.
  intros Hpos Hin. apply placeGroups_In in Hin as (p & _ & ->).
  cbn [makePlaceGroup PlaceGroup.totalVictims].
  assert (Hm : forall c, In c (members p cases) ->
                         0 <= EmergencyCase.numberOfPatients c).
  { intros c Hc. apply Hpos. by apply filter_In in Hc as [Hc _]. }
  revert Hm. generalize (members p cases). intros l.
  assert (forall z, 0 <= z ->
            (forall c, In c l -> 0 <= EmergencyCase.numberOfPatients c) ->
            0 <= fold_left (fun s c => s + EmergencyCase.numberOfPatients c) l z)
    as H; [|by apply H].
  induction l as [|c l IH]; intros z Hz Hl; simpl; [done|].
  apply IH.
  - specialize (Hl c (or_introl eq_refl)). lia.
  - intros c' Hc'. apply Hl. by right.
Qed.

Lemma assign_step_used hospitals st g name :
  used_of (assign_step hospitals st g).1 name =
    used_of st.1 name +
    match findNearestHospitalWithCapacityAndServices
            (PlaceGroup.lat g) (PlaceGroup.lng g) hospitals st.1
            (PlaceGroup.totalVictims g) (PlaceGroup.requiredServices g) with
    | Some h => if bool_decide (Hospital.name h = name)
                then PlaceGroup.totalVictims g else 0
    | None => 0
    end.
Proof.
  destruct st as [u p]. rewrite assign_step_unfold. simpl.
  destruct (findNearestHospitalWithCapacityAndServices _ _ _ _ _ _) as [h|];
    simpl; [|lia].
  unfold used_of at 1. case_bool_decide as Hn.
  - subst name. by rewrite lookup_insert_eq.
  - rewrite lookup_insert_ne by done. fold (used_of u name). lia.
Qed.

Lemma assign_step_placeToHospital hospitals st g (p : string) :
  (assign_step hospitals st g).2 !! p =
    match findNearestHospitalWithCapacityAndServices
            (PlaceGroup.lat g) (PlaceGroup.lng g) hospitals st.1
            (PlaceGroup.totalVictims g) (PlaceGroup.requiredServices g) with
    | Some h => if bool_decide (PlaceGroup.placeName g = p)
                then Some (Hospital.name h) else st.2 !! p
    | None => st.2 !! p
    end.
Proof.
  destruct st as [u m]. rewrite assign_step_unfold. simpl.
  destruct (findNearestHospitalWithCapacityAndServices _ _ _ _ _ _) as [h|];
    simpl; [|done].
  case_bool_decide as Hp.
  - subst p. by rewrite lookup_insert_eq.
  - by rewrite lookup_insert_ne.
Qed.

Lemma assign_loop_placeToHospital_other hospitals groups st (p : string) :
  ~ In p (map PlaceGroup.placeName groups) ->
  (fold_left (assign_step hospitals) groups st).2 !! p = st.2 !! p.
Proof. forget_runtime.
  revert st. induction groups as [|g groups IH]; intros st Hnot; simpl; [done|].
  simpl in Hnot. rewrite IH by tauto.
  rewrite assign_step_placeToHospital.
  destruct (findNearestHospitalWithCapacityAndServices _ _ _ _ _ _); [|done].
  case_bool_decide; [tauto|done].
Qed.

Lemma committed_cons placeToHospital name g groups :
  committed placeToHospital name (g :: groups) =
    (if bool_decide (placeToHospital !! PlaceGroup.placeName g = Some name)
     then PlaceGroup.totalVictims g else 0)
    + committed placeToHospital name groups.
Proof.
  unfold committed. cbn [List.filter]. by destruct (bool_decide _).
Qed.

Lemma assign_loop_additive hospitals groups st name :
  List.NoDup (map PlaceGroup.placeName groups) ->
  (forall g, In g groups -> st.2 !! PlaceGroup.placeName g = None) ->
  let st' := fold_left (assign_step hospitals) groups st in
  used_of st'.1 name = used_of st.1 name + committed st'.2 name groups.
Proof.
  revert st. induction groups as [|g groups IH]; intros st Hnd Hfresh; simpl.
  { unfold committed. simpl. lia. }
  inversion Hnd as [|? ? Hnotin Hnd']; subst.
  pose proof (assign_step_used hospitals st g name) as Hu1.
  pose proof (assign_step_placeToHospital hospitals st g) as Hp1.
  set (st1 := assign_step hospitals st g) in *.
  assert (Hfresh1 : forall g', In g' groups ->
                               st1.2 !! PlaceGroup.placeName g' = None).
  { intros g' Hg'. rewrite Hp1.
    assert (PlaceGroup.placeName g <> PlaceGroup.placeName g') as Hne.
    { intros E. apply Hnotin. rewrite E. by apply in_map. }
    destruct (findNearestHospitalWithCapacityAndServices _ _ _ _ _ _).
    - rewrite bool_decide_eq_false_2 by done. apply Hfresh. by right.
    - apply Hfresh. by right. }
  pose proof (IH st1 Hnd' Hfresh1) as Hu. cbv zeta in Hu.
  pose proof (assign_loop_placeToHospital_other hospitals groups st1
                (PlaceGroup.placeName g) Hnotin) as Hp.
  rewrite committed_cons, Hu, Hu1, Hp, Hp1.
  destruct (findNearestHospitalWithCapacityAndServices _ _ _ _ _ _) as [h|].
  - rewrite (bool_decide_eq_true_2 (PlaceGroup.placeName g = _)) by done.
    destruct (decide (Hospital.name h = name)) as [->|Hne].
    + rewrite !bool_decide_eq_true_2 by done. lia.
    + rewrite (bool_decide_eq_false_2 (Hospital.name h = name)) by done.
      rewrite bool_decide_eq_false_2 by congruence. lia.
  - rewrite (Hfresh g (or_introl eq_refl)).
    rewrite bool_decide_eq_false_2 by done. lia.
Qed.

Lemma assign_loop_snoc hospitals groups g :
  assign_loop hospitals (groups ++ [g]) =
    assign_step hospitals (assign_loop hospitals groups) g.
Proof. unfold assign_loop. by rewrite fold_left_app. Qed.

Lemma assign_step_grows hospitals st g name :
  0 <= PlaceGroup.totalVictims g ->
  used_of st.1 name <= used_of (assign_step hospitals st g).1 name.
Proof.
  intros Hg. rewrite assign_step_used.
  destruct (findNearestHospitalWithCapacityAndServices _ _ _ _ _ _); [|lia].
  case_bool_decide; lia.
Qed.

Lemma ledger_prefix_grows hospitals groups k name :
  (forall g, In g groups -> 0 <= PlaceGroup.totalVictims g) ->
  used_of (assign_loop hospitals (take k groups)).1 name
  <= used_of (assign_loop hospitals (take (S k) groups)).1 name.
Proof.
  intros Hpos. destruct (groups !! k) as [g|] eqn:E.
  - rewrite (take_S_r _ _ _ E), assign_loop_snoc.
    apply assign_step_grows, Hpos.
    apply list_elem_of_In. by eapply list_elem_of_lookup_2.
  - apply lookup_ge_None in E.
    rewrite !take_ge by lia. lia.
Qed.

Lemma ledger_prefix_nonneg hospitals groups k name :
  (forall g, In g groups -> 0 <= PlaceGroup.totalVictims g) ->
  0 <= used_of (assign_loop hospitals (take k groups)).1 name.
Proof.
  intros Hpos. induction k as [|k IH].
  - rewrite take_0. unfold assign_loop, used_of. simpl.
    by rewrite lookup_empty.
  - pose proof (ledger_prefix_grows hospitals groups k name Hpos). lia.
Qed.

(** C4: within one pass over cases with non-negative victim counts, the
    ledger is empty before the first group; after each further group no
    ledger value has decreased and every value is non-negative; and when
    all groups are processed the value for a hospital name is the sum of
    the victim counts of the groups the pass assigned to that hospital. *)
Theorem ledger_monotone_additive (cases : list EmergencyCase.t)
    (hospitals : list Hospital.t) :
  (forall c, In c cases -> 0 <= EmergencyCase.numberOfPatients c) ->
  let groups := placeGroups cases in
  let ledger k := (assign_loop hospitals (take k groups)).1 in
  let final := assign_loop hospitals groups in
  ledger 0%nat = ∅ /\
  (forall k name,
     0 <= used_of (ledger k) name <= used_of (ledger (S k)) name) /\
  (forall k name v, ledger k !! name = Some v -> 0 <= v) /\
  ledger (length groups) = final.1 /\
  (forall name, used_of final.1 name = committed final.2 name groups).
Proof.
  intros Hpos groups ledger final.
  assert (Hg : forall g, In g groups -> 0 <= PlaceGroup.totalVictims g).
  { intros g. by apply totalVictims_nonneg. }
  split; [|split; [|split; [|split]]].
  - done.
  - intros k name. split.
    + by apply ledger_prefix_nonneg.
    + by apply ledger_prefix_grows.
  - intros k name v Hv.
    pose proof (ledger_prefix_nonneg hospitals groups k name Hg) as H.
    unfold used_of in H. fold (ledger k) in H. by rewrite Hv in H.
  - unfold ledger. by rewrite firstn_all.
  - intros name. unfold final, assign_loop.
    rewrite assign_loop_additive.
    + unfold used_of at 1. simpl. rewrite lookup_empty. simpl. lia.
    + apply placeGroups_NoDup.
    + intros g _. apply lookup_empty.
Qed.

(** *** The pass and the heap *)

Lemma assign_step_in_sim hospitals (l : nat) heap placeToHospital usedCapacity g :
  heap !! l = Some usedCapacity ->
  let r := assign_step_in hospitals l (heap, placeToHospital) g in
  let r0 := assign_step hospitals (usedCapacity, placeToHospital) g in
  r.2 = r0.2 /\ r.1 !! l = Some r0.1 /\
  (forall l', l' <> l -> r.1 !! l' = heap !! l').
Proof.
  intros Hl. unfold assign_step_in. rewrite assign_step_unfold, Hl. simpl.
  destruct (findNearestHospitalWithCapacityAndServices _ _ _ _ _ _) as [h|];
    simpl.
  - split; [done|]. split; [by rewrite lookup_insert_eq|].
    intros l' Hne. by rewrite lookup_insert_ne.
  - done.
Qed.

Lemma assign_loop_in_sim hospitals (l : nat) groups heap placeToHospital usedCapacity :
  heap !! l = Some usedCapacity ->
  let r := fold_left (assign_step_in hospitals l) groups (heap, placeToHospital) in
  let r0 := fold_left (assign_step hospitals) groups (usedCapacity, placeToHospital) in
  r.2 = r0.2 /\ r.1 !! l = Some r0.1 /\
  (forall l', l' <> l -> r.1 !! l' = heap !! l').
Proof.
  revert heap placeToHospital usedCapacity.
  induction groups as [|g groups IH]; intros heap p u Hl; cbn [fold_left];
    [done|].
  destruct (assign_step_in_sim hospitals l heap p u g Hl) as (E2 & E1 & Eo).
  destruct (assign_step_in hospitals l (heap, p) g) as [heap1 p1].
  destruct (assign_step hospitals (u, p) g) as [u1 p1'].
  simpl in E1, E2, Eo. subst p1'.
  destruct (IH heap1 p1 u1 E1) as (H2 & H1 & Ho).
  split; [done|]. split; [done|].
  intros l' Hne. rewrite Ho by done. by apply Eo.
Qed.

(** C9: the pass allocates its ledger at an address that is not in use in
    the heap it is invoked in; the cases it returns are those of the pass on
    its own, whatever that heap holds, so two runs on the same inputs return
    the same cases; and every ledger already in the heap is left as it
    was. *)
Theorem pass_independent_of_heap (cases : list EmergencyCase.t)
    (hospitals : list Hospital.t) (heap1 heap2 : gmap nat (gmap string Z)) :
  (new_Map heap1 ∉ dom heap1) /\
  (assignCasesToHospitals_in heap1 cases hospitals).1
    = assignCasesToHospitals cases hospitals /\
  (assignCasesToHospitals_in heap1 cases hospitals).1
    = (assignCasesToHospitals_in heap2 cases hospitals).1 /\
  (forall l ledger, heap1 !! l = Some ledger ->
     (assignCasesToHospitals_in heap1 cases hospitals).2 !! l = Some ledger).
Proof.
  assert (Hfresh : forall heap : gmap nat (gmap string Z),
             new_Map heap ∉ dom heap).
  { intros heap. unfold new_Map. apply is_fresh. }
  assert (Hpure : forall heap,
             (assignCasesToHospitals_in heap cases hospitals).1
             = assignCasesToHospitals cases hospitals
             /\ (forall l ledger, heap !! l = Some ledger ->
                   (assignCasesToHospitals_in heap cases hospitals).2 !! l
                   = Some ledger)).
  { intros heap. unfold assignCasesToHospitals_in, assignCasesToHospitals.
    destruct (Z.of_nat (length hospitals) =? 0); [done|].
    unfold assign_loop.
    pose proof (assign_loop_in_sim hospitals (new_Map heap) (placeGroups cases)
                  (<[new_Map heap := ∅]> heap) ∅ ∅
                  (lookup_insert_eq _ _ _)) as (E2 & E1 & Eo).
    destruct (fold_left (assign_step_in _ _) _ _) as [heap' p'].
    destruct (fold_left (assign_step _) _ _) as [u p].
    simpl in *. subst p'. split; [done|].
    intros l ledger Hl.
    assert (l <> new_Map heap) as Hne.
    { intros ->. apply (Hfresh heap). apply elem_of_dom. by eexists. }
    rewrite Eo by done. by rewrite lookup_insert_ne. }
  split; [apply Hfresh|]. split; [apply Hpure|]. split; [|apply Hpure].
  rewrite (proj1 (Hpure heap1)), (proj1 (Hpure heap2)). done.
Qed.

(** ** Capacity comes from emergency beds alone *)

Section Related.
Context {A : Type} (R : A -> A -> Prop).

Lemma sort_insert_related (le0 : A -> A -> bool) x x' l l' :
  (forall a a' b b', R a a' -> R b b' -> le0 a b = le0 a' b') ->
  R x x' -> Forall2 R l l' ->
  Forall2 R (sort_insert le0 x l) (sort_insert le0 x' l').
Proof.
  intros Hle Hx Hl. induction Hl as [|y y' l l' Hy Hl IH]; simpl.
  - by repeat constructor.
  - rewrite (Hle x x' y y' Hx Hy). destruct (le0 x' y').
    + by repeat constructor.
    + by constructor.
Qed.

Lemma Array_sort_related (le0 : A -> A -> bool) l l' :
  (forall a a' b b', R a a' -> R b b' -> le0 a b = le0 a' b') ->
  Forall2 R l l' -> Forall2 R (Array_sort le0 l) (Array_sort le0 l').
Proof.
  intros Hle Hl. induction Hl; simpl; [constructor|].
  by apply sort_insert_related.
Qed.

Lemma find_related (P : A -> bool) l l' :
  (forall a a', R a a' -> P a = P a') ->
  Forall2 R l l' -> option_Forall2 R (find P l) (find P l').
Proof.
  intros HP Hl. induction Hl as [|y y' l l' Hy Hl IH]; simpl; [constructor|].
  rewrite (HP y y' Hy). destruct (P y'); [by constructor|done].
Qed.

Lemma head_related l l' :
  Forall2 R l l' -> option_Forall2 R (head l) (head l').
Proof. intros [|]; by constructor. Qed.
End Related.

Lemma same_but_other_pools_dist lat lng h h' :
  same_but_other_pools h h' -> dist lat lng h = dist lat lng h'.
Proof. intros (_ & _ & Hlat & Hlng & _). unfold dist. by rewrite Hlat, Hlng. Qed.

Lemma same_but_other_pools_available usedCapacity h h' :
  same_but_other_pools h h' ->
  available_in usedCapacity h = available_in usedCapacity h'.
Proof.
  intros (_ & Hn & _ & _ & Ha & _). unfold available_in. by rewrite Hn, Ha.
Qed.

Lemma same_but_other_pools_services required h h' :
  same_but_other_pools h h' ->
  hasServices required h = hasServices required h'.
Proof.
  intros (_ & _ & _ & _ & _ & Hs). unfold hasServices.
  induction required as [|k required IH]; simpl; [done|].
  by rewrite Hs, IH.
Qed.

Lemma byDist_related lat lng hospitals hospitals' :
  Forall2 same_but_other_pools hospitals hospitals' ->
  Forall2 same_but_other_pools (byDist lat lng hospitals) (byDist lat lng hospitals').
Proof.
  apply Array_sort_related. intros a a' b b' Ha Hb.
  unfold byDist_le0. fold (dist lat lng a) (dist lat lng b)
    (dist lat lng a') (dist lat lng b').
  by rewrite (same_but_other_pools_dist _ _ _ _ Ha),
       (same_but_other_pools_dist _ _ _ _ Hb).
Qed.

Lemma findNearest_related lat lng hospitals hospitals' usedCapacity n required :
  Forall2 same_but_other_pools hospitals hospitals' ->
  option_Forall2 same_but_other_pools
    (findNearestHospitalWithCapacityAndServices lat lng hospitals
       usedCapacity n required)
    (findNearestHospitalWithCapacityAndServices lat lng hospitals'
       usedCapacity n required).
Proof.
  intros Hl. apply (byDist_related lat lng) in Hl.
  unfold findNearestHospitalWithCapacityAndServices.
  set (l := byDist lat lng hospitals) in *.
  set (l' := byDist lat lng hospitals') in *.
  assert (H1 : option_Forall2 same_but_other_pools
    (find (fun h => (n <=? available_in usedCapacity h)
                    && hasServices required h) l)
    (find (fun h => (n <=? available_in usedCapacity h)
                    && hasServices required h) l')).
  { apply find_related; [|done]. intros a a' Ha.
    by rewrite (same_but_other_pools_available _ _ _ Ha),
         (same_but_other_pools_services _ _ _ Ha). }
  assert (H2 : option_Forall2 same_but_other_pools
    (find (fun h => n <=? available_in usedCapacity h) l)
    (find (fun h => n <=? available_in usedCapacity h) l')).
  { apply find_related; [|done]. intros a a' Ha.
    by rewrite (same_but_other_pools_available _ _ _ Ha). }
  assert (H3 : option_Forall2 same_but_other_pools
    (find (fun h => hasServices required h) l)
    (find (fun h => hasServices required h) l')).
  { apply find_related; [|done]. intros a a' Ha.
    by apply same_but_other_pools_services. }
  destruct H1; [by constructor|].
  destruct H2; [by constructor|].
  destruct H3; [by constructor|].
  by apply head_related.
Qed.

Lemma findBackup_related lat lng hospitals hospitals' exclude n required :
  Forall2 same_but_other_pools hospitals hospitals' ->
  option_Forall2 same_but_other_pools
    (findBackupHospital lat lng hospitals exclude n required)
    (findBackupHospital lat lng hospitals' exclude n required).
Proof.
  intros Hl. apply (byDist_related lat lng) in Hl.
  unfold findBackupHospital. apply find_related; [|done].
  intros a a' Ha. rewrite (same_but_other_pools_services _ _ _ Ha).
  destruct Ha as (_ & -> & _ & _ & -> & _). done.
Qed.

Lemma assign_step_related hospitals hospitals' st g :
  Forall2 same_but_other_pools hospitals hospitals' ->
  assign_step hospitals st g = assign_step hospitals' st g.
Proof.
  intros Hl. destruct st as [u p]. rewrite !assign_step_unfold.
  destruct (findNearest_related (PlaceGroup.lat g) (PlaceGroup.lng g) _ _ u
              (PlaceGroup.totalVictims g) (PlaceGroup.requiredServices g) Hl)
    as [h h' (_ & Hn & _)|]; [|done].
  by rewrite Hn.
Qed.

Lemma assign_loop_related hospitals hospitals' groups :
  Forall2 same_but_other_pools hospitals hospitals' ->
  assign_loop hospitals groups = assign_loop hospitals' groups.
Proof.
  intros Hl. unfold assign_loop. generalize (∅ : gmap string Z, ∅ : gmap string string).
  induction groups as [|g groups IH]; intros st; simpl; [done|].
  by rewrite (assign_step_related _ _ _ _ Hl), IH.
Qed.

Lemma findNearest_In lat lng hospitals usedCapacity n required h :
  findNearestHospitalWithCapacityAndServices lat lng hospitals usedCapacity
    n required = Some h ->
  In h hospitals.
Proof.
  unfold findNearestHospitalWithCapacityAndServices, byDist.
  intros H. apply (Array_sort_In (byDist_le0 lat lng)).
  repeat match type of H with
         | match find ?P ?l with _ => _ end = _ =>
             let E := fresh "E" in
             destruct (find P l) eqn:E;
             [injection H as <-; by apply find_some in E as [E _]|]
         end.
  destruct (Array_sort _ hospitals); [done|]. injection H as <-. by left.
Qed.

(** C10: whether a hospital has capacity is decided from the available
    emergency beds alone.  In the tier selection the capacity of a hospital
    is its available emergency beds less what the ledger holds for it, not
    below zero: the hospital returned has that many beds for the group
    whenever some hospital of the list has.  The backup finder returns only
    a hospital whose available emergency beds cover the request.  And two
    hospital lists whose records differ at most in the total of emergency
    beds, the ICU beds, the pediatric beds, the lab slots and the pharmacy
    slots lead the tier selection and the backup finder to hospitals at the
    same position with the same name, and lead the pass to the same
    assignment of every case. *)
Theorem capacity_from_emergency_beds_only
    (hospitals hospitals' : list Hospital.t) :
  Forall2 same_but_other_pools hospitals hospitals' ->
  (forall lat lng usedCapacity n required h,
     findNearestHospitalWithCapacityAndServices lat lng hospitals
       usedCapacity n required = Some h ->
     (n <= Z.max 0 (BedPool.available (Hospital.emergencyBeds h)
                    - used_of usedCapacity (Hospital.name h))
      <-> exists x, In x hospitals /\
            n <= Z.max 0 (BedPool.available (Hospital.emergencyBeds x)
                          - used_of usedCapacity (Hospital.name x)))) /\
  (forall lat lng exclude n required h,
     findBackupHospital lat lng hospitals exclude n required = Some h ->
     n <= BedPool.available (Hospital.emergencyBeds h)) /\
  (forall lat lng usedCapacity n required,
     option_Forall2 same_but_other_pools
       (findNearestHospitalWithCapacityAndServices lat lng hospitals
          usedCapacity n required)
       (findNearestHospitalWithCapacityAndServices lat lng hospitals'
          usedCapacity n required)) /\
  (forall lat lng exclude n required,
     option_Forall2 same_but_other_pools
       (findBackupHospital lat lng hospitals exclude n required)
       (findBackupHospital lat lng hospitals' exclude n required)) /\
  (forall cases,
     assignCasesToHospitals cases hospitals
     = assignCasesToHospitals cases hospitals').
Proof.
  intros Hl. split; [|split; [|split; [|split]]].
  - intros lat lng usedCapacity n required h Hf. split.
    + intros Hh. exists h. split; [|exact Hh]. by eapply findNearest_In.
    + intros (x & Hx & Hcap).
      assert (Hne : hospitals <> []) by (by destruct hospitals).
      destruct (findNearest_tiers
                  (PlaceGroup.mk EmptyString lat lng [] n required)
                  hospitals usedCapacity Hne) as (h' & Hf' & Htier).
      cbn [PlaceGroup.lat PlaceGroup.lng PlaceGroup.totalVictims
           PlaceGroup.requiredServices] in Hf', Htier.
      rewrite Hf in Hf'. injection Hf' as <-.
      destruct Htier as [(l1 & l2 & _ & [Hc _] & _)
                        |[[_ (l1 & l2 & _ & Hc & _)]
                         |[(_ & Hnone & _)|(_ & Hnone & _)]]].
      * exact Hc.
      * exact Hc.
      * destruct (Hnone x Hx). exact Hcap.
      * destruct (Hnone x Hx). exact Hcap.
  - intros lat lng exclude n required h Hf.
    unfold findBackupHospital in Hf. apply find_some in Hf as [_ Hf].
    apply andb_true_iff in Hf as [_ Hf]. apply andb_true_iff in Hf as [Hf _].
    by apply Z.leb_le.
  - intros. by apply findNearest_related.
  - intros. by apply findBackup_related.
  - intros cases. unfold assignCasesToHospitals.
    rewrite (Forall2_length _ _ _ Hl).
    by rewrite (assign_loop_related _ _ _ Hl).
Qed.

(** * Further properties of the engine *)

(** ** Grouping keeps every case once *)

Lemma Map_set_push_concat {A} (m : list (string * list A)) k x :
  concat (map snd (Map_set m k (default [] (Map_get m k) ++ [x])))
  ≡ₚ x :: concat (map snd m).
Proof.
  induction m as [|[k0 v0] m IH]; simpl; [done|].
  destruct (String.eqb_spec k0 k) as [->|Hne]; simpl.
  - rewrite <- app_assoc. simpl. by rewrite <- Permutation_middle.
  - rewrite IH. by rewrite <- Permutation_middle.
Qed.

Lemma byPlace_concat cases : concat (map snd (byPlace cases)) ≡ₚ cases.
Proof.
  induction cases as [|c cases IH] using rev_ind; [done|].
  rewrite byPlace_snoc. unfold byPlace_step.
  rewrite Map_set_push_concat, IH. apply Permutation_cons_append.
Qed.

Lemma Zsum_app l1 l2 : Zsum (l1 ++ l2) = Zsum l1 + Zsum l2.
Proof. induction l1 as [|x l1 IH]; simpl; [done|]. unfold Zsum in *. simpl. lia. Qed.

Lemma Zsum_perm l1 l2 : l1 ≡ₚ l2 -> Zsum l1 = Zsum l2.
Proof.
  induction 1; unfold Zsum in *; simpl; lia.
Qed.

Lemma length_concat_Zsum {A} (ls : list (list A)) :
  Z.of_nat (length (concat ls)) = Zsum (map (fun l => Z.of_nat (length l)) ls).
Proof.
  induction ls as [|l ls IH]; [done|].
  simpl. rewrite length_app, Nat2Z.inj_add, IH. done.
Qed.

(** ** Required services *)

Lemma Set_add_In out k k' : In k (Set_add out k') <-> k = k' \/ In k out.
Proof. forget_runtime.
  unfold Set_add. case_bool_decide as Hin.
  - apply list_elem_of_In in Hin. split; [by right|]. by intros [->|H].
  - rewrite in_app_iff. simpl. naive_solver.
Qed.

Lemma Set_add_NoDup out k : List.NoDup out -> List.NoDup (Set_add out k).
Proof.
  intros Hnd. unfold Set_add. case_bool_decide as Hin; [done|].
  apply NoDup_ListNoDup, NoDup_app.
  split; [by apply NoDup_ListNoDup|]. split; [|apply NoDup_singleton].
  intros x Hx Hx'%list_elem_of_singleton. by subst.
Qed.

Lemma add_if_In (b : bool) out k k' :
  In k (if b then Set_add out k' else out) <-> (b = true /\ k = k') \/ In k out.
Proof. forget_runtime. destruct b; [rewrite Set_add_In|]; naive_solver. Qed.

Lemma add_if_NoDup (b : bool) out k :
  List.NoDup out -> List.NoDup (if b then Set_add out k else out).
Proof. destruct b; [apply Set_add_NoDup|done]. Qed.

(** X13: the services a case requires are those among cardiology, trauma
    unit, orthopedics, pediatrics, neurosurgery, burn unit and
    ophthalmology, in this order, whose pattern matches the text of the
    case; no service is listed twice, radiology, laboratory and pharmacy
    are never required, and two cases with the same text require the same
    services. *)
Theorem getRequiredServicesForCase_spec (c : EmergencyCase.t) :
  getRequiredServicesForCase c
  = List.filter
      (fun k => match service_pattern k with
                | Some source => RegExp_test source (case_text c)
                | None => false
                end)
      [cardiology; traumaUnit; orthopedics; pediatrics; neurosurgery;
       burnUnit; ophthalmology] /\
  List.NoDup (getRequiredServicesForCase c) /\
  (forall k, In k (getRequiredServicesForCase c) <->
     exists source, service_pattern k = Some source /\
                    RegExp_test source (case_text c) = true) /\
  ~ In radiology (getRequiredServicesForCase c) /\
  ~ In laboratory (getRequiredServicesForCase c) /\
  ~ In pharmacy (getRequiredServicesForCase c) /\
  (forall c', case_text c' = case_text c ->
     getRequiredServicesForCase c' = getRequiredServicesForCase c).
Proof. forget_runtime.
  assert (Hmem : forall k, In k (getRequiredServicesForCase c) <->
            exists source, service_pattern k = Some source /\
                           RegExp_test source (case_text c) = true).
  { unfold getRequiredServicesForCase. fold (case_text c). cbv zeta.
    intros k. rewrite !add_if_In. simpl In. split.
    - intros H.
      repeat (destruct H as [[H ->]|H];
              [eexists; split; [reflexivity|exact H]|]).
      destruct H.
    - intros (source & Hp & Ht).
      destruct k; cbn [service_pattern] in Hp; try discriminate Hp;
        injection Hp as <-; tauto. }
  split; [|split; [|split; [exact Hmem|split; [|split; [|split]]]]].
  - unfold getRequiredServicesForCase. fold (case_text c). cbv zeta.
    cbn [List.filter service_pattern].
    repeat match goal with
           | |- context [RegExp_test ?source (case_text c)] =>
               destruct (RegExp_test source (case_text c))
           end; reflexivity.
  - unfold getRequiredServicesForCase. cbv zeta.
    repeat apply add_if_NoDup. constructor.
  - rewrite Hmem. intros (source & Hp & _). discriminate Hp.
  - rewrite Hmem. intros (source & Hp & _). discriminate Hp.
  - rewrite Hmem. intros (source & Hp & _). discriminate Hp.
  - intros c' Hc'. unfold getRequiredServicesForCase.
    fold (case_text c) (case_text c'). by rewrite Hc'.
Qed.

(** ** What a group aggregates *)

Lemma fold_Set_add_In ks out k :
  In k (fold_left Set_add ks out) <-> In k ks \/ In k out.
Proof. forget_runtime.
  revert out. induction ks as [|k0 ks IH]; intros out; simpl; [tauto|].
  rewrite IH, Set_add_In. naive_solver.
Qed.

Lemma fold_Set_add_NoDup ks out :
  List.NoDup out -> List.NoDup (fold_left Set_add ks out).
Proof.
  revert out. induction ks as [|k0 ks IH]; intros out Hnd; simpl; [done|].
  by apply IH, Set_add_NoDup.
Qed.

Lemma allServices_In caseList out k :
  In k (fold_left
          (fun out c => fold_left Set_add (getRequiredServicesForCase c) out)
          caseList out) <->
  (exists c, In c caseList /\ In k (getRequiredServicesForCase c)) \/ In k out.
Proof. forget_runtime.
  revert out. induction caseList as [|c l IH]; intros out; simpl.
  - naive_solver.
  - rewrite IH, fold_Set_add_In. naive_solver.
Qed.

Lemma allServices_NoDup caseList out :
  List.NoDup out ->
  List.NoDup (fold_left
                (fun out c => fold_left Set_add (getRequiredServicesForCase c) out)
                caseList out).
Proof.
  revert out. induction caseList as [|c l IH]; intros out Hnd; simpl; [done|].
  by apply IH, fold_Set_add_NoDup.
Qed.

Lemma fold_left_sum_Zsum {A} (f : A -> Z) l z :
  fold_left (fun s c => s + f c) l z = z + Zsum (map f l).
Proof.
  revert z. induction l as [|x l IH]; intros z; simpl.
  - unfold Zsum. simpl. lia.
  - rewrite IH. unfold Zsum. simpl. lia.
Qed.

Lemma members_In_iff p cases c :
  In c (members p cases) <-> In c cases /\ EmergencyCase.placeName c = p.
Proof. unfold members. by rewrite filter_In, String.eqb_eq. Qed.

(** X14: the required services of a group are the union of the services
    its cases require, each listed once, and its victim count is the sum of
    the victim counts of the cases reported at its place. *)
Theorem placeGroup_aggregates (cases : list EmergencyCase.t) (g : PlaceGroup.t) :
  In g (placeGroups cases) ->
  List.NoDup (PlaceGroup.requiredServices g) /\
  (forall k, In k (PlaceGroup.requiredServices g) <->
     exists c, In c cases /\
               EmergencyCase.placeName c = PlaceGroup.placeName g /\
               In k (getRequiredServicesForCase c)) /\
  PlaceGroup.totalVictims g
  = Zsum (map EmergencyCase.numberOfPatients
            (members (PlaceGroup.placeName g) cases)).
Proof.
  intros Hin. apply placeGroups_In in Hin as (p & Hne & ->).
  cbn [makePlaceGroup PlaceGroup.requiredServices PlaceGroup.totalVictims
       PlaceGroup.placeName].
  split; [|split].
  - apply allServices_NoDup. constructor.
  - intros k. rewrite allServices_In. split.
    + intros [(c & Hc & Hk)|[]]. apply members_In_iff in Hc as [Hc Hp].
      by exists c.
    + intros (c & Hc & Hp & Hk). left. exists c. split; [|done].
      by apply members_In_iff.
  - rewrite fold_left_sum_Zsum. lia.
Qed.

Lemma flat_map_perm_pointwise {A B} (f g : A -> list B) l :
  (forall x, In x l -> f x ≡ₚ g x) -> flat_map f l ≡ₚ flat_map g l.
Proof.
  induction l as [|x l IH]; intros H; simpl; [done|].
  rewrite (H x) by by left. rewrite IH; [done|].
  intros y Hy. apply H. by right.
Qed.

Lemma placeGroups_concat cases :
  concat (map PlaceGroup.caseList (placeGroups cases)) ≡ₚ cases.
Proof.
  rewrite <- flat_map_concat_map.
  rewrite (Permutation_flat_map _ (placeGroups_perm cases)).
  rewrite flat_map_concat_map, map_map, <- flat_map_concat_map.
  rewrite (flat_map_perm_pointwise _ snd).
  - rewrite flat_map_concat_map. apply byPlace_concat.
  - intros [p l] _. apply Array_sort_perm.
Qed.

Lemma Zsum_concat_map {A} (f : A -> Z) (ls : list (list A)) :
  Zsum (map f (concat ls)) = Zsum (map (fun l => Zsum (map f l)) ls).
Proof.
  induction ls as [|l ls IH]; [done|].
  simpl. rewrite map_app, Zsum_app, IH. done.
Qed.

Lemma placeGroups_totalVictims cases :
  Zsum (map PlaceGroup.totalVictims (placeGroups cases))
  = Zsum (map EmergencyCase.numberOfPatients cases).
Proof.
  rewrite (Zsum_perm _ _ (Permutation_map _ (placeGroups_perm cases))).
  rewrite map_map.
  rewrite <- (Zsum_perm _ _ (Permutation_map EmergencyCase.numberOfPatients
                              (byPlace_concat cases))).
  rewrite Zsum_concat_map, map_map. f_equal. apply map_ext. intros [p l].
  cbn [makePlaceGroup PlaceGroup.totalVictims].
  rewrite fold_left_sum_Zsum. simpl. lia.
Qed.

(** X15: grouping loses and repeats no case: the member lists of the
    groups, put together, are the input cases in another order; no two
    groups have the same place; every case is a member of the group of its
    place and of no other; and the victim counts of the groups add up to
    those of the cases. *)
Theorem placeGroups_partition (cases : list EmergencyCase.t) :
  let groups := placeGroups cases in
  concat (map PlaceGroup.caseList groups) ≡ₚ cases /\
  List.NoDup (map PlaceGroup.placeName groups) /\
  (forall g c, In g groups ->
     (In c (PlaceGroup.caseList g) <->
      In c cases /\ EmergencyCase.placeName c = PlaceGroup.placeName g)) /\
  (forall c, In c cases ->
     exists g, In g groups /\
               PlaceGroup.placeName g = EmergencyCase.placeName c) /\
  Zsum (map PlaceGroup.totalVictims groups)
  = Zsum (map EmergencyCase.numberOfPatients cases).
Proof.
  intros groups. split; [apply placeGroups_concat|].
  split; [apply placeGroups_NoDup|]. split; [|split].
  - intros g c Hg. apply placeGroups_In in Hg as (p & _ & ->).
    cbn [makePlaceGroup PlaceGroup.caseList PlaceGroup.placeName].
    by rewrite Array_sort_In, members_In_iff.
  - intros c Hc. by apply placeGroups_covers.
  - apply placeGroups_totalVictims.
Qed.

(** ** The hospital a case is sent to *)

Lemma assign_loop_names hospitals groups st :
  (forall (p name : string), st.2 !! p = Some name ->
     exists h, In h hospitals /\ Hospital.name h = name) ->
  forall (p name : string),
    (fold_left (assign_step hospitals) groups st).2 !! p = Some name ->
    exists h, In h hospitals /\ Hospital.name h = name.
Proof.
  revert st. induction groups as [|g groups IH]; intros st Hst; [done|].
  cbn [fold_left]. apply IH. intros p name.
  rewrite assign_step_placeToHospital.
  destruct (findNearestHospitalWithCapacityAndServices _ _ _ _ _ _) as [h|] eqn:E;
    [|apply Hst].
  case_bool_decide; [|apply Hst].
  intros [= <-]. exists h. split; [|done]. by eapply findNearest_In.
Qed.

(** X16: every hospital name the pass writes into a case is the name of a
    hospital of the list, and unless that name is the empty string the
    lookup of the case card and of the map finds a hospital with it; cases
    reported at the same place get the same hospital. *)
Theorem assignedHospital_is_listed (cases : list EmergencyCase.t)
    (hospitals : list Hospital.t) :
  let out := assignCasesToHospitals cases hospitals in
  (forall c name, In c out -> EmergencyCase.assignedHospital c = Some name ->
     (exists h, In h hospitals /\ Hospital.name h = name) /\
     (name <> ""%string ->
      exists h, lookupAssignedHospital hospitals c = Some h /\
                In h hospitals /\ Hospital.name h = name)) /\
  (forall c1 c2, In c1 out -> In c2 out ->
     EmergencyCase.placeName c1 = EmergencyCase.placeName c2 ->
     EmergencyCase.assignedHospital c1 = EmergencyCase.assignedHospital c2).
Proof.
  intros out. unfold out, assignCasesToHospitals.
  destruct (Z.of_nat (length hospitals) =? 0).
  { split.
    - intros c name Hc. apply in_map_iff in Hc as (c0 & <- & _). done.
    - intros c1 c2 H1 H2 _. apply in_map_iff in H1 as (? & <- & _).
      apply in_map_iff in H2 as (? & <- & _). done. }
  pose proof (assign_loop_names hospitals (placeGroups cases) (∅, ∅)) as Hn.
  fold (assign_loop hospitals (placeGroups cases)) in Hn.
  destruct (assign_loop hospitals (placeGroups cases)) as [u p2h].
  cbn [snd] in Hn. split.
  - intros c name Hc Ha. apply in_map_iff in Hc as (c0 & <- & _).
    cbn [EmergencyCase.with_assignedHospital EmergencyCase.assignedHospital] in Ha.
    destruct (Hn (fun p name H => ltac:(by rewrite lookup_empty in H)) _ _ Ha)
      as (h & Hh & Hname).
    split; [by exists h|]. intros Hne.
    unfold lookupAssignedHospital.
    cbn [EmergencyCase.with_assignedHospital EmergencyCase.assignedHospital].
    rewrite Ha. destruct (String.eqb_spec name ""); [done|].
    destruct (find (fun h0 => String.eqb (Hospital.name h0) name) hospitals)
      as [h'|] eqn:E.
    + apply find_some in E as [Hin Heq]. apply String.eqb_eq in Heq.
      by exists h'.
    + apply (find_none _ _ E) in Hh. rewrite Hname, String.eqb_refl in Hh.
      discriminate.
  - intros c1 c2 H1 H2 Hp. apply in_map_iff in H1 as (a & <- & _).
    apply in_map_iff in H2 as (b & <- & _).
    cbn [EmergencyCase.with_assignedHospital EmergencyCase.assignedHospital
         EmergencyCase.placeName] in *.
    by rewrite Hp.
Qed.

(** X17: when some hospital of the list has room for a group of at least
    one victim, the hospital the pass chooses has room too: after the
    commitment its ledger entry does not exceed its available emergency
    beds. *)
Theorem no_overcommit_when_room (g : PlaceGroup.t)
    (hospitals : list Hospital.t) (st : gmap string Z * gmap string string) :
  0 < PlaceGroup.totalVictims g ->
  (exists h', In h' hospitals /\
              has_capacity st.1 (PlaceGroup.totalVictims g) h') ->
  exists h,
    findNearestHospitalWithCapacityAndServices
      (PlaceGroup.lat g) (PlaceGroup.lng g) hospitals st.1
      (PlaceGroup.totalVictims g) (PlaceGroup.requiredServices g) = Some h /\
    In h hospitals /\
    used_of (assign_step hospitals st g).1 (Hospital.name h)
    = used_of st.1 (Hospital.name h) + PlaceGroup.totalVictims g /\
    used_of (assign_step hospitals st g).1 (Hospital.name h)
    <= BedPool.available (Hospital.emergencyBeds h).
Proof.
  intros Hpos (h' & Hin' & Hcap').
  assert (hospitals <> []) as Hne by (intros ->; destruct Hin').
  destruct (findNearest_tiers g hospitals st.1 Hne) as (h & Hh & Htier).
  exists h. split; [exact Hh|]. split; [by eapply findNearest_In|].
  assert (Hused : used_of (assign_step hospitals st g).1 (Hospital.name h)
                  = used_of st.1 (Hospital.name h) + PlaceGroup.totalVictims g).
  { rewrite assign_step_used, Hh. by rewrite bool_decide_eq_true_2. }
  split; [exact Hused|]. rewrite Hused.
  assert (has_capacity st.1 (PlaceGroup.totalVictims g) h) as Hcap.
  { destruct Htier as [(l1 & l2 & _ & [Hc _] & _)
                      |[[_ (l1 & l2 & _ & Hc & _)]
                       |[(_ & Hnone & _)|(_ & Hnone & _)]]];
      [done|done|by destruct (Hnone h' Hin')|by destruct (Hnone h' Hin')]. }
  apply has_capacity_unclamped in Hcap; [lia|done].
Qed.

(** ** The nearest hospital of the map view *)

Lemma Qlt_bool_byDist lat lng a b :
  Qlt_bool (dist lat lng a) (dist lat lng b) = negb (byDist_le0 lat lng b a).
Proof.
  unfold Qlt_bool. f_equal. apply eq_true_iff_eq.
  rewrite byDist_le0_iff. apply Qle_bool_iff.
Qed.

Lemma head_sort_insert {A} (le0 : A -> A -> bool) x l :
  head (sort_insert le0 x l) =
    match head l with
    | Some y => if le0 x y then Some x else Some y
    | None => Some x
    end.
Proof. destruct l as [|y l]; simpl; [done|]. by destruct (le0 x y). Qed.

Lemma findNearestHospital_loop_head lat lng rest nearest :
  findNearestHospital_loop lat lng rest nearest (dist lat lng nearest) =
    match head (byDist lat lng rest) with
    | Some y => if byDist_le0 lat lng nearest y then nearest else y
    | None => nearest
    end.
Proof.
  revert nearest. induction rest as [|h rest IH]; intros nearest; [done|].
  cbn [findNearestHospital_loop]. fold (dist lat lng h).
  rewrite Qlt_bool_byDist. unfold byDist in *. cbn [Array_sort].
  rewrite head_sort_insert.
  destruct (byDist_le0 lat lng nearest h) eqn:Enh; cbn [negb]; rewrite IH.
  - destruct (head (Array_sort (byDist_le0 lat lng) rest)) as [y|];
      [|by rewrite Enh].
    destruct (byDist_le0 lat lng h y) eqn:Ehy.
    + by rewrite Enh, (byDist_le0_trans _ _ _ _ _ Enh Ehy).
    + done.
  - destruct (head (Array_sort (byDist_le0 lat lng) rest)) as [y|];
      [|by rewrite Enh].
    destruct (byDist_le0 lat lng h y) eqn:Ehy; [by rewrite Enh|].
    assert (byDist_le0 lat lng nearest y = false) as ->; [|done].
    apply byDist_le0_false. apply byDist_le0_false in Enh, Ehy. lra.
Qed.

(** X18: the nearest-hospital search of the map view returns the hospital
    that comes first when the hospitals are ranked by distance as the
    assignment engine ranks them, that is the hospital of its last tier; it
    returns null exactly on the empty list. *)
Theorem findNearestHospital_first_by_distance (lat lng : Q)
    (hospitals : list Hospital.t) :
  findNearestHospital lat lng hospitals = head (byDist lat lng hospitals) /\
  (findNearestHospital lat lng hospitals = None <-> hospitals = []) /\
  (forall h, findNearestHospital lat lng hospitals = Some h ->
     nearest_satisfying lat lng (fun _ => True) hospitals h).
Proof.
  assert (Hhead : findNearestHospital lat lng hospitals
                  = head (byDist lat lng hospitals)).
  { destruct hospitals as [|h0 rest]; [done|].
    cbn [findNearestHospital]. fold (dist lat lng h0).
    rewrite findNearestHospital_loop_head. unfold byDist. cbn [Array_sort].
    rewrite head_sort_insert.
    destruct (head (Array_sort (byDist_le0 lat lng) rest)) as [y|]; [|done].
    by destruct (byDist_le0 lat lng h0 y). }
  split; [exact Hhead|]. split.
  - destruct hospitals; [done|]. by split.
  - intros h Hh. rewrite Hhead in Hh. unfold byDist in Hh.
    rewrite head_Array_sort_find in Hh.
    by eapply (find_byDist_nearest _ _ (fun _ => true)).
Qed.

(** ** Arrival estimate *)

(** X19: the estimated arrival time is at least one minute, and it is not
    shorter for a hospital that is not nearer. *)
Theorem estimateAmbulanceEtaMinutes_bounds
    (victimLat victimLng lat1 lng1 lat2 lng2 : Q) :
  1 <= estimateAmbulanceEtaMinutes victimLat victimLng lat1 lng1 /\
  ((haversineKm victimLat victimLng lat1 lng1
    <= haversineKm victimLat victimLng lat2 lng2)%Q ->
   estimateAmbulanceEtaMinutes victimLat victimLng lat1 lng1
   <= estimateAmbulanceEtaMinutes victimLat victimLng lat2 lng2).
Proof.
  unfold estimateAmbulanceEtaMinutes, AMBULANCE_SPEED_KMH. split; [lia|].
  intros Hle. apply Z.max_le_compat_l. unfold Math_round.
  apply Qfloor_resp_le. apply Qplus_le_compat; [|apply Qle_refl].
  apply Qmult_le_compat_r; [|discriminate].
  apply Qmult_le_compat_r; [exact Hle|discriminate].
Qed.

(** ** What the ledger holds after the pass *)

Lemma ledger_total_commit (usedCapacity : gmap string Z) (k : string) (v : Z) :
  ledger_total (<[k := used_of usedCapacity k + v]> usedCapacity)
  = ledger_total usedCapacity + v.
Proof.
  unfold ledger_total, used_of. destruct (usedCapacity !! k) as [v0|] eqn:E.
  - rewrite <- (insert_delete_eq usedCapacity).
    rewrite (Zsum_perm _ _ (Permutation_map snd
               (map_to_list_insert (delete k usedCapacity) k _
                  (lookup_delete_eq _ _)))).
    rewrite <- (Zsum_perm _ _ (Permutation_map snd
                  (map_to_list_delete usedCapacity k v0 E))).
    unfold Zsum. simpl. lia.
  - rewrite (Zsum_perm _ _ (Permutation_map snd
               (map_to_list_insert usedCapacity k _ E))).
    unfold Zsum. simpl. lia.
Qed.

Lemma assign_step_total hospitals st g :
  hospitals <> [] ->
  ledger_total (assign_step hospitals st g).1
  = ledger_total st.1 + PlaceGroup.totalVictims g.
Proof.
  intros Hne. destruct st as [u p]. rewrite assign_step_unfold.
  destruct (findNearest_nonempty (PlaceGroup.lat g) (PlaceGroup.lng g)
              hospitals u (PlaceGroup.totalVictims g)
              (PlaceGroup.requiredServices g) Hne) as [h ->].
  cbn [fst]. apply ledger_total_commit.
Qed.

Lemma assign_loop_total hospitals groups st :
  hospitals <> [] ->
  ledger_total (fold_left (assign_step hospitals) groups st).1
  = ledger_total st.1 + Zsum (map PlaceGroup.totalVictims groups).
Proof.
  intros Hne. revert st. induction groups as [|g groups IH]; intros st.
  - unfold Zsum. simpl. lia.
  - cbn [fold_left]. rewrite IH, assign_step_total by done.
    unfold Zsum. simpl. lia.
Qed.

(** X20: with at least one hospital, every victim is committed exactly
    once: the entries of the ledger after the pass add up to the victim
    counts of all cases. *)
Theorem ledger_total_is_all_victims (cases : list EmergencyCase.t)
    (hospitals : list Hospital.t) :
  hospitals <> [] ->
  ledger_total (assign_loop hospitals (placeGroups cases)).1
  = Zsum (map EmergencyCase.numberOfPatients cases).
Proof.
  intros Hne. unfold assign_loop. rewrite assign_loop_total by done.
  rewrite placeGroups_totalVictims. cbn [fst]. unfold ledger_total.
  rewrite map_to_list_empty. unfold Zsum at 1. simpl. lia.
Qed.

Lemma assign_step_room g hospitals (st : gmap string Z * gmap string string) :
  0 < PlaceGroup.totalVictims g ->
  (exists h', In h' hospitals /\
              has_capacity st.1 (PlaceGroup.totalVictims g) h') ->
  exists h,
    findNearestHospitalWithCapacityAndServices
      (PlaceGroup.lat g) (PlaceGroup.lng g) hospitals st.1
      (PlaceGroup.totalVictims g) (PlaceGroup.requiredServices g) = Some h /\
    In h hospitals /\
    used_of st.1 (Hospital.name h) + PlaceGroup.totalVictims g
    <= BedPool.available (Hospital.emergencyBeds h).
Proof.
  intros Hpos (h' & Hin' & Hcap').
  assert (hospitals <> []) as Hne by (intros ->; destruct Hin').
  destruct (findNearest_tiers g hospitals st.1 Hne) as (h & Hh & Htier).
  exists h. split; [exact Hh|]. split; [by eapply findNearest_In|].
  assert (has_capacity st.1 (PlaceGroup.totalVictims g) h) as Hcap.
  { destruct Htier as [(l1 & l2 & _ & [Hc _] & _)
                      |[[_ (l1 & l2 & _ & Hc & _)]
                       |[(_ & Hnone & _)|(_ & Hnone & _)]]];
      [done|done|by destruct (Hnone h' Hin')|by destruct (Hnone h' Hin')]. }
  apply has_capacity_unclamped in Hcap; [lia|done].
Qed.

Lemma NoDup_map_inj {A B} (f : A -> B) l a b :
  List.NoDup (map f l) -> In a l -> In b l -> f a = f b -> a = b.
Proof.
  induction l as [|x l IH]; [done|]. simpl. intros Hnd Ha Hb Hf.
  inversion Hnd as [|? ? Hnotin Hnd']; subst.
  destruct Ha as [->|Ha], Hb as [->|Hb]; [done| | |by apply IH].
  - destruct Hnotin. rewrite Hf. by apply in_map.
  - destruct Hnotin. rewrite <- Hf. by apply in_map.
Qed.

Lemma Zsum_nonneg l : (forall x, In x l -> 0 <= x) -> 0 <= Zsum l.
Proof.
  induction l as [|x l IH]; intros H; unfold Zsum in *; simpl; [done|].
  specialize (H x (or_introl eq_refl)) as Hx.
  assert (0 <= fold_right Z.add 0 l) by (apply IH; intros y Hy; apply H; by right).
  lia.
Qed.

Lemma assign_loop_within_capacity hospitals bigH groups
    (st : gmap string Z * gmap string string) :
  List.NoDup (map Hospital.name hospitals) ->
  In bigH hospitals ->
  (forall g, In g groups -> 0 < PlaceGroup.totalVictims g) ->
  within_capacity hospitals st.1 ->
  used_of st.1 (Hospital.name bigH) + Zsum (map PlaceGroup.totalVictims groups)
  <= BedPool.available (Hospital.emergencyBeds bigH) ->
  within_capacity hospitals (fold_left (assign_step hospitals) groups st).1.
Proof.
  intros Hnd Hbig. revert st.
  induction groups as [|g groups IH]; intros st Hpos Hin Hsum; [done|].
  cbn [fold_left].
  assert (0 < PlaceGroup.totalVictims g) as Hg by (apply Hpos; by left).
  assert (0 <= Zsum (map PlaceGroup.totalVictims groups)) as Hrest.
  { apply Zsum_nonneg. intros x (g' & <- & Hg')%in_map_iff.
    apply Z.lt_le_incl, Hpos. by right. }
  assert (Hsum' : used_of st.1 (Hospital.name bigH) + PlaceGroup.totalVictims g
                  + Zsum (map PlaceGroup.totalVictims groups)
                  <= BedPool.available (Hospital.emergencyBeds bigH)).
  { unfold Zsum in *. simpl in Hsum. lia. }
  destruct (assign_step_room g hospitals st Hg) as (h & Hh & Hhin & Hfit).
  { exists bigH. split; [done|]. unfold has_capacity. lia. }
  apply IH.
  - intros g' Hg'. apply Hpos. by right.
  - intros h2 Hh2. rewrite assign_step_used, Hh.
    case_bool_decide as Hname.
    + assert (h = h2) as <- by by eapply NoDup_map_inj.
      lia.
    + specialize (Hin h2 Hh2). lia.
  - rewrite assign_step_used, Hh. case_bool_decide; lia.
Qed.

Lemma totalVictims_pos cases g :
  (forall c, In c cases -> 0 < EmergencyCase.numberOfPatients c) ->
  In g (placeGroups cases) -> 0 < PlaceGroup.totalVictims g.
Proof.
  intros Hpos Hin. apply placeGroups_In in Hin as (p & Hne & ->).
  cbn [makePlaceGroup PlaceGroup.totalVictims]. rewrite fold_left_sum_Zsum.
  destruct (members p cases) as [|c l] eqn:E; [done|].
  assert (forall x, In x (c :: l) -> 0 < EmergencyCase.numberOfPatients x) as Hm.
  { intros x Hx. apply Hpos. rewrite <- E in Hx.
    by apply members_In_iff in Hx as [Hx _]. }
  assert (0 <= Zsum (map EmergencyCase.numberOfPatients l)).
  { apply Zsum_nonneg. intros x (c' & <- & Hc')%in_map_iff.
    apply Z.lt_le_incl, Hm. by right. }
  specialize (Hm c (or_introl eq_refl)). unfold Zsum in *. simpl. lia.
Qed.

(** X21: when the hospitals have distinct names, every case has at least
    one victim and one hospital alone has emergency beds available for the
    victims of all cases, the pass commits no hospital beyond its available
    emergency beds. *)
Theorem pass_within_capacity (cases : list EmergencyCase.t)
    (hospitals : list Hospital.t) :
  List.NoDup (map Hospital.name hospitals) ->
  (forall c, In c cases -> 0 < EmergencyCase.numberOfPatients c) ->
  (exists h, In h hospitals /\
             Zsum (map EmergencyCase.numberOfPatients cases)
             <= BedPool.available (Hospital.emergencyBeds h)) ->
  within_capacity hospitals (assign_loop hospitals (placeGroups cases)).1.
Proof.
  intros Hnd Hpos (bigH & Hbig & Hroom). unfold assign_loop.
  apply (assign_loop_within_capacity hospitals bigH); [done|done| | |].
  - intros g. by apply totalVictims_pos.
  - intros h _. unfold used_of. cbn [fst]. rewrite lookup_empty. simpl. lia.
  - unfold used_of. cbn [fst]. rewrite lookup_empty, placeGroups_totalVictims.
    simpl. lia.
Qed.

(** ** The groups and colours of the map view *)

Lemma worstSeverity_fold l w0 :
  let rank := severityOrder in
  let r := fold_left
             (fun worst c =>
                if rank (EmergencyCase.severity c) <? rank worst
                then EmergencyCase.severity c else worst) l w0 in
  rank r <= rank w0 /\
  (forall c, In c l -> rank r <= rank (EmergencyCase.severity c)) /\
  (r = w0 \/ exists c, In c l /\ EmergencyCase.severity c = r).
Proof.
  revert w0. induction l as [|c l IH]; intros w0; cbn [fold_left].
  { cbv zeta. split; [lia|]. split; [intros c []|by left]. }
  cbv zeta in *.
  destruct (IH (if severityOrder (EmergencyCase.severity c) <? severityOrder w0
                then EmergencyCase.severity c else w0)) as (H1 & H2 & H3).
  destruct (Z.ltb_spec (severityOrder (EmergencyCase.severity c))
              (severityOrder w0)) as [Hlt|Hge].
  - split; [lia|]. split.
    + intros c' [<-|Hc']; [done|by apply H2].
    + right. destruct H3 as [->|(c' & Hc' & E)].
      * exists c. by split; [left|].
      * exists c'. by split; [right|].
  - split; [done|]. split.
    + intros c' [<-|Hc']; [lia|by apply H2].
    + destruct H3 as [->|(c' & Hc' & E)]; [by left|].
      right. exists c'. by split; [right|].
Qed.

Lemma severityOrder_inj a b : severityOrder a = severityOrder b -> a = b.
Proof. by destruct a, b. Qed.

Lemma worstSeverity_min cases :
  cases <> [] ->
  (forall c, In c cases ->
     severityOrder (worstSeverity cases)
     <= severityOrder (EmergencyCase.severity c)) /\
  (exists c, In c cases /\ EmergencyCase.severity c = worstSeverity cases).
Proof.
  intros Hne. destruct (worstSeverity_fold cases mild) as (H1 & H2 & H3).
  cbv zeta in *. fold (worstSeverity cases) in *.
  split; [exact H2|]. destruct H3 as [E|H3]; [|exact H3].
  destruct cases as [|c l]; [done|]. exists c. split; [by left|].
  apply severityOrder_inj. specialize (H2 c (or_introl eq_refl)).
  rewrite E in *. destruct (EmergencyCase.severity c); simpl in *; lia.
Qed.

Lemma fold_left_add_map {A B C} (add : C -> C -> C) (f : A -> B)
    (g : B -> C) l z :
  fold_left (fun s c => add s (g c)) (map f l) z
  = fold_left (fun s c => add s (g (f c))) l z.
Proof. revert z. induction l as [|x l IH]; intros z; [done|]. apply IH. Qed.

Lemma sort_insert_map {A B} (le0 : A -> A -> bool) (le0' : B -> B -> bool)
    (f : A -> B) x l :
  (forall a b, le0' (f a) (f b) = le0 a b) ->
  sort_insert le0' (f x) (map f l) = map f (sort_insert le0 x l).
Proof.
  intros H. induction l as [|y l IH]; [done|].
  cbn [map sort_insert]. rewrite H. destruct (le0 x y); [done|].
  cbn [map]. by rewrite IH.
Qed.

Lemma Array_sort_map {A B} (le0 : A -> A -> bool) (le0' : B -> B -> bool)
    (f : A -> B) l :
  (forall a b, le0' (f a) (f b) = le0 a b) ->
  Array_sort le0' (map f l) = map f (Array_sort le0 l).
Proof.
  intros H. induction l as [|x l IH]; [done|].
  cbn [map Array_sort]. rewrite IH. by apply sort_insert_map.
Qed.

(** The pass returns the cases in input order, each with the hospital of
    its place written into it and nothing else changed. *)
Lemma assignCasesToHospitals_map cases hospitals :
  exists assigned : string -> option string,
    assignCasesToHospitals cases hospitals
    = map (fun c => EmergencyCase.with_assignedHospital c
                      (assigned (EmergencyCase.placeName c))) cases.
Proof.
  unfold assignCasesToHospitals.
  destruct (Z.of_nat (length hospitals) =? 0).
  - by exists (fun _ => None).
  - destruct (assign_loop hospitals (placeGroups cases)) as [u pth].
    by exists (fun p => pth !! p).
Qed.

Lemma members_assigned (assigned : string -> option string) p cases :
  members p
    (map (fun c => EmergencyCase.with_assignedHospital c
                     (assigned (EmergencyCase.placeName c))) cases)
  = map (fun c => EmergencyCase.with_assignedHospital c (assigned p))
        (members p cases).
Proof. forget_runtime.
  unfold members. induction cases as [|c cases IH]; [done|].
  cbn [map List.filter EmergencyCase.with_assignedHospital
       EmergencyCase.placeName].
  destruct (String.eqb_spec (EmergencyCase.placeName c) p) as [->|Hne];
    cbn [map]; by rewrite IH.
Qed.

Lemma worstSeverity_assigned a l :
  worstSeverity (map (fun c => EmergencyCase.with_assignedHospital c a) l)
  = worstSeverity l.
Proof. unfold worstSeverity. by rewrite fold_left_add_map with (add := fun w s => if severityOrder s <? severityOrder w then s else w) (g := EmergencyCase.severity). Qed.

(** X22: the map view, which is given the cases as the pass returns them,
    and the assignment engine, which grouped the cases it was given, see
    the same groups.  For every group of the engine the map has a group
    with the same place, centroid and victim count; its cases are the
    cases of the place in input order, all with the hospital of the place
    written into them; sorted by severity they are the engine's member
    list, and the worst severity the map draws is the minimum rank by which
    the engine orders the group.  And the map has no group for a place the
    engine has none for. *)
Theorem map_groups_match_engine (cases : list EmergencyCase.t)
    (hospitals : list Hospital.t) :
  let out := assignCasesToHospitals cases hospitals in
  (forall g, In g (placeGroups cases) ->
     exists mg a,
       In mg (groupCasesByPlace out) /\
       MapPlaceGroup.placeName mg = PlaceGroup.placeName g /\
       MapPlaceGroup.lat mg = PlaceGroup.lat g /\
       MapPlaceGroup.lng mg = PlaceGroup.lng g /\
       MapPlaceGroup.totalVictims mg = PlaceGroup.totalVictims g /\
       MapPlaceGroup.cases mg = members (PlaceGroup.placeName g) out /\
       MapPlaceGroup.cases mg
       = map (fun c => EmergencyCase.with_assignedHospital c a)
             (members (PlaceGroup.placeName g) cases) /\
       sortCasesBySeverity (MapPlaceGroup.cases mg)
       = map (fun c => EmergencyCase.with_assignedHospital c a)
             (PlaceGroup.caseList g) /\
       worst g = Some (severityOrder (worstSeverity (MapPlaceGroup.cases mg)))) /\
  (forall mg, In mg (groupCasesByPlace out) ->
     exists g, In g (placeGroups cases) /\
               PlaceGroup.placeName g = MapPlaceGroup.placeName mg).
Proof.
  cbv zeta. destruct (assignCasesToHospitals_map cases hospitals) as [assigned ->].
  split.
  - intros g Hin. pose proof (worst_Some _ _ Hin) as [m Hm].
    pose proof (worst_spec _ _ Hm) as [(cm & Hcm & Em) Hmin].
    apply placeGroups_In in Hin as (p & Hne & ->).
    set (a := assigned p).
    set (out := map _ cases).
    assert (Hout : members p out
                   = map (fun c => EmergencyCase.with_assignedHospital c a)
                         (members p cases)) by apply members_assigned.
    exists (makeMapPlaceGroup (p, members p out)), a.
    split.
    { apply in_map. apply byPlace_In. split; [done|].
      rewrite Hout. by destruct (members p cases). }
    cbn [makeMapPlaceGroup makePlaceGroup MapPlaceGroup.placeName
         MapPlaceGroup.lat MapPlaceGroup.lng MapPlaceGroup.totalVictims
         MapPlaceGroup.cases PlaceGroup.placeName PlaceGroup.lat PlaceGroup.lng
         PlaceGroup.totalVictims PlaceGroup.caseList] in *.
    rewrite Hout.
    split; [done|].
    split. { rewrite length_map. f_equal.
             by rewrite (fold_left_add_map Qplus _ EmergencyCase.latitude). }
    split. { rewrite length_map. f_equal.
             by rewrite (fold_left_add_map Qplus _ EmergencyCase.longitude). }
    split. { by rewrite (fold_left_add_map Z.add _ EmergencyCase.numberOfPatients). }
    split; [done|]. split; [done|].
    split. { unfold sortCasesBySeverity. by apply Array_sort_map. }
    rewrite Hm, worstSeverity_assigned. f_equal.
    destruct (worstSeverity_min (members p cases) Hne) as [Hw (cw & Hcw & Ew)].
    apply Array_sort_In in Hcm. apply (Array_sort_In severity_le0) in Hcw.
    specialize (Hw cm Hcm). specialize (Hmin cw Hcw). rewrite Ew in Hmin. lia.
  - intros mg Hmg. unfold groupCasesByPlace in Hmg.
    apply in_map_iff in Hmg as ([p l] & <- & Hpl).
    apply byPlace_In in Hpl as [-> Hne].
    rewrite members_assigned in Hne.
    exists (makePlaceGroup (p, members p cases)). split; [|done].
    apply placeGroups_In. exists p. split; [|done].
    by destruct (members p cases).
Qed.

Lemma danger_mono v w : v <= w -> danger (getDangerColor v) <= danger (getDangerColor w).
Proof.
  intros H. unfold getDangerColor.
  repeat match goal with
         | |- context [Z.leb ?a ?b] => destruct (Z.leb_spec a b)
         end; simpl; lia.
Qed.

Lemma maxVictims_fold hospital placeGroups m0 :
  let r := fold_left
             (fun maxVictims g =>
                if assignsTo hospital g
                   && (maxVictims <? MapPlaceGroup.totalVictims g)
                then MapPlaceGroup.totalVictims g else maxVictims)
             placeGroups m0 in
  m0 <= r /\
  (forall g, In g placeGroups -> assignsTo hospital g = true ->
             MapPlaceGroup.totalVictims g <= r) /\
  (r = m0 \/ exists g, In g placeGroups /\ assignsTo hospital g = true /\
                       MapPlaceGroup.totalVictims g = r).
Proof.
  revert m0. induction placeGroups as [|g gs IH]; intros m0; cbn [fold_left].
  { cbv zeta. split; [lia|]. split; [intros g []|by left]. }
  cbv zeta in *.
  destruct (IH (if assignsTo hospital g && (m0 <? MapPlaceGroup.totalVictims g)
                then MapPlaceGroup.totalVictims g else m0)) as (H1 & H2 & H3).
  destruct (assignsTo hospital g) eqn:Ea; cbn [andb] in *.
  - destruct (Z.ltb_spec m0 (MapPlaceGroup.totalVictims g)).
    + split; [lia|]. split.
      * intros g' [<-|Hg'] Ha; [done|by apply H2].
      * right. destruct H3 as [->|(g' & Hg' & Ha & E)].
        -- exists g. by split; [left|].
        -- exists g'. by split; [right|].
    + split; [done|]. split.
      * intros g' [<-|Hg'] Ha; [lia|by apply H2].
      * destruct H3 as [->|(g' & Hg' & Ha & E)]; [by left|].
        right. exists g'. by split; [right|].
  - split; [done|]. split.
    + intros g' [<-|Hg'] Ha; [congruence|by apply H2].
    + destruct H3 as [->|(g' & Hg' & Ha & E)]; [by left|].
      right. exists g'. by split; [right|].
Qed.

Lemma Qlt_bool_iff a b : Qlt_bool a b = true <-> (a < b)%Q.
Proof.
  unfold Qlt_bool. rewrite negb_true_iff, <- not_true_iff_false, Qle_bool_iff.
  split; intros H; lra.
Qed.

Lemma nearestGroup_fold hospital placeGroups seen
    (st : option MapPlaceGroup.t * option Q) :
  let inv (st : option MapPlaceGroup.t * option Q) seen :=
    (st = (None, None) /\ seen = []) \/
    (exists g, st = (Some g, Some (group_dist hospital g)) /\ In g seen /\
               forall g', In g' seen ->
                 (group_dist hospital g <= group_dist hospital g')%Q) in
  inv st seen ->
  inv (fold_left
         (fun '(nearestGroup, minDist) g =>
            let d := haversineKm (Hospital.latitude hospital)
                       (Hospital.longitude hospital)
                       (MapPlaceGroup.lat g) (MapPlaceGroup.lng g) in
            if match minDist with Some m => Qlt_bool d m | None => true end
            then (Some g, Some d) else (nearestGroup, minDist))
         placeGroups st) (seen ++ placeGroups).
Proof.
  cbv zeta. revert seen st.
  induction placeGroups as [|g gs IH]; intros seen st Hinv; cbn [fold_left].
  { by rewrite app_nil_r. }
  replace (seen ++ g :: gs) with ((seen ++ [g]) ++ gs)
    by (rewrite <- app_assoc; done).
  apply IH.
  destruct Hinv as [[-> ->]|(g0 & -> & Hg0 & Hmin)]; cbn beta iota zeta;
    fold (group_dist hospital g).
  - right. exists g. split; [done|]. split; [by left|].
    intros g' [<-|[]]. apply Qle_refl.
  - destruct (Qlt_bool (group_dist hospital g) (group_dist hospital g0)) eqn:E.
    + apply Qlt_bool_iff in E. right. exists g. split; [done|].
      split; [apply in_or_app; right; by left|].
      intros g' [Hg'|[<-|[]]]%in_app_or; [|apply Qle_refl].
      specialize (Hmin g' Hg'). lra.
    + apply not_true_iff_false in E. rewrite Qlt_bool_iff in E.
      right. exists g0. split; [done|].
      split; [apply in_or_app; by left|].
      intros g' [Hg'|[<-|[]]]%in_app_or; [by apply Hmin|lra].
Qed.

(** X23: the colour of a hospital on the map is at least as severe as the
    danger colour of every region with victims that sends a case to it, and
    it is the colour of one of those regions when there is one; when no
    region with victims sends it a case, it is the colour of a region
    nearest to the hospital, and green when there is no region. *)
Theorem getHospitalColor_spec (hospital : Hospital.t)
    (placeGroups : list MapPlaceGroup.t) :
  (forall g, In g placeGroups -> assignsTo hospital g = true ->
     0 < MapPlaceGroup.totalVictims g ->
     danger (getDangerColor (MapPlaceGroup.totalVictims g))
     <= danger (getHospitalColor hospital placeGroups) /\
     exists g', In g' placeGroups /\ assignsTo hospital g' = true /\
                getHospitalColor hospital placeGroups
                = getDangerColor (MapPlaceGroup.totalVictims g')) /\
  ((forall g, In g placeGroups -> assignsTo hospital g = true ->
              MapPlaceGroup.totalVictims g <= 0) ->
   (placeGroups = [] /\ getHospitalColor hospital placeGroups = green) \/
   (exists g, In g placeGroups /\
      (forall g', In g' placeGroups ->
         (group_dist hospital g <= group_dist hospital g')%Q) /\
      getHospitalColor hospital placeGroups
      = getDangerColor (MapPlaceGroup.totalVictims g))).
Proof.
  destruct (maxVictims_fold hospital placeGroups 0) as (H0 & Hmax & Hex).
  cbv zeta in *. fold (maxVictims_loop hospital placeGroups) in *.
  unfold getHospitalColor. split.
  - intros g Hg Ha Hpos. specialize (Hmax g Hg Ha).
    destruct (Z.ltb_spec 0 (maxVictims_loop hospital placeGroups)); [|lia].
    split; [by apply danger_mono|].
    destruct Hex as [E|(g' & Hg' & Ha' & E)]; [lia|].
    exists g'. by rewrite E.
  - intros Hnone.
    destruct (Z.ltb_spec 0 (maxVictims_loop hospital placeGroups)) as [Hpos|_].
    { destruct Hex as [E|(g' & Hg' & Ha' & E)]; [lia|].
      specialize (Hnone g' Hg' Ha'). lia. }
    pose proof (nearestGroup_fold hospital placeGroups [] (None, None)) as Hn.
    cbv zeta in Hn. fold (nearestGroup_loop hospital placeGroups) in Hn.
    destruct Hn as [[E Hnil]|(g & E & Hg & Hmin)]; [by left| |].
    + left. simpl in Hnil. subst. done.
    + right. rewrite E. exists g. done.
Qed.

End Engine.

(** ** Effective service availability *)

Lemma availability_step_unfold h numOver result overloadedSoFar k :
  availability_step h numOver (result, overloadedSoFar) k =
    if service h k
    then (<[k := if isIbnTofail h &&
                    (bool_decide (k = traumaUnit) || bool_decide (k = cardiology))
                 then true else numOver <=? overloadedSoFar]> result,
          overloadedSoFar + 1)
    else (<[k := false]> result, overloadedSoFar).
Proof. unfold availability_step. by destruct (service h k). Qed.

Lemma availability_loop (h : Hospital.t) (numOver : Z)
    (ks : list HospitalServiceKey) :
  List.NoDup ks ->
  forall (result : gmap HospitalServiceKey bool) (overloadedSoFar : Z),
    let r := fold_left (availability_step h numOver) ks
               (result, overloadedSoFar) in
    (forall k, ~ In k ks -> r.1 !! k = result !! k) /\
    (forall k, In k ks -> service h k = false -> r.1 !! k = Some false) /\
    (forall i k, filter (fun k => service h k = true) ks !! i = Some k ->
       r.1 !! k =
         Some (if isIbnTofail h &&
                  (bool_decide (k = traumaUnit) || bool_decide (k = cardiology))
               then true
               else numOver <=? overloadedSoFar + Z.of_nat i)).
Proof.
  induction ks as [|k0 ks IH]; intros Hnd result sofar; cbn [fold_left].
  { simpl. split; [done|]. split; [intros k []|intros i k Hi; done]. }
  inversion Hnd as [|? ? Hnotin Hnd']; subst.
  rewrite availability_step_unfold.
  destruct (service h k0) eqn:Hk0.
  - specialize (IH Hnd'
      (<[k0 := if isIbnTofail h &&
                  (bool_decide (k0 = traumaUnit) || bool_decide (k0 = cardiology))
               then true else numOver <=? sofar]> result) (sofar + 1)).
    cbv zeta in IH. destruct IH as (Ha & Hb & Hc).
    split; [|split].
    + intros k Hk. rewrite Ha by (simpl in Hk; tauto).
      rewrite lookup_insert_ne; [done|]. intros ->. apply Hk. by left.
    + intros k [<-|Hk] Hs; [congruence|by apply Hb].
    + rewrite filter_cons_True by done. intros [|i] k Hi; simpl in Hi.
      * injection Hi as <-. rewrite Ha by done. rewrite lookup_insert_eq.
        by rewrite Z.add_0_r.
      * rewrite (Hc i k Hi).
        by replace (sofar + 1 + Z.of_nat i) with (sofar + Z.of_nat (S i)) by lia.
  - specialize (IH Hnd' (<[k0 := false]> result) sofar).
    cbv zeta in IH. destruct IH as (Ha & Hb & Hc).
    split; [|split].
    + intros k Hk. rewrite Ha by (simpl in Hk; tauto).
      rewrite lookup_insert_ne; [done|]. intros ->. apply Hk. by left.
    + intros k [<-|Hk] Hs; [|by apply Hb].
      rewrite Ha by done. by rewrite lookup_insert_eq.
    + rewrite filter_cons_False by congruence. exact Hc.
Qed.

Lemma SERVICE_KEYS_ORDER_NoDup : List.NoDup SERVICE_KEYS_ORDER.
Proof.
  unfold SERVICE_KEYS_ORDER.
  repeat (constructor; [simpl; intuition discriminate|]). constructor.
Qed.

Lemma SERVICE_KEYS_ORDER_all k : In k SERVICE_KEYS_ORDER.
Proof. destruct k; simpl; tauto. Qed.

Lemma numOverloaded_in_range h p :
  (0 <= p <= 100)%Q ->
  numOverloaded h p = Qfloor (inject_Z (offeredCount h) * p / 100).
Proof.
  intros [H0 H1]. unfold numOverloaded. apply Z.min_r.
  rewrite <- (Qfloor_Z (offeredCount h)) at 2. apply Qfloor_resp_le.
  assert (0 <= inject_Z (offeredCount h))%Q as HN.
  { change 0%Q with (inject_Z 0). rewrite <- Zle_Qle. unfold offeredCount. lia. }
  apply Qle_shift_div_r; [reflexivity|]. nra.
Qed.

(** What the loop leaves in [result], for any occupancy. *)
Lemma availability_at (h : Hospital.t) (p : Q) :
  let result := getEffectiveServiceAvailability h p in
  (forall k, service h k = false -> result !! k = Some false) /\
  (forall i k,
     filter (fun k => service h k = true) SERVICE_KEYS_ORDER !! i = Some k ->
     result !! k =
       Some (always_available h k || (numOverloaded h p <=? Z.of_nat i))).
Proof.
  unfold getEffectiveServiceAvailability.
  destruct (availability_loop h (numOverloaded h p) SERVICE_KEYS_ORDER
              SERVICE_KEYS_ORDER_NoDup ∅ 0) as (_ & Hb & Hc).
  split.
  - intros k Hk. apply Hb; [apply SERVICE_KEYS_ORDER_all|done].
  - intros i k Hi. rewrite (Hc i k Hi). fold (always_available h k).
    rewrite Z.add_0_l. by destruct (always_available h k).
Qed.

Lemma leb_bool_decide (a b : Z) : (a <=? b) = bool_decide (a <= b).
Proof.
  destruct (Z.leb_spec a b).
  - by rewrite bool_decide_eq_true_2.
  - rewrite bool_decide_eq_false_2; [done|lia].
Qed.

(** What the code does for every hospital and every occupancy percentage
    in [0,100]: a capability that is not offered is unavailable, and of the
    offered capabilities in canonical order exactly the first
    [floor(N * p / 100)] are unavailable and the others available, except
    that the trauma unit and cardiology of the hospital with id [h2] or
    named Hôpital Ibn Tofail are available whenever they are offered. *)
Theorem effectiveAvailability_overload_rule (h : Hospital.t) (p : Q) :
  (0 <= p <= 100)%Q -> overload_rule_but (always_available h) h p.
Proof.
  intros Hp. destruct (availability_at h p) as [Ha Hb].
  split; [exact Ha|].
  intros i k Hi. rewrite (Hb i k Hi).
  rewrite numOverloaded_in_range by done.
  unfold offeredCount. by rewrite leb_bool_decide.
Qed.

(** Away from Hôpital Ibn Tofail the rule of the specification holds. *)
Lemma availability_rule_elsewhere (h : Hospital.t) (p : Q) :
  isIbnTofail h = false -> (0 <= p <= 100)%Q -> overload_rule h p.
Proof.
  intros Hibn Hp. destruct (availability_at h p) as [Ha Hb].
  split; [exact Ha|].
  intros i k Hi. rewrite (Hb i k Hi).
  unfold always_available. rewrite Hibn. cbn [andb orb].
  rewrite numOverloaded_in_range by done.
  unfold offeredCount. by rewrite leb_bool_decide.
Qed.

(** C3: on the hospital list of the source the code breaks the rule that
    the claim states and that its own documentation states.  Hôpital Ibn
    Tofail offers seven capabilities and its occupancy is 66, so the first
    [floor(7 * 66 / 100) = 4] in canonical order, the trauma unit and
    cardiology among them, are overloaded; the code marks both available,
    which leaves two of the seven unavailable instead of four. *)
Theorem effectiveAvailability_not_overload_rule :
  computeOccupancyPercentage Data.h2 = Float64.of_Z 66 /\
  offeredCount Data.h2 = 7 /\
  numOverloaded Data.h2 66 = 4 /\
  getEffectiveServiceAvailability Data.h2 66 !! traumaUnit = Some true /\
  getEffectiveServiceAvailability Data.h2 66 !! cardiology = Some true /\
  length (List.filter
            (fun k => bool_decide
               (getEffectiveServiceAvailability Data.h2 66 !! k = Some false))
            (List.filter (fun k => service Data.h2 k) SERVICE_KEYS_ORDER))
  = 2%nat /\
  ~ overload_rule Data.h2 66.
Proof.
  split; [vm_compute; reflexivity|].
  split; [reflexivity|]. split; [reflexivity|].
  split; [vm_compute; reflexivity|]. split; [vm_compute; reflexivity|].
  split; [vm_compute; reflexivity|].
  intros [_ H]. specialize (H 0%nat traumaUnit eq_refl).
  vm_compute in H. discriminate H.
Qed.

Lemma effectiveAvailability_overload_rule_witness :
  (0 <= 66 <= 100)%Q /\
  overload_rule_but (always_available Data.h2) Data.h2 66.
Proof.
  assert (Hp : (0 <= 66 <= 100)%Q) by (split; discriminate).
  split; [exact Hp|].
  exact (effectiveAvailability_overload_rule Data.h2 66 Hp).
Defined.

(** ** Occupancy of slot pools *)

Lemma labUsed_in_range h :
  0 <= Hospital.labAvailable h <= 10 ->
  Float64.leb (Float64.of_Z 0) (labUsed h) = true /\
  Float64.leb (labUsed h) (Float64.of_Z 1) = true.
Proof.
  intros H. unfold labUsed.
  assert (E : In (Hospital.labAvailable h) [0; 1; 2; 3; 4; 5; 6; 7; 8; 9; 10]).
  { simpl. lia. }
  simpl in E.
  repeat (destruct E as [E|E];
          [rewrite <- E; split; vm_compute; reflexivity|]).
  destruct E.
Qed.

(** Above the assumed maximum the used fraction is negative (checked on
    every count up to a thousand). *)
Lemma labUsed_above_max h :
  10 < Hospital.labAvailable h <= 1000 ->
  Float64.ltb (labUsed h) (Float64.of_Z 0) = true.
Proof.
  intros [H1 H2]. unfold labUsed.
  assert (Hall :
    forallb
      (fun i =>
         Float64.ltb
           (Float64.Math_min (Float64.of_Z 1)
              (Float64.sub (Float64.of_Z 1)
                 (Float64.div (Float64.of_Z (11 + Z.of_nat i))
                              LAB_PHARMACY_MAX)))
           (Float64.of_Z 0))
      (seq 0 990) = true) by (vm_compute; reflexivity).
  rewrite List.forallb_forall in Hall.
  specialize (Hall (Z.to_nat (Hospital.labAvailable h - 11))).
  replace (11 + Z.of_nat (Z.to_nat (Hospital.labAvailable h - 11)))
    with (Hospital.labAvailable h) in Hall by lia.
  apply Hall. apply in_seq. lia.
Qed.

(** C7: with fifteen free lab slots the used fraction of the lab pool is
    [-1/2], a negative number, where the claim puts it at [0]; the
    occupancy of that hospital comes out as 85 instead of 90. *)
Theorem labUsed_negative_at_fifteen_slots :
  0 <= Hospital.labAvailable Examples.lab15 /\
  (Float64.finite_value (labUsed Examples.lab15) == -(1 # 2))%Q /\
  (Float64.finite_value (labUsed Examples.lab15) < 0)%Q /\
  computeOccupancyPercentage Examples.lab15 = Float64.of_Z 85.
Proof.
  split; [discriminate|]. split; [reflexivity|]. split; reflexivity.
Qed.

(** ** The claims on concrete inputs *)

Lemma findNearest_tier_sequence_witness :
  Data.hospitals <> [] /\
  exists h,
    findNearestHospitalWithCapacityAndServices
      Examples.PI Examples.sin Examples.cos Examples.sqrt Examples.atan2
      31.6300 (-8.0000) Data.hospitals ∅ 3 [cardiology] = Some h.
Proof.
  assert (Hne : Data.hospitals <> []) by discriminate.
  split; [exact Hne|].
  destruct (findNearest_tier_sequence
              Examples.PI Examples.sin Examples.cos Examples.sqrt Examples.atan2
              (PlaceGroup.mk "Rue Mohammed V, Marrakech" 31.6300 (-8.0000) []
                 3 [cardiology])
              Data.hospitals (∅, ∅) Hne) as (h & Hh & _).
  exists h. exact Hh.
Defined.

Lemma ledger_monotone_additive_witness :
  (forall c, In c Examples.cases -> 0 <= EmergencyCase.numberOfPatients c) /\
  forall name,
    used_of (assign_loop Examples.PI Examples.sin Examples.cos Examples.sqrt
               Examples.atan2 Data.hospitals
               (placeGroups Examples.RegExp_test Examples.toLowerCase
                  Examples.cases)).1 name
    = committed
        (assign_loop Examples.PI Examples.sin Examples.cos Examples.sqrt
           Examples.atan2 Data.hospitals
           (placeGroups Examples.RegExp_test Examples.toLowerCase
              Examples.cases)).2 name
        (placeGroups Examples.RegExp_test Examples.toLowerCase Examples.cases).
Proof.
  assert (Hpos : forall c, In c Examples.cases ->
                           0 <= EmergencyCase.numberOfPatients c).
  { intros c Hc. simpl in Hc.
    repeat (destruct Hc as [<-|Hc]; [discriminate|]). destruct Hc. }
  split; [exact Hpos|].
  exact (proj2 (proj2 (proj2 (proj2
    (ledger_monotone_additive
       Examples.PI Examples.sin Examples.cos Examples.sqrt Examples.atan2
       Examples.RegExp_test Examples.toLowerCase
       Examples.cases Data.hospitals Hpos))))).
Defined.

(** C6, as stated, fails on two reports of equal severity from one place
    when the later report comes first in the input: the group keeps the
    input order. *)
Lemma caseList_not_sorted_by_time :
  ~ (forall g,
       In g (placeGroups Examples.RegExp_test Examples.toLowerCase
               [Examples.late; Examples.early]) ->
       severity_then_time_sorted (PlaceGroup.caseList g)).
Proof.
  intros H. specialize (H _ (or_introl eq_refl)).
  change (severity_then_time_sorted [Examples.late; Examples.early]) in H.
  apply StronglySorted_inv in H as [_ H].
  apply Forall_inv in H. vm_compute in H.
  destruct H as [H|[_ H]]; discriminate H.
Qed.

Lemma caseList_sorted_by_severity_stable_witness :
  exists g,
    In g (placeGroups Examples.RegExp_test Examples.toLowerCase
            [Examples.late; Examples.early]) /\
    PlaceGroup.caseList g = [Examples.late; Examples.early] /\
    PlaceGroup.caseList g
      ≡ₚ members (PlaceGroup.placeName g) [Examples.late; Examples.early].
Proof.
  eexists. split; [left; reflexivity|]. split; [reflexivity|].
  exact (proj1 (caseList_sorted_by_severity_stable
                  Examples.RegExp_test Examples.toLowerCase
                  [Examples.late; Examples.early] _ (or_introl eq_refl))).
Defined.

Lemma with_other_pools_related (h : Hospital.t) :
  same_but_other_pools h (Examples.with_other_pools h).
Proof.
  repeat split; try reflexivity; intros k; by destruct k.
Qed.

Lemma capacity_from_emergency_beds_only_witness :
  Forall2 same_but_other_pools Data.hospitals Examples.hospitals_other_pools /\
  assignCasesToHospitals Examples.PI Examples.sin Examples.cos Examples.sqrt
    Examples.atan2 Examples.RegExp_test Examples.toLowerCase
    Examples.cases Data.hospitals
  = assignCasesToHospitals Examples.PI Examples.sin Examples.cos Examples.sqrt
      Examples.atan2 Examples.RegExp_test Examples.toLowerCase
      Examples.cases Examples.hospitals_other_pools.
Proof.
  assert (Hrel : Forall2 same_but_other_pools
                   Data.hospitals Examples.hospitals_other_pools).
  { unfold Examples.hospitals_other_pools, Data.hospitals. simpl map.
    repeat (constructor; [apply with_other_pools_related|]). constructor. }
  split; [exact Hrel|].
  exact (proj2 (proj2 (proj2 (proj2
    (capacity_from_emergency_beds_only
       Examples.PI Examples.sin Examples.cos Examples.sqrt Examples.atan2
       Examples.RegExp_test Examples.toLowerCase
       Data.hospitals Examples.hospitals_other_pools Hrel))))
    Examples.cases).
Defined.

(** The nine victims of Place Jemaa el-Fna go to the nearest hospital
    with nine free emergency beds: Essaouira with its ten, and Chichaoua
    once Essaouira has eight; the other pools of the two play no part. *)
Example emergency_beds_decide_capacity :
  map (fun c => (EmergencyCase.id c, EmergencyCase.assignedHospital c))
    (assignCasesToHospitals Examples.PI Examples.sin Examples.cos Examples.sqrt
       Examples.atan2 Examples.RegExp_test Examples.toLowerCase
       Examples.cases Examples.hospitals_other_pools)
  = [("CASE-1", Some "Hôpital Ibn Tofail");
     ("CASE-LATE", Some "Hôpital Ibn Tofail");
     ("CASE-2", Some "Hôpital Régional Essaouira");
     ("CASE-EARLY", Some "Hôpital Ibn Tofail");
     ("CASE-3", Some "Hôpital Ibn Tofail")]%string /\
  map (fun c => (EmergencyCase.id c, EmergencyCase.assignedHospital c))
    (assignCasesToHospitals Examples.PI Examples.sin Examples.cos Examples.sqrt
       Examples.atan2 Examples.RegExp_test Examples.toLowerCase
       Examples.cases Examples.hospitals_fewer_beds)
  = [("CASE-1", Some "Hôpital Ibn Tofail");
     ("CASE-LATE", Some "Hôpital Ibn Tofail");
     ("CASE-2", Some "Hôpital Provincial Chichaoua");
     ("CASE-EARLY", Some "Hôpital Ibn Tofail");
     ("CASE-3", Some "Hôpital Ibn Tofail")]%string.
Proof. split; vm_compute; reflexivity. Qed.

(** ** The scenarios of the specification *)

(** Three victims needing cardiology: the nearer hospital has neither the
    beds nor the capability, the farther one is chosen and its ledger entry
    becomes 3. *)
Example tier1_goes_to_capable_hospital :
  findNearestHospitalWithCapacityAndServices
    Examples.PI Examples.sin Examples.cos Examples.sqrt Examples.atan2
    31.6300 (-8.0000) [Examples.A; Examples.B] ∅ 3 [cardiology]
  = Some Examples.B /\
  (assign_step Examples.PI Examples.sin Examples.cos Examples.sqrt
     Examples.atan2 [Examples.A; Examples.B] (∅, ∅) Examples.cardiac_group).1
    !! "B"%string = Some 3.
Proof. split; vm_compute; reflexivity. Qed.

(** One victim with no requirement: the nearest hospital has no free bed,
    the second nearest is chosen. *)
Example tier1_skips_full_hospital :
  findNearestHospitalWithCapacityAndServices
    Examples.PI Examples.sin Examples.cos Examples.sqrt Examples.atan2
    31.6300 (-8.0000) [Examples.A_full; Examples.B_five] ∅ 1 []
  = Some Examples.B_five.
Proof. vm_compute; reflexivity. Qed.

(** No hospital has the beds: the nearest capable hospital is chosen, and
    with no capable hospital the nearest of all. *)
Example tier3_and_tier4 :
  findNearestHospitalWithCapacityAndServices
    Examples.PI Examples.sin Examples.cos Examples.sqrt Examples.atan2
    31.6300 (-8.0000) [Examples.A; Examples.B] ∅ 30 [cardiology]
  = Some Examples.B /\
  findNearestHospitalWithCapacityAndServices
    Examples.PI Examples.sin Examples.cos Examples.sqrt Examples.atan2
    31.6300 (-8.0000) [Examples.A; Examples.B] ∅ 30 [burnUnit]
  = Some Examples.A.
Proof. split; vm_compute; reflexivity. Qed.

(** The occupancy of CHU Mohammed VI: the blend
    (27/30 * 0.35 + 11/12 * 0.25 + 6/8 * 0.20 + 0.6 * 0.10 + 0.8 * 0.10) * 100,
    rounded. *)
Example occupancy_of_h1 :
  computeOccupancyPercentage Data.h1 = Float64.of_Z 83.
Proof. vm_compute. reflexivity. Qed.

(** The occupancy of Clinique Yasmine: the blend comes out just below
    75.5 in binary64 (the exact sum is 75.5), and rounds to 75. *)
Example occupancy_of_h6 :
  computeOccupancyPercentage Data.h6 = Float64.of_Z 75 /\
  Float64.ltb
    (Float64.mul (weighted Data.h6) (Float64.of_Z 100))
    (Float64.literal 755 10) = true.
Proof. split; vm_compute; reflexivity. Qed.

(** The pass on the example cases and the hospitals of the source. *)
Example pass_on_example_cases :
  map (fun c => (EmergencyCase.id c, EmergencyCase.assignedHospital c))
    (assignCasesToHospitals Examples.PI Examples.sin Examples.cos Examples.sqrt
       Examples.atan2 Examples.RegExp_test Examples.toLowerCase
       Examples.cases Data.hospitals)
  = [("CASE-1", Some "Hôpital Ibn Tofail");
     ("CASE-LATE", Some "Hôpital Ibn Tofail");
     ("CASE-2", Some "Hôpital Régional Essaouira");
     ("CASE-EARLY", Some "Hôpital Ibn Tofail");
     ("CASE-3", Some "Hôpital Ibn Tofail")]%string.
Proof. vm_compute; reflexivity. Qed.

(** * Further properties of the code *)

(** ** Occupancy and levels *)

Lemma finite_value_positive m e :
  (0 < Float64.finite_value (S754_finite false m e))%Q.
Proof.
  unfold Float64.finite_value.
  apply Qmult_lt_0_compat; [reflexivity|].
  by apply Qpower_0_lt.
Qed.

Lemma finite_value_negative m e :
  (Float64.finite_value (S754_finite true m e) < 0)%Q.
Proof.
  unfold Float64.finite_value.
  assert (H : (0 < 2 ^ e)%Q) by (by apply Qpower_0_lt).
  assert (Hm : (inject_Z (Z.neg m) < 0)%Q) by reflexivity.
  nra.
Qed.

Lemma Float64_ltb_finite s1 m1 e1 s2 m2 e2 :
  Float64.ltb (S754_finite s1 m1 e1) (S754_finite s2 m2 e2)
  = negb (Qle_bool (Float64.finite_value (S754_finite s2 m2 e2))
                   (Float64.finite_value (S754_finite s1 m1 e1))).
Proof. reflexivity. Qed.

Lemma Float64_ltb_zero_finite s0 s m e :
  Float64.ltb (S754_zero s0) (S754_finite s m e)
  = negb (Qle_bool (Float64.finite_value (S754_finite s m e)) 0).
Proof. reflexivity. Qed.

Lemma Float64_ltb_finite_zero s0 s m e :
  Float64.ltb (S754_finite s m e) (S754_zero s0)
  = negb (Qle_bool 0 (Float64.finite_value (S754_finite s m e))).
Proof. reflexivity. Qed.

Lemma Qle_bool_false a b : Qle_bool a b = false <-> (b < a)%Q.
Proof.
  rewrite <- not_true_iff_false, Qle_bool_iff. split; [apply Qnot_le_lt|apply Qlt_not_le].
Qed.

(** [Math.max(0, x)] of a number that is not NaN is [+0] or a number above
    zero. *)
Lemma Math_max_0 (x : Float64.t) :
  Float64.isNaN x = false ->
  Float64.Math_max (Float64.of_Z 0) x = S754_zero false \/
  Float64.Math_max (Float64.of_Z 0) x = S754_infinity false \/
  exists m e, Float64.Math_max (Float64.of_Z 0) x = S754_finite false m e.
Proof.
  change (Float64.of_Z 0) with (S754_zero false).
  destruct x as [s|s| |s m e]; intros Hn; try discriminate Hn.
  - left. by destruct s.
  - destruct s; [by left|by right; left].
  - unfold Float64.Math_max. cbn [Float64.isNaN orb].
    rewrite Float64_ltb_zero_finite, Float64_ltb_finite_zero.
    destruct s.
    + pose proof (finite_value_negative m e) as Hv.
      assert (E1 : Qle_bool (Float64.finite_value (S754_finite true m e)) 0 = true)
        by (apply Qle_bool_iff; lra).
      assert (E2 : Qle_bool 0 (Float64.finite_value (S754_finite true m e)) = false)
        by (apply Qle_bool_false; lra).
      rewrite E1, E2. by left.
    + pose proof (finite_value_positive m e) as Hv.
      assert (E1 : Qle_bool (Float64.finite_value (S754_finite false m e)) 0 = false)
        by (apply Qle_bool_false; lra).
      rewrite E1. right. right. by exists m, e.
Qed.

Lemma Math_min_finite sc mc ec s m e :
  Float64.Math_min (S754_finite sc mc ec) (S754_finite s m e)
  = if Qle_bool (Float64.finite_value (S754_finite s m e))
                (Float64.finite_value (S754_finite sc mc ec))
    then S754_finite s m e else S754_finite sc mc ec.
Proof.
  unfold Float64.Math_min. cbn [Float64.isNaN orb].
  rewrite !Float64_ltb_finite.
  destruct (Qle_bool (Float64.finite_value (S754_finite s m e))
                     (Float64.finite_value (S754_finite sc mc ec)));
    cbn [negb]; [|reflexivity].
  by destruct (negb _).
Qed.

(** [Math.round(Math.min(100, y))] of a number above zero is an integer
    from 0 to 100. *)
Lemma round_min_100 m e :
  exists n, 0 <= n <= 100 /\
    Float64.Math_round
      (Float64.Math_min (Float64.of_Z 100) (S754_finite false m e))
    = Float64.of_Z n.
Proof.
  pose proof (finite_value_positive m e) as Hv.
  assert (Ec : Float64.of_Z 100 = S754_finite false 7036874417766400 (-46))
    by (vm_compute; reflexivity).
  assert (Hr : Float64.Math_round (Float64.of_Z 100) = Float64.of_Z 100)
    by (vm_compute; reflexivity).
  rewrite Ec. rewrite Math_min_finite. rewrite <- Ec.
  assert (Hc : (Float64.finite_value (Float64.of_Z 100) == 100)%Q)
    by reflexivity.
  set (c := Float64.of_Z 100) in *.
  set (y := S754_finite false m e) in *.
  destruct (Qle_bool (Float64.finite_value y) (Float64.finite_value c)) eqn:E.
  - apply Qle_bool_iff in E.
    unfold y at 1. unfold Float64.Math_round. fold y. cbv zeta.
    assert (H0 : 0 <= Qfloor (Float64.finite_value y + (1 # 2))).
    { change 0 with (Qfloor 0). apply Qfloor_resp_le. lra. }
    assert (H1 : Qfloor (Float64.finite_value y + (1 # 2)) <= 100).
    { change 100 with (Qfloor (100 + (1 # 2))). apply Qfloor_resp_le. lra. }
    destruct (Z.eqb_spec (Qfloor (Float64.finite_value y + (1 # 2))) 0) as [E0|E0].
    + by exists 0.
    + eexists. split; [|reflexivity]. lia.
  - exists 100. split; [lia|exact Hr].
Qed.

(** X1: the occupancy percentage is NaN or an integer from 0 to 100; it is
    never negative zero, infinite or fractional. *)
Theorem computeOccupancyPercentage_range (h : Hospital.t) :
  computeOccupancyPercentage h = Float64.NaN \/
  exists n, 0 <= n <= 100 /\ computeOccupancyPercentage h = Float64.of_Z n.
Proof.
  unfold computeOccupancyPercentage.
  set (x := Float64.mul (weighted h) (Float64.of_Z 100)).
  destruct (Float64.isNaN x) eqn:Hn.
  - left. destruct x; try discriminate Hn. reflexivity.
  - right. destruct (Math_max_0 x Hn) as [E|[E|(m & e & E)]]; rewrite E.
    + exists 0. split; [lia|]. vm_compute. reflexivity.
    + exists 100. split; [lia|]. vm_compute. reflexivity.
    + apply round_min_100.
Qed.

Lemma getOccupiedLevelFromPercentage_mono (p q : Q) :
  (p <= q)%Q ->
  urgency (getOccupiedLevelFromPercentage p)
  <= urgency (getOccupiedLevelFromPercentage q).
Proof.
  intros Hpq. unfold getOccupiedLevelFromPercentage.
  repeat match goal with
         | |- context [Qle_bool ?a ?b] =>
             let E := fresh "E" in
             destruct (Qle_bool a b) eqn:E;
             [apply Qle_bool_iff in E
             |apply not_true_iff_false in E; rewrite Qle_bool_iff in E]
         end; simpl; try lia; exfalso; lra.
Qed.

(** X3: the occupancy level follows the bands 75, 50 and 25 of the
    percentage and never gets less urgent as the percentage grows. *)
Theorem occupancy_level_monotone :
  (forall p q : Q, (p <= q)%Q ->
     urgency (getOccupiedLevelFromPercentage p)
     <= urgency (getOccupiedLevelFromPercentage q)) /\
  (forall p : Q,
     (getOccupiedLevelFromPercentage p = EmergencyOccupiedLevel.critical
      <-> (75 <= p)%Q) /\
     (getOccupiedLevelFromPercentage p = EmergencyOccupiedLevel.high
      <-> (50 <= p < 75)%Q) /\
     (getOccupiedLevelFromPercentage p = EmergencyOccupiedLevel.moderate
      <-> (25 <= p < 50)%Q) /\
     (getOccupiedLevelFromPercentage p = EmergencyOccupiedLevel.low
      <-> (p < 25)%Q)).
Proof.
  split; [exact getOccupiedLevelFromPercentage_mono|].
  intros p. unfold getOccupiedLevelFromPercentage.
  repeat match goal with
         | |- context [Qle_bool ?a ?b] =>
             let E := fresh "E" in
             destruct (Qle_bool a b) eqn:E;
             [apply Qle_bool_iff in E
             |apply not_true_iff_false in E; rewrite Qle_bool_iff in E]
         end;
    repeat split; try done; try lra; intros; exfalso; lra.
Qed.

(** X4: the emergency level follows the free emergency beds alone: it is
    critical up to one bed, high up to three, moderate up to six and low
    from seven on, so it never gets more urgent when beds are freed. *)
Theorem getEmergencyOccupiedLevel_bands (h h' : Hospital.t) :
  let n := BedPool.available (Hospital.emergencyBeds h) in
  let n' := BedPool.available (Hospital.emergencyBeds h') in
  (getEmergencyOccupiedLevel h = EmergencyOccupiedLevel.critical <-> n <= 1) /\
  (getEmergencyOccupiedLevel h = EmergencyOccupiedLevel.high <-> 2 <= n <= 3) /\
  (getEmergencyOccupiedLevel h = EmergencyOccupiedLevel.moderate <-> 4 <= n <= 6) /\
  (getEmergencyOccupiedLevel h = EmergencyOccupiedLevel.low <-> 7 <= n) /\
  (n <= n' ->
   urgency (getEmergencyOccupiedLevel h') <= urgency (getEmergencyOccupiedLevel h)).
Proof.
  intros n n'. unfold getEmergencyOccupiedLevel. fold n n'.
  repeat match goal with
         | |- context [Z.leb ?a ?b] => destruct (Z.leb_spec a b)
         end; simpl; repeat split; try done; try lia; intros; exfalso; lia.
Qed.

(** X5: the danger colour follows the bands 9, 6 and 3 and never gets less
    severe as the victim count grows. *)
Theorem getDangerColor_monotone (v w : Z) :
  (getDangerColor v = red <-> 9 <= v) /\
  (getDangerColor v = orange <-> 6 <= v < 9) /\
  (getDangerColor v = yellow <-> 3 <= v < 6) /\
  (getDangerColor v = green <-> v < 3) /\
  (v <= w -> danger (getDangerColor v) <= danger (getDangerColor w)).
Proof.
  unfold getDangerColor.
  repeat match goal with
         | |- context [Z.leb ?a ?b] => destruct (Z.leb_spec a b)
         end; simpl; repeat split; try done; try lia; intros; exfalso; lia.
Qed.

(** ** Sorting cases and hospitals *)

Lemma Array_sort_sorted_id {A} (le0 : A -> A -> bool) l :
  StronglySorted (fun a b => le0 a b = true) l -> Array_sort le0 l = l.
Proof.
  induction 1 as [|x l Hs IH Hx]; [done|].
  cbn [Array_sort]. rewrite IH. destruct l as [|y l]; [done|].
  cbn [sort_insert]. apply Forall_inv in Hx. by rewrite Hx.
Qed.

(** X6: [sortCasesBySeverity] returns the cases in ascending severity
    rank, cases of equal severity in their input order; it leaves a list
    that is already in that order unchanged, so sorting twice is sorting
    once. *)
Theorem sortCasesBySeverity_spec (cases : list EmergencyCase.t) :
  let rank c := severityOrder (EmergencyCase.severity c) in
  let out := sortCasesBySeverity cases in
  out ≡ₚ cases /\
  StronglySorted (fun a b => rank a <= rank b) out /\
  (forall r, List.filter (fun c => rank c =? r) out
             = List.filter (fun c => rank c =? r) cases) /\
  (StronglySorted (fun a b => rank a <= rank b) cases -> out = cases) /\
  sortCasesBySeverity out = out.
Proof.
  intros rank out. unfold out, sortCasesBySeverity.
  pose proof (Array_sort_sorted severity_le0 severity_le0_total
                severity_le0_trans) as Hsorted.
  split; [apply Array_sort_perm|]. split; [|split; [|split]].
  - eapply StronglySorted_weaken; [|apply Hsorted].
    intros a b _ _. apply severity_le0_iff.
  - intros r. apply Array_sort_stable. intros a b Ha Hb.
    apply severity_le0_iff. apply Z.eqb_eq in Ha, Hb. unfold rank in *. lia.
  - intros Hs. apply Array_sort_sorted_id.
    eapply StronglySorted_weaken; [|exact Hs].
    intros a b _ _. apply severity_le0_iff.
  - apply Array_sort_sorted_id, Hsorted.
Qed.

Section PreparednessFacts.
Variable localeCompare : string -> string -> Z.
Hypothesis localeCompare_total :
  forall a b, localeCompare a b <= 0 \/ localeCompare b a <= 0.
Hypothesis localeCompare_trans :
  forall a b c, localeCompare a b <= 0 -> localeCompare b c <= 0 ->
                localeCompare a c <= 0.

Lemma preparedness_le0_iff a b :
  preparedness_cmp localeCompare a b <= 0 <->
  getTotalAvailableBeds b < getTotalAvailableBeds a \/
  (getTotalAvailableBeds a = getTotalAvailableBeds b /\
   localeCompare (Hospital.name a) (Hospital.name b) <= 0).
Proof.
  unfold preparedness_cmp.
  destruct (Z.eqb_spec (getTotalAvailableBeds b) (getTotalAvailableBeds a));
    simpl; lia.
Qed.

(** X7: [sortHospitalsByPreparedness] returns the hospitals with the most
    available capacity first, the capacity being the sum of the available
    emergency, ICU and pediatric beds and of the lab and pharmacy slots
    ([getTotalAvailableBeds]), and hospitals of equal capacity by name
    ascending in the order of [localeCompare]. *)
Theorem sortHospitalsByPreparedness_spec (hospitalsList : list Hospital.t) :
  let out := sortHospitalsByPreparedness localeCompare hospitalsList in
  out ≡ₚ hospitalsList /\
  StronglySorted
    (fun a b =>
       getTotalAvailableBeds b < getTotalAvailableBeds a \/
       (getTotalAvailableBeds a = getTotalAvailableBeds b /\
        localeCompare (Hospital.name a) (Hospital.name b) <= 0)) out.
Proof.
  intros out. unfold out, sortHospitalsByPreparedness.
  split; [apply Array_sort_perm|].
  eapply StronglySorted_weaken; [|apply Array_sort_sorted].
  - intros a b _ _ H. apply Z.leb_le in H. by apply preparedness_le0_iff.
  - intros a b. rewrite !Z.leb_le, !preparedness_le0_iff.
    destruct (localeCompare_total (Hospital.name a) (Hospital.name b)); lia.
  - intros a b c. rewrite !Z.leb_le, !preparedness_le0_iff.
    intros [H1|[H1 H1']] [H2|[H2 H2']]; try lia.
    right. split; [lia|]. by eapply localeCompare_trans.
Qed.
End PreparednessFacts.

(** ** Severity by place *)

Lemma count_severity_total caseList :
  count_severity critical caseList + count_severity severe caseList
  + count_severity moderate caseList + count_severity mild caseList
  = Z.of_nat (length caseList).
Proof.
  unfold count_severity. induction caseList as [|c l IH]; [done|].
  cbn [List.filter length].
  destruct (EmergencyCase.severity c); simpl bool_decide; cbn [length]; lia.
Qed.

Lemma imap_In {A B} (f : nat -> A -> B) l y :
  In y (imap f l) -> exists i x, In x l /\ y = f i x.
Proof.
  revert f. induction l as [|a l IH]; intros f; simpl; [done|].
  intros [<-|H].
  - exists 0%nat, a. by split; [left|].
  - destruct (IH _ H) as (i & x & Hx & ->). exists (S i), x. by split; [right|].
Qed.

Lemma map_imap {A B C} (g : B -> C) (h : A -> C) (f : nat -> A -> B) l :
  (forall i x, g (f i x) = h x) -> map g (imap f l) = map h l.
Proof.
  revert f. induction l as [|a l IH]; intros f Hf; simpl; [done|].
  rewrite Hf. f_equal. apply IH. intros i x. apply Hf.
Qed.

Lemma alert_ratio (critical total : Z) :
  1 <= total ->
  negb (Qle_bool (inject_Z critical / inject_Z (Z.max total 1)) (3 # 10)) = true
  <-> 3 * total < 10 * critical.
Proof.
  intros Ht. rewrite Z.max_l by lia.
  rewrite negb_true_iff, <- not_true_iff_false, Qle_bool_iff.
  assert (0 < inject_Z total)%Q as Hq.
  { change 0%Q with (inject_Z 0). rewrite <- Zlt_Qlt. lia. }
  split.
  - intros H. destruct (Z.lt_ge_cases (3 * total) (10 * critical)); [done|].
    exfalso. apply H. apply Qle_shift_div_r; [done|].
    assert (inject_Z (10 * critical) <= inject_Z (3 * total))%Q as Hz
      by (rewrite <- Zle_Qle; lia).
    rewrite !inject_Z_mult in Hz. change (inject_Z 10) with 10%Q in Hz.
    change (inject_Z 3) with 3%Q in Hz. lra.
  - intros H Hle.
    assert (inject_Z critical
            == inject_Z critical / inject_Z total * inject_Z total)%Q as Hd.
    { field. lra. }
    assert (inject_Z (3 * total) < inject_Z (10 * critical))%Q as Hz
      by (rewrite <- Zlt_Qlt; lia).
    rewrite !inject_Z_mult in Hz. change (inject_Z 10) with 10%Q in Hz.
    change (inject_Z 3) with 3%Q in Hz.
    set (q := (inject_Z critical / inject_Z total)%Q) in *. nra.
Qed.

(** X8: [computePlaceSeverities] gives one entry per place, in the order
    in which the places are first reported; the entry of a place counts the
    cases reported there, in all and by severity, the four counts adding up
    to the total; the totals of all entries add up to the number of cases;
    and a place is an alert zone exactly when more than three in ten of its
    cases are critical or it has more than four cases. *)
Theorem computePlaceSeverities_counts (Math_random : nat -> Q)
    (cases : list EmergencyCase.t) :
  let out := computePlaceSeverities Math_random cases in
  map PlaceSeverity.placeName out
    = first_occurrences (map EmergencyCase.placeName cases) /\
  (forall e, In e out ->
     let here := members (PlaceSeverity.placeName e) cases in
     PlaceSeverity.totalActiveCases e = Z.of_nat (length here) /\
     1 <= PlaceSeverity.totalActiveCases e /\
     PlaceSeverity.critical e = count_severity critical here /\
     PlaceSeverity.severe e = count_severity severe here /\
     PlaceSeverity.moderate e = count_severity moderate here /\
     PlaceSeverity.mild e = count_severity mild here /\
     PlaceSeverity.critical e + PlaceSeverity.severe e
       + PlaceSeverity.moderate e + PlaceSeverity.mild e
       = PlaceSeverity.totalActiveCases e /\
     (PlaceSeverity.isAlertZone e = true <->
      3 * PlaceSeverity.totalActiveCases e < 10 * PlaceSeverity.critical e
      \/ 4 < PlaceSeverity.totalActiveCases e)) /\
  Zsum (map PlaceSeverity.totalActiveCases out) = Z.of_nat (length cases).
Proof.
  intros out. unfold out, computePlaceSeverities. split; [|split].
  - rewrite <- byPlace_keys. apply map_imap. by intros i [p l].
  - intros e He. apply imap_In in He as (i & [p l] & Hin & ->).
    apply byPlace_In in Hin as [-> Hne].
    cbn [makePlaceSeverity PlaceSeverity.placeName PlaceSeverity.totalActiveCases
         PlaceSeverity.critical PlaceSeverity.severe PlaceSeverity.moderate
         PlaceSeverity.mild PlaceSeverity.isAlertZone].
    assert (1 <= Z.of_nat (length (members p cases))) as Hlen.
    { destruct (members p cases); [done|]. simpl. lia. }
    repeat split; try done.
    + apply count_severity_total.
    + intros [H|H]%orb_true_iff.
      * left. by apply alert_ratio.
      * right. apply negb_true_iff, Z.leb_gt in H. lia.
    + intros [H|H]; apply orb_true_iff.
      * left. by apply alert_ratio.
      * right. apply negb_true_iff, Z.leb_gt. lia.
  - rewrite (map_imap _ (fun e => Z.of_nat (length (snd e)))) by by intros i [p l].
    rewrite <- (map_map snd (fun l => Z.of_nat (length l))).
    rewrite <- length_concat_Zsum. f_equal.
    apply Permutation_length, byPlace_concat.
Qed.

(** X9: when [Math.random] returns numbers of [0,1), the average response
    time of every entry is between 4 and 18 minutes. *)
Theorem computePlaceSeverities_response_time (Math_random : nat -> Q)
    (cases : list EmergencyCase.t) :
  (forall i, (0 <= Math_random i < 1)%Q) ->
  forall e, In e (computePlaceSeverities Math_random cases) ->
    4 <= PlaceSeverity.avgResponseTimeMinutes e <= 18.
Proof.
  intros Hr e He. apply imap_In in He as (i & [p l] & _ & ->).
  cbn [makePlaceSeverity PlaceSeverity.avgResponseTimeMinutes].
  destruct (Hr i) as [H0 H1].
  assert (0 <= Qfloor (Math_random i * 15)).
  { change 0 with (Qfloor 0). apply Qfloor_resp_le. lra. }
  assert (Qfloor (Math_random i * 15) < 15).
  { apply Z.lt_nge. intros Hge.
    assert (inject_Z 15 <= inject_Z (Qfloor (Math_random i * 15)))%Q
      by by rewrite <- Zle_Qle.
    pose proof (Qfloor_le (Math_random i * 15)).
    change (inject_Z 15) with 15%Q in *. lra. }
  lia.
Qed.

Lemma placeSeverity_le0_iff a b :
  (placeSeverity_cmp a b <=? 0) = true <->
  (PlaceSeverity.isAlertZone a = true /\ PlaceSeverity.isAlertZone b = false) \/
  (PlaceSeverity.isAlertZone a = PlaceSeverity.isAlertZone b /\
   (PlaceSeverity.critical b < PlaceSeverity.critical a \/
    (PlaceSeverity.critical a = PlaceSeverity.critical b /\
     (PlaceSeverity.severe b < PlaceSeverity.severe a \/
      (PlaceSeverity.severe a = PlaceSeverity.severe b /\
       PlaceSeverity.totalActiveCases b <= PlaceSeverity.totalActiveCases a))))).
Proof.
  unfold placeSeverity_cmp. rewrite Z.leb_le.
  destruct (PlaceSeverity.isAlertZone a), (PlaceSeverity.isAlertZone b);
    cbn [andb negb];
    repeat match goal with
           | |- context [Z.eqb ?x ?y] => destruct (Z.eqb_spec x y)
           end; cbn [negb]; split; intros H;
    repeat match goal with
           | H : _ \/ _ |- _ => destruct H
           | H : _ /\ _ |- _ => destruct H
           end; try discriminate; try lia; auto;
    try (right; split; [done|lia]).
Qed.

(** X10: the severity page lists the alert zones before the other places,
    and within each of the two the places with more critical cases first,
    then those with more severe cases, then those with more cases. *)
Theorem sortPlaceSeverities_spec (placeSeverities : list PlaceSeverity.t) :
  let out := sortPlaceSeverities placeSeverities in
  out ≡ₚ placeSeverities /\
  StronglySorted
    (fun a b =>
       (PlaceSeverity.isAlertZone a = true /\ PlaceSeverity.isAlertZone b = false) \/
       (PlaceSeverity.isAlertZone a = PlaceSeverity.isAlertZone b /\
        (PlaceSeverity.critical b < PlaceSeverity.critical a \/
         (PlaceSeverity.critical a = PlaceSeverity.critical b /\
          (PlaceSeverity.severe b < PlaceSeverity.severe a \/
           (PlaceSeverity.severe a = PlaceSeverity.severe b /\
            PlaceSeverity.totalActiveCases b
              <= PlaceSeverity.totalActiveCases a)))))) out.
Proof.
  intros out. unfold out, sortPlaceSeverities.
  split; [apply Array_sort_perm|].
  eapply StronglySorted_weaken; [|apply Array_sort_sorted].
  - intros a b _ _ H. by apply placeSeverity_le0_iff.
  - intros a b. rewrite !placeSeverity_le0_iff.
    destruct (PlaceSeverity.isAlertZone a), (PlaceSeverity.isAlertZone b);
      try (by left; left); try (by right; left).
    + destruct (Z.lt_total (PlaceSeverity.critical a) (PlaceSeverity.critical b))
        as [?|[?|?]];
      destruct (Z.lt_total (PlaceSeverity.severe a) (PlaceSeverity.severe b))
        as [?|[?|?]];
      destruct (Z.le_ge_cases (PlaceSeverity.totalActiveCases a)
                  (PlaceSeverity.totalActiveCases b));
      first [left; right; split; [done|lia] | right; right; split; [done|lia]].
    + destruct (Z.lt_total (PlaceSeverity.critical a) (PlaceSeverity.critical b))
        as [?|[?|?]];
      destruct (Z.lt_total (PlaceSeverity.severe a) (PlaceSeverity.severe b))
        as [?|[?|?]];
      destruct (Z.le_ge_cases (PlaceSeverity.totalActiveCases a)
                  (PlaceSeverity.totalActiveCases b));
      first [left; right; split; [done|lia] | right; right; split; [done|lia]].
  - intros a b c. rewrite !placeSeverity_le0_iff.
    destruct (PlaceSeverity.isAlertZone a), (PlaceSeverity.isAlertZone b),
      (PlaceSeverity.isAlertZone c);
      intros [[? ?]|[? ?]] [[? ?]|[? ?]]; try discriminate;
      try (by left); right; (split; [done|lia]).
Qed.

(** ** Merging cases by id *)

Lemma byId_snoc cases c :
  byId (cases ++ [c]) = Map_set (byId cases) (EmergencyCase.id c) c.
Proof. unfold byId. by rewrite fold_left_app. Qed.

Lemma byId_NoDup cases : List.NoDup (map fst (byId cases)).
Proof.
  induction cases as [|c cases IH] using rev_ind; [constructor|].
  rewrite byId_snoc. by apply Map_set_NoDup.
Qed.

(** The entry of an id is the last case of the list with that id. *)
Lemma byId_get cases k :
  Map_get (byId cases) k
  = find (fun c => String.eqb (EmergencyCase.id c) k) (rev cases).
Proof.
  induction cases as [|c cases IH] using rev_ind; [done|].
  rewrite byId_snoc, Map_get_set, rev_unit. simpl.
  by destruct (String.eqb (EmergencyCase.id c) k).
Qed.

Lemma byId_In cases k c :
  In (k, c) (byId cases) <->
  k = EmergencyCase.id c /\
  find (fun c' => String.eqb (EmergencyCase.id c') (EmergencyCase.id c))
       (rev cases) = Some c.
Proof.
  rewrite Map_get_In by apply byId_NoDup. rewrite byId_get. split.
  - intros H. apply find_some in H as H'. destruct H' as [_ E].
    apply String.eqb_eq in E. subst k. done.
  - by intros [-> H].
Qed.

Lemma byId_values_In cases c :
  In c (map snd (byId cases)) <->
  find (fun c' => String.eqb (EmergencyCase.id c') (EmergencyCase.id c))
       (rev cases) = Some c.
Proof.
  rewrite in_map_iff. split.
  - intros ([k c'] & E & Hin). simpl in E. subst c'.
    by apply byId_In in Hin as [_ H].
  - intros H. exists (EmergencyCase.id c, c). split; [done|].
    by apply byId_In.
Qed.

Lemma byId_values_ids cases :
  map EmergencyCase.id (map snd (byId cases)) = map fst (byId cases).
Proof.
  rewrite map_map. apply map_ext_in. intros [k c] Hin.
  apply byId_In in Hin as [-> _]. done.
Qed.

(** X11: merging the API cases into the demo cases gives a list in which
    no two cases share an id; a case is in it exactly when it is the last
    case with its id among the demo cases followed by the API cases, so an
    API case replaces a demo case of the same id; and the list is in
    ascending severity rank. *)
Theorem mergeWithDemoCases_spec (DEMO_CASES apiCases : list EmergencyCase.t) :
  let out := mergeWithDemoCases DEMO_CASES apiCases in
  List.NoDup (map EmergencyCase.id out) /\
  (forall c, In c out <->
     find (fun c' => String.eqb (EmergencyCase.id c') (EmergencyCase.id c))
          (rev apiCases ++ rev DEMO_CASES) = Some c) /\
  (forall c, In c apiCases -> In (EmergencyCase.id c) (map EmergencyCase.id out)) /\
  (forall c, In c DEMO_CASES ->
     In (EmergencyCase.id c) (map EmergencyCase.id out)) /\
  StronglySorted
    (fun a b => severityOrder (EmergencyCase.severity a)
                <= severityOrder (EmergencyCase.severity b)) out.
Proof.
  intros out. unfold out, mergeWithDemoCases, sortCasesBySeverity.
  set (all := DEMO_CASES ++ apiCases).
  assert (Hperm : Array_sort severity_le0 (map snd (byId all))
                  ≡ₚ map snd (byId all)) by apply Array_sort_perm.
  assert (Hids : forall c, In c all ->
            In (EmergencyCase.id c)
               (map EmergencyCase.id (Array_sort severity_le0 (map snd (byId all))))).
  { intros c Hc.
    destruct (find (fun c' => String.eqb (EmergencyCase.id c') (EmergencyCase.id c))
                (rev all)) as [c0|] eqn:E.
    - apply find_some in E as E'. destruct E' as [_ Eid].
      apply String.eqb_eq in Eid. rewrite <- Eid. apply in_map.
      apply (Permutation_in _ (Permutation_sym Hperm)).
      apply byId_values_In. by rewrite Eid.
    - exfalso. apply in_rev in Hc.
      apply (find_none _ _ E c) in Hc. by rewrite String.eqb_refl in Hc. }
  split; [|split; [|split; [|split]]].
  - eapply Permutation_NoDup.
    { symmetry. apply Permutation_map, Hperm. }
    rewrite byId_values_ids. apply byId_NoDup.
  - intros c. rewrite Array_sort_In, byId_values_In. unfold all.
    by rewrite rev_app_distr.
  - intros c Hc. apply Hids. unfold all. apply in_or_app. by right.
  - intros c Hc. apply Hids. unfold all. apply in_or_app. by left.
  - eapply StronglySorted_weaken;
      [|apply Array_sort_sorted;
        [apply severity_le0_total|apply severity_le0_trans]].
    intros a b _ _. apply severity_le0_iff.
Qed.

(** X12: adding or updating a case puts it into the list, removes any
    other case with its id and keeps every case with another id. *)
Theorem upsertCase_spec (prev : list EmergencyCase.t) (newCase : EmergencyCase.t) :
  let out := upsertCase prev newCase in
  In newCase out /\
  (forall c, In c out -> EmergencyCase.id c = EmergencyCase.id newCase ->
             c = newCase) /\
  (forall c, EmergencyCase.id c <> EmergencyCase.id newCase ->
     (In c out <-> In c (map snd (byId prev)))).
Proof.
  intros out. unfold out, upsertCase, sortCasesBySeverity.
  assert (Hin : forall c,
            In c (Array_sort severity_le0 (map snd (byId (prev ++ [newCase])))) <->
            (if String.eqb (EmergencyCase.id newCase) (EmergencyCase.id c)
             then Some newCase
             else find (fun c' => String.eqb (EmergencyCase.id c')
                                             (EmergencyCase.id c)) (rev prev))
            = Some c).
  { intros c. rewrite Array_sort_In, byId_values_In, rev_unit. done. }
  split; [|split].
  - apply Hin. by rewrite String.eqb_refl.
  - intros c Hc Hid. apply Hin in Hc. rewrite <- Hid, String.eqb_refl in Hc.
    by injection Hc.
  - intros c Hne. rewrite Hin, byId_values_In.
    destruct (String.eqb_spec (EmergencyCase.id newCase) (EmergencyCase.id c));
      [congruence|done].
Qed.


(** ** The box of the most critical hospitals *)

Lemma byHospital_snoc cases c :
  byHospital (cases ++ [c]) = byHospital_step (byHospital cases) c.
Proof. unfold byHospital. by rewrite fold_left_app. Qed.

Lemma assigned_to_snoc name cases c :
  assigned_to name (cases ++ [c]) =
    assigned_to name cases ++
      (if bool_decide (EmergencyCase.assignedHospital c = Some name)
       then [c] else []).
Proof. unfold assigned_to. rewrite List.filter_app. by simpl. Qed.

(** What [byHospital.get(name)] holds: the cases assigned to [name], in
    input order; nothing under the empty name. *)
Lemma byHospital_get cases name :
  Map_get (byHospital cases) name =
    if String.eqb name "" then None
    else match assigned_to name cases with
         | [] => None
         | l => Some l
         end.
Proof.
  induction cases as [|c cases IH] using rev_ind.
  - cbn. by destruct (String.eqb name "").
  - rewrite byHospital_snoc, assigned_to_snoc. unfold byHospital_step.
    destruct (EmergencyCase.assignedHospital c) as [n|] eqn:Hn.
    + destruct (String.eqb_spec n "") as [->|Hne].
      * rewrite IH. destruct (String.eqb_spec name "") as [He|Hne']; [done|].
        rewrite bool_decide_eq_false_2 by congruence.
        by rewrite app_nil_r.
      * cbn zeta. rewrite Map_get_set.
        destruct (String.eqb_spec n name) as [->|Hne'].
        -- rewrite IH. rewrite (proj2 (String.eqb_neq _ _)) by done.
           rewrite bool_decide_eq_true_2 by done.
           destruct (assigned_to name cases); by simpl.
        -- rewrite IH. rewrite bool_decide_eq_false_2 by congruence.
           by rewrite app_nil_r.
    + rewrite IH. rewrite bool_decide_eq_false_2 by congruence.
      by rewrite app_nil_r.
Qed.

Lemma byHospital_get_default cases name :
  default [] (Map_get (byHospital cases) name) =
    if String.eqb name "" then [] else assigned_to name cases.
Proof.
  rewrite byHospital_get. destruct (String.eqb name ""); [done|].
  by destruct (assigned_to name cases).
Qed.

Lemma In_take {A} (x : A) n l : In x (take n l) -> In x l.
Proof.
  revert n. induction l as [|y l IH]; intros [|n]; simpl; try tauto.
  intros [->|Hx]; [by left|right; by apply (IH n)].
Qed.

Lemma StronglySorted_take {A} (R : A -> A -> Prop) n l :
  StronglySorted R l -> StronglySorted R (take n l).
Proof.
  intros Hs. revert n. induction Hs as [|x l Hs IH Hx]; intros [|n]; simpl;
    try constructor.
  - apply IH.
  - rewrite List.Forall_forall in *. intros y Hy. apply Hx.
    by apply In_take in Hy.
Qed.

Section CriticalCasesFacts.
Variable Date_getTime : string -> Z.

Lemma worstCase_le0_iff a b :
  (worstCase_cmp Date_getTime a b <=? 0) = true <->
  severityOrder (EmergencyCase.severity a) < severityOrder (EmergencyCase.severity b) \/
  (severityOrder (EmergencyCase.severity a) = severityOrder (EmergencyCase.severity b) /\
   Date_getTime (EmergencyCase.timeOfReport a)
     <= Date_getTime (EmergencyCase.timeOfReport b)).
Proof.
  unfold worstCase_cmp. cbn zeta. rewrite Z.leb_le.
  destruct (Z.eqb_spec (severityOrder (EmergencyCase.severity a)
                        - severityOrder (EmergencyCase.severity b)) 0);
    simpl; lia.
Qed.

Lemma summaries_le0_iff a b :
  (summaries_cmp Date_getTime a b <=? 0) = true <->
  HospitalCriticalSummary.criticalCount b < HospitalCriticalSummary.criticalCount a \/
  (HospitalCriticalSummary.criticalCount a = HospitalCriticalSummary.criticalCount b /\
   (HospitalCriticalSummary.dangerVictims b < HospitalCriticalSummary.dangerVictims a \/
    (HospitalCriticalSummary.dangerVictims a = HospitalCriticalSummary.dangerVictims b /\
     (severityOrder (HospitalCriticalSummary.grade a)
        < severityOrder (HospitalCriticalSummary.grade b) \/
      (severityOrder (HospitalCriticalSummary.grade a)
         = severityOrder (HospitalCriticalSummary.grade b) /\
       Date_getTime (EmergencyCase.timeOfReport (HospitalCriticalSummary.worstCase a))
         <= Date_getTime (EmergencyCase.timeOfReport (HospitalCriticalSummary.worstCase b))))))).
Proof.
  unfold summaries_cmp. cbn zeta. rewrite Z.leb_le.
  repeat (match goal with
          | |- context [negb (?x =? 0)] => destruct (Z.eqb_spec x 0); simpl
          end); lia.
Qed.

(** What the summary of one hospital holds. *)
Lemma summarize_spec cases hospital s :
  summarize Date_getTime cases hospital = Some s ->
  let mine := assigned_to (Hospital.name hospital) cases in
  HospitalCriticalSummary.hospital s = hospital /\
  Hospital.name hospital <> "" /\
  HospitalCriticalSummary.criticalCount s =
    Z.of_nat (length (List.filter
      (fun c => bool_decide (EmergencyCase.severity c = critical)) mine)) /\
  HospitalCriticalSummary.totalVictims s =
    Zsum (map EmergencyCase.numberOfPatients mine) /\
  In (HospitalCriticalSummary.worstCase s) mine /\
  HospitalCriticalSummary.grade s =
    EmergencyCase.severity (HospitalCriticalSummary.worstCase s) /\
  (forall c, In c mine ->
     severityOrder (HospitalCriticalSummary.grade s)
       <= severityOrder (EmergencyCase.severity c)) /\
  (forall c, In c mine ->
     EmergencyCase.severity c = HospitalCriticalSummary.grade s ->
     Date_getTime (EmergencyCase.timeOfReport (HospitalCriticalSummary.worstCase s))
       <= Date_getTime (EmergencyCase.timeOfReport c)).
Proof.
  unfold summarize. cbn zeta. rewrite byHospital_get_default.
  destruct (String.eqb_spec (Hospital.name hospital) "") as [He|Hne];
    [done|].
  set (mine := assigned_to (Hospital.name hospital) cases).
  destruct (Z.of_nat (length mine) =? 0); [done|].
  set (le0 := fun a b => worstCase_cmp Date_getTime a b <=? 0).
  assert (Htot : forall a b, le0 a b = true \/ le0 b a = true).
  { intros a b. unfold le0. rewrite !worstCase_le0_iff. lia. }
  assert (Htr : forall a b c, le0 a b = true -> le0 b c = true -> le0 a c = true).
  { intros a b c. unfold le0. rewrite !worstCase_le0_iff. lia. }
  pose proof (Array_sort_sorted le0 Htot Htr mine) as Hs.
  pose proof (Array_sort_In le0) as Hin.
  destruct (Array_sort le0 mine) as [|w sorted] eqn:Hsort; [done|].
  intros [= <-]. cbn.
  assert (Hw : In w mine) by (apply (Hin w mine); rewrite Hsort; by left).
  assert (Hmin : forall c, In c mine -> le0 w c = true).
  { intros c Hc. apply (Hin c mine) in Hc. rewrite Hsort in Hc.
    destruct Hc as [<-|Hc].
    - destruct (Htot w w); done.
    - apply StronglySorted_inv in Hs as [_ Hall].
      rewrite Forall_forall in Hall. apply Hall. by apply list_elem_of_In. }
  split; [done|]. split; [done|]. split; [done|].
  split; [by rewrite fold_left_sum_Zsum|].
  split; [done|]. split; [done|]. split.
  - intros c Hc. specialize (Hmin c Hc). unfold le0 in Hmin.
    apply worstCase_le0_iff in Hmin. lia.
  - intros c Hc Heq. specialize (Hmin c Hc). unfold le0 in Hmin.
    apply worstCase_le0_iff in Hmin. rewrite Heq in Hmin. lia.
Qed.

(** X24. The box lists at most five hospitals.  Each listed hospital is
    one of [hospitals], has a non-empty name and at least one case assigned
    to it; its counts are those of the cases assigned to it, its worst case
    is one of them, of the gravest severity among them and the earliest
    reported of that severity, and the grade shown is that severity.  The
    list runs from the most critical cases to the fewest. *)
Theorem topHospitals_spec cases hospitals :
  let top := topHospitals Date_getTime cases hospitals in
  (length top <= 5)%nat /\
  StronglySorted
    (fun a b => HospitalCriticalSummary.criticalCount b
                <= HospitalCriticalSummary.criticalCount a) top /\
  forall s, In s top ->
    let mine :=
      assigned_to (Hospital.name (HospitalCriticalSummary.hospital s)) cases in
    In (HospitalCriticalSummary.hospital s) hospitals /\
    Hospital.name (HospitalCriticalSummary.hospital s) <> "" /\
    HospitalCriticalSummary.criticalCount s =
      Z.of_nat (length (List.filter
        (fun c => bool_decide (EmergencyCase.severity c = critical)) mine)) /\
    HospitalCriticalSummary.totalVictims s =
      Zsum (map EmergencyCase.numberOfPatients mine) /\
    In (HospitalCriticalSummary.worstCase s) mine /\
    HospitalCriticalSummary.grade s =
      EmergencyCase.severity (HospitalCriticalSummary.worstCase s) /\
    (forall c, In c mine ->
       severityOrder (HospitalCriticalSummary.grade s)
         <= severityOrder (EmergencyCase.severity c)) /\
    (forall c, In c mine ->
       EmergencyCase.severity c = HospitalCriticalSummary.grade s ->
       Date_getTime (EmergencyCase.timeOfReport (HospitalCriticalSummary.worstCase s))
         <= Date_getTime (EmergencyCase.timeOfReport c)).
Proof.
  unfold topHospitals. cbn zeta.
  set (le0 := fun a b => summaries_cmp Date_getTime a b <=? 0).
  set (summaries := omap (fun hospital => summarize Date_getTime cases hospital)
                         hospitals).
  assert (Htot : forall a b, le0 a b = true \/ le0 b a = true).
  { intros a b. unfold le0. rewrite !summaries_le0_iff. lia. }
  assert (Htr : forall a b c, le0 a b = true -> le0 b c = true -> le0 a c = true).
  { intros a b c. unfold le0. rewrite !summaries_le0_iff. lia. }
  split; [|split].
  - rewrite length_take. lia.
  - apply StronglySorted_take.
    eapply StronglySorted_weaken; [|apply (Array_sort_sorted le0 Htot Htr)].
    intros a b _ _ Hab. cbn beta in Hab. unfold le0 in Hab.
    apply summaries_le0_iff in Hab. lia.
  - intros s Hs.
    assert (Hs' : In s summaries).
    { apply (Array_sort_In le0). by apply In_take in Hs. }
    apply list_elem_of_In in Hs'. unfold summaries in Hs'.
    apply list_elem_of_omap in Hs' as (hospital & Hh & Hsum).
    apply list_elem_of_In in Hh.
    pose proof (summarize_spec cases hospital s Hsum) as Hspec.
    cbn zeta in Hspec. destruct Hspec as (Hhs & Hrest).
    rewrite Hhs. split; [done|exact Hrest].
Qed.
End CriticalCasesFacts.


(** ** The further properties on concrete inputs *)

Lemma String_compare_not_Gt_trans (a b c : string) :
  String.compare a b <> Gt -> String.compare b c <> Gt ->
  String.compare a c <> Gt.
Proof.
  revert b c. induction a as [|x a IH]; intros [|y b] [|z c]; simpl;
    try congruence.
  unfold Ascii.compare.
  destruct (N.compare_spec (Ascii.N_of_ascii x) (Ascii.N_of_ascii y));
    destruct (N.compare_spec (Ascii.N_of_ascii y) (Ascii.N_of_ascii z));
    destruct (N.compare_spec (Ascii.N_of_ascii x) (Ascii.N_of_ascii z));
    try congruence; try lia.
  apply IH.
Qed.

Lemma localeCompare_le0_iff (a b : string) :
  Examples.localeCompare a b <= 0 <-> String.compare a b <> Gt.
Proof.
  unfold Examples.localeCompare.
  destruct (String.compare a b); split; intros H; try lia; try discriminate;
    by destruct H.
Qed.

Lemma Examples_localeCompare_total (a b : string) :
  Examples.localeCompare a b <= 0 \/ Examples.localeCompare b a <= 0.
Proof.
  rewrite !localeCompare_le0_iff. rewrite (String.compare_antisym a b).
  destruct (String.compare b a); simpl; [left|right|left]; discriminate.
Qed.

Lemma Examples_localeCompare_trans (a b c : string) :
  Examples.localeCompare a b <= 0 -> Examples.localeCompare b c <= 0 ->
  Examples.localeCompare a c <= 0.
Proof.
  rewrite !localeCompare_le0_iff. apply String_compare_not_Gt_trans.
Qed.

Lemma sortHospitalsByPreparedness_spec_witness :
  (forall a b, Examples.localeCompare a b <= 0 \/ Examples.localeCompare b a <= 0) /\
  (forall a b c, Examples.localeCompare a b <= 0 ->
                 Examples.localeCompare b c <= 0 ->
                 Examples.localeCompare a c <= 0) /\
  sortHospitalsByPreparedness Examples.localeCompare Data.hospitals
    ≡ₚ Data.hospitals.
Proof.
  split; [exact Examples_localeCompare_total|].
  split; [exact Examples_localeCompare_trans|].
  exact (proj1 (sortHospitalsByPreparedness_spec Examples.localeCompare
                  Examples_localeCompare_total Examples_localeCompare_trans
                  Data.hospitals)).
Defined.

Lemma computePlaceSeverities_response_time_witness :
  (forall i, (0 <= Examples.Math_random i < 1)%Q) /\
  forall e, In e (computePlaceSeverities Examples.Math_random Examples.cases) ->
    4 <= PlaceSeverity.avgResponseTimeMinutes e <= 18.
Proof.
  assert (H : forall i, (0 <= Examples.Math_random i < 1)%Q).
  { intros i. split; reflexivity || discriminate. }
  split; [exact H|].
  exact (computePlaceSeverities_response_time Examples.Math_random
           Examples.cases H).
Defined.

Lemma placeGroup_aggregates_witness :
  exists g,
    In g (placeGroups Examples.RegExp_test Examples.toLowerCase Examples.cases) /\
    PlaceGroup.totalVictims g
    = Zsum (map EmergencyCase.numberOfPatients
              (members (PlaceGroup.placeName g) Examples.cases)).
Proof.
  eexists. split; [left; reflexivity|].
  exact (proj2 (proj2 (placeGroup_aggregates
                         Examples.RegExp_test Examples.toLowerCase
                         Examples.cases _ (or_introl eq_refl)))).
Defined.

Lemma no_overcommit_when_room_witness :
  0 < PlaceGroup.totalVictims Examples.cardiac_group /\
  (exists h', In h' Data.hospitals /\
              has_capacity ∅ (PlaceGroup.totalVictims Examples.cardiac_group) h') /\
  exists h,
    findNearestHospitalWithCapacityAndServices
      Examples.PI Examples.sin Examples.cos Examples.sqrt Examples.atan2
      31.6300 (-8.0000) Data.hospitals ∅ 3 [cardiology] = Some h /\
    In h Data.hospitals.
Proof.
  assert (H0 : 0 < PlaceGroup.totalVictims Examples.cardiac_group)
    by reflexivity.
  assert (H1 : exists h', In h' Data.hospitals /\
                 has_capacity ((∅, ∅) : gmap string Z * gmap string string).1
                   (PlaceGroup.totalVictims Examples.cardiac_group) h').
  { exists Data.h2. split; [right; left; reflexivity|].
    unfold has_capacity, used_of. simpl. rewrite lookup_empty. simpl. lia. }
  split; [exact H0|]. split; [exact H1|].
  destruct (no_overcommit_when_room
              Examples.PI Examples.sin Examples.cos Examples.sqrt Examples.atan2
              Examples.cardiac_group Data.hospitals (∅, ∅) H0 H1)
    as (h & Hh & Hin & _).
  exists h. split; [exact Hh|exact Hin].
Defined.

Lemma ledger_total_is_all_victims_witness :
  Data.hospitals <> [] /\
  ledger_total
    (assign_loop Examples.PI Examples.sin Examples.cos Examples.sqrt
       Examples.atan2 Data.hospitals
       (placeGroups Examples.RegExp_test Examples.toLowerCase Examples.cases)).1
  = Zsum (map EmergencyCase.numberOfPatients Examples.cases).
Proof.
  assert (Hne : Data.hospitals <> []) by discriminate.
  split; [exact Hne|].
  exact (ledger_total_is_all_victims
           Examples.PI Examples.sin Examples.cos Examples.sqrt Examples.atan2
           Examples.RegExp_test Examples.toLowerCase
           Examples.cases Data.hospitals Hne).
Defined.

Lemma pass_within_capacity_witness :
  List.NoDup (map Hospital.name Data.hospitals) /\
  (forall c, In c Examples.small_wave -> 0 < EmergencyCase.numberOfPatients c) /\
  (exists h, In h Data.hospitals /\
             Zsum (map EmergencyCase.numberOfPatients Examples.small_wave)
             <= BedPool.available (Hospital.emergencyBeds h)) /\
  within_capacity Data.hospitals
    (assign_loop Examples.PI Examples.sin Examples.cos Examples.sqrt
       Examples.atan2 Data.hospitals
       (placeGroups Examples.RegExp_test Examples.toLowerCase
          Examples.small_wave)).1.
Proof.
  assert (Hnd : List.NoDup (map Hospital.name Data.hospitals)).
  { simpl. repeat (constructor; [simpl; intros H;
      repeat (destruct H as [H|H]; [discriminate H|]); destruct H|]).
    constructor. }
  assert (Hpos : forall c, In c Examples.small_wave ->
                           0 < EmergencyCase.numberOfPatients c).
  { intros c Hc. simpl in Hc.
    repeat (destruct Hc as [<-|Hc]; [reflexivity|]). destruct Hc. }
  assert (Hroom : exists h, In h Data.hospitals /\
             Zsum (map EmergencyCase.numberOfPatients Examples.small_wave)
             <= BedPool.available (Hospital.emergencyBeds h)).
  { exists Data.h5. split; [do 4 right; left; reflexivity|].
    vm_compute. discriminate. }
  split; [exact Hnd|]. split; [exact Hpos|]. split; [exact Hroom|].
  exact (pass_within_capacity
           Examples.PI Examples.sin Examples.cos Examples.sqrt Examples.atan2
           Examples.RegExp_test Examples.toLowerCase
           Examples.small_wave Data.hospitals Hnd Hpos Hroom).
Defined.
